(** * MigraScope: the migration risk analyzer and the multi-factor scorer

    A shallow embedding of [src/analyzer.ts] (the rule-table analyzer), of
    the scorer module ([calculateRiskScore] and its four factor functions)
    and of the request handler and exit code of [src/index.ts], followed by
    the properties the specification states about them.

    Modelling conventions.
    - The analyzer is given twice. [Analyzer] computes with exact rationals
      ([Q]): it is the analyzer as one reads it, and what is proved of it is
      what does not depend on how a product or a sum is rounded (which rule
      fires, the items and their levels, locks and suggestions, which
      metadata is read, integer aggregates). [Analyzer64] has the same rule
      table over IEEE 754 binary64, the [number] of the engine, with every
      [*], [+] and [/] rounded as the engine rounds it: durations and their
      total are proved there. The two agree on everything but the numbers
      ([analyze_agree]).
    - In the scorer a [number] is an exact rational; its scores are small
      integers and its weighted sum rounds the same way in binary64.
    - A JavaScript string is a [string] of 8-bit characters and the text is
      taken to be ASCII: characters above 127 are neither white space nor
      word characters and have no case.
    - A [RegExp] is a syntax tree for the constructs the rule table uses,
      run by a backtracking matcher with the greedy, leftmost semantics of
      [RegExp.prototype.exec]; all patterns carry the [i] flag, so literal
      text is compared case-insensitively.
    - [Map] is stdpp's [gmap]; a later entry for the same key replaces an
      earlier one, as in [new Map(entries)]. *)

From Stdlib Require Import ZArith QArith Qround Lqa SpecFloat.
From Stdlib Require Import String Ascii DecimalString List Lia Bool.
From stdpp Require Import gmap strings.
Import ListNotations.

Open Scope string_scope.

(** ** Characters and strings *)

Module Text.

Definition code (c : ascii) : N := N_of_ascii c.

(** White space as matched by [\s] and removed by [trim], within ASCII:
    TAB, LF, VT, FF, CR and SPACE. *)
Definition isSpace (c : ascii) : bool :=
  ((9 <=? code c) && (code c <=? 13) || (code c =? 32))%N.

Definition isUpper (c : ascii) : bool := ((65 <=? code c) && (code c <=? 90))%N.
Definition isLower (c : ascii) : bool := ((97 <=? code c) && (code c <=? 122))%N.
Definition isDigit (c : ascii) : bool := ((48 <=? code c) && (code c <=? 57))%N.

(** Word characters as matched by [\w]: [A-Za-z0-9_]. *)
Definition isWord (c : ascii) : bool :=
  isUpper c || isLower c || isDigit c || (code c =? 95)%N.

Definition upperChar (c : ascii) : ascii :=
  if isLower c then ascii_of_N (code c - 32) else c.

Definition lowerChar (c : ascii) : ascii :=
  if isUpper c then ascii_of_N (code c + 32) else c.

(** Character comparison under the [i] flag: both sides are canonicalized
    to upper case. *)
Definition sameLetter (a b : ascii) : bool :=
  Ascii.eqb (upperChar a) (upperChar b).

Fixpoint mapChars (f : ascii -> ascii) (s : string) : string :=
  match s with
  | EmptyString => EmptyString
  | String c s' => String (f c) (mapChars f s')
  end.

Definition toLowerCase (s : string) : string := mapChars lowerChar s.
Definition toUpperCase (s : string) : string := mapChars upperChar s.

Definition isEmpty (s : string) : bool :=
  match s with EmptyString => true | String _ _ => false end.

Fixpoint trimStart (s : string) : string :=
  match s with
  | EmptyString => EmptyString
  | String c s' => if isSpace c then trimStart s' else s
  end.

Fixpoint trimEnd (s : string) : string :=
  match s with
  | EmptyString => EmptyString
  | String c s' =>
      let t := trimEnd s' in
      if isSpace c && isEmpty t then EmptyString else String c t
  end.

Definition trim (s : string) : string := trimEnd (trimStart s).

(** [s.split(sep)] for a one-character separator: the pieces between the
    separators, in order; [n] separators give [n + 1] pieces, so the empty
    string splits into one empty piece. *)
Fixpoint split (sep : ascii) (s : string) : list string :=
  match s with
  | EmptyString => [EmptyString]
  | String c s' =>
      if Ascii.eqb c sep then EmptyString :: split sep s'
      else match split sep s' with
           | piece :: pieces => String c piece :: pieces
           | [] => [String c EmptyString]
           end
  end.

(** [s.includes(t)] *)
Fixpoint includes (t s : string) : bool :=
  String.prefix t s ||
  match s with
  | EmptyString => false
  | String _ s' => includes t s'
  end.

(** If [s] begins with [t] up to letter case, the rest of [s]. *)
Fixpoint stripPrefix (t s : string) {struct s} : option string :=
  match s with
  | EmptyString => if isEmpty t then Some EmptyString else None
  | String b s' =>
      match t with
      | EmptyString => Some s
      | String a t' => if sameLetter a b then stripPrefix t' s' else None
      end
  end.

(** The part of [s] in front of its suffix [rest]. *)
Definition consumed (s rest : string) : string :=
  String.substring 0 (String.length s - String.length rest) s.

End Text.

(** ** Regular expressions *)

Module RegExp.
Import Text.

Inductive CharClass : Set :=
| Space   (* \s *)
| Word.   (* \w *)

Definition inClass (cl : CharClass) : ascii -> bool :=
  match cl with
  | Space => isSpace
  | Word => isWord
  end.

(** The constructs of the patterns in the rule table. There is one capture
    group in every pattern, so [Group] is group number 1. *)
Inductive t : Set :=
| Lit (text : string)        (* literal text, case-insensitive *)
| Plus (cl : CharClass)      (* \s+  \w+ *)
| Seq (r1 r2 : t)            (* r1 r2 *)
| Opt (r : t)                (* (?:r)?  c? *)
| Group (r : t)              (* (r) *)
| NotAhead (r : t).          (* (?!r) *)

(** A match result: the text of group 1, [None] when the group did not
    take part in the match. *)
Definition Captures : Set := option string.

(** What remains to be matched after a sub-pattern: called with the rest
    of the input and the captures so far, it answers [None] to ask for
    backtracking. *)
Definition Cont : Set := string -> Captures -> option Captures.

(** Greedy repetition of a character class: take as many characters as
    possible and give them back one at a time while the continuation
    fails. *)
Fixpoint star (p : ascii -> bool) (k : Cont) (s : string) (cap : Captures)
  : option Captures :=
  match s with
  | EmptyString => k s cap
  | String c s' =>
      if p c then
        match star p k s' cap with
        | Some res => Some res
        | None => k s cap
        end
      else k s cap
  end.

Definition plus (p : ascii -> bool) (k : Cont) (s : string) (cap : Captures)
  : option Captures :=
  match s with
  | EmptyString => None
  | String c s' => if p c then star p k s' cap else None
  end.

Definition accept : Cont := fun _ cap => Some cap.

Fixpoint run (r : t) (k : Cont) (s : string) (cap : Captures)
  : option Captures :=
  match r with
  | Lit text =>
      match stripPrefix text s with
      | Some s' => k s' cap
      | None => None
      end
  | Plus cl => plus (inClass cl) k s cap
  | Seq r1 r2 => run r1 (run r2 k) s cap
  | Opt r1 =>
      match run r1 k s cap with
      | Some res => Some res
      | None => k s cap
      end
  | Group r1 => run r1 (fun s' _ => k s' (Some (consumed s s'))) s cap
  | NotAhead r1 =>
      match run r1 accept s cap with
      | Some _ => None
      | None => k s cap
      end
  end.

(** [pattern.exec(s)] for a pattern without the [g] flag: the match at the
    leftmost start position that has one, [None] for [null]. *)
Fixpoint exec (r : t) (s : string) : option Captures :=
  match run r accept s None with
  | Some cap => Some cap
  | None =>
      match s with
      | EmptyString => None
      | String _ s' => exec r s'
      end
  end.

(** [pattern.test(s)] *)
Definition test (r : t) (s : string) : bool :=
  match exec r s with
  | Some _ => true
  | None => false
  end.

Module Notations.
Declare Scope regexp_scope.
Delimit Scope regexp_scope with re.
Bind Scope regexp_scope with t.
Infix ">>>" := Seq (at level 60, right associativity) : regexp_scope.
Notation "\s+" := (Plus Space) : regexp_scope.
Notation "\w+" := (Plus Word) : regexp_scope.
End Notations.

End RegExp.

(** ** Numbers *)

Module Number.
Local Open Scope Q_scope.

(** [Math.round]: the nearest integer, a tie going to the larger one. *)
Definition Math_round (x : Q) : Z := Qfloor (x + (1 # 2)).

(** [x < y] *)
Definition ltb (x y : Q) : bool := negb (Qle_bool y x).

(** [x || 0] for an optional number: [undefined] and [0] both give [0]. *)
Definition orZero (x : option Q) : Q :=
  match x with
  | Some q => if Qeq_bool q 0 then 0 else q
  | None => 0
  end.

(** [x] for an optional boolean used as a condition. *)
Definition truthy (b : option bool) : bool :=
  match b with
  | Some true => true
  | _ => false
  end.

End Number.

(** ** Numbers as the engine has them: IEEE 754 binary64 *)

Module Binary64.
Local Open Scope Z_scope.

(** A JavaScript [number]: a value of the binary64 format. A finite value
    that is not zero is [(-1)^s * m * 2^e]. *)
Definition number : Set := spec_float.

Definition prec : Z := 53.
Definition emax : Z := 1024.

(** [x + y], [x * y] and [x / y]: the exact result rounded to the nearest
    value of the format, a tie going to the even mantissa. *)
Definition add (x y : number) : number := SFadd prec emax x y.
Definition mul (x y : number) : number := SFmul prec emax x y.
Definition div (x y : number) : number := SFdiv prec emax x y.

(** An integer literal, and the number of an integer the code has
    computed. *)
Definition ofZ (z : Z) : number := binary_normalize prec emax z 0 false.

(** [0] *)
Definition zero : number := S754_zero false.

(** The real number that a finite value stands for. *)
Definition toQ (x : number) : option Q :=
  match x with
  | S754_zero _ => Some 0%Q
  | S754_finite s m e =>
      Some (inject_Z (if s then Z.neg m else Z.pos m) * Qpower 2 e)%Q
  | S754_infinity _ | S754_nan => None
  end.

(** What [Math.round] returns: a number with an integer value, [-0], or
    the value it was given when that is [NaN] or infinite. *)
Inductive Integral : Set :=
| Int (z : Z)
| NegativeZero
| NaN
| Infinity (negative : bool).

(** [Math.round(x)]: the integer nearest to [x], the larger one of two
    that are equally near; [-0] for [-0] and for [-0.5 <= x < 0]. The
    result is computed from the exact value of [x], without rounding. *)
Definition Math_round (x : number) : Integral :=
  match x with
  | S754_nan => NaN
  | S754_infinity s => Infinity s
  | S754_zero s => if s then NegativeZero else Int 0
  | S754_finite s m e =>
      let z := Number.Math_round
                 (inject_Z (if s then Z.neg m else Z.pos m) * Qpower 2 e)%Q in
      if s && (z =? 0) then NegativeZero else Int z
  end.

(** The integer value of a result of [Math.round], when it has one. *)
Definition integerOf (r : Integral) : option Z :=
  match r with
  | Int z => Some z
  | NegativeZero => Some 0
  | NaN | Infinity _ => None
  end.

End Binary64.

(** ** The analyzer ([analyzer.ts]) *)

Module Analyzer.
Import Text RegExp RegExp.Notations Number.
Local Open Scope Q_scope.

Record TableMeta : Set := {
  name : string;
  rowCount : Q;
  sizeBytes : Q
}.

Inductive RiskLevel : Set := low | medium | high | critical.

Record RiskItem : Set := {
  operation : string;
  table : string;
  riskLevel : RiskLevel;
  lockType : string;
  estimatedDurationMs : Q;
  dataLoss : bool;
  suggestion : string
}.

Record AnalysisReport : Set := {
  operations : list RiskItem;
  overallRisk : RiskLevel;
  totalEstimatedDurationMs : Z;
  score : Z
}.

(** [Omit<RiskItem, "table">]: a risk item that still waits for its
    table. *)
Definition Assessment : Set := string -> RiskItem.

Record Rule : Set := {
  pattern : RegExp.t;
  assess : TableMeta -> string -> Assessment
}.

Definition R : Q := 0.01. (* ms per row baseline *)

Definition SCORES (l : RiskLevel) : Z :=
  match l with
  | low => 10
  | medium => 40
  | high => 70
  | critical => 100
  end%Z.

Definition DEFAULT_META : TableMeta :=
  {| name := "unknown"; rowCount := 100000; sizeBytes := 1e7 |}.

Definition mk (operation : string) (riskLevel : RiskLevel) (lockType : string)
    (estimatedDurationMs : Q) (dataLoss : bool) (suggestion : string)
  : Assessment :=
  fun table =>
    {| operation := operation; table := table; riskLevel := riskLevel;
       lockType := lockType; estimatedDurationMs := estimatedDurationMs;
       dataLoss := dataLoss; suggestion := suggestion |}.

(** The double-quote character, written [\x22] in the patterns quoted below. *)
Definition quote : RegExp.t := Lit (String "034"%char EmptyString).

(** The two patterns the ADD COLUMN rule tests the statement with. *)
Definition NOT_NULL : RegExp.t := (Lit "NOT" >>> \s+ >>> Lit "NULL")%re.
Definition DEFAULT : RegExp.t := Lit "DEFAULT".

Definition DROP_TABLE : Rule := {|
  (* /DROP\s+TABLE\s+(?:IF\s+EXISTS\s+)?\x22?(\w+)/i *)
  pattern :=
    (Lit "DROP" >>> \s+ >>> Lit "TABLE" >>> \s+ >>>
     Opt (Lit "IF" >>> \s+ >>> Lit "EXISTS" >>> \s+) >>>
     Opt quote >>> Group \w+)%re;
  assess := fun m _ =>
    mk "DROP TABLE" critical "ACCESS EXCLUSIVE" 50 true
       "Ensure full backup. Consider renaming to _deprecated instead."
|}.

Definition DROP_COLUMN : Rule := {|
  (* /ALTER\s+TABLE\s+\x22?(\w+)\x22?\s+DROP\s+COLUMN/i *)
  pattern :=
    (Lit "ALTER" >>> \s+ >>> Lit "TABLE" >>> \s+ >>>
     Opt quote >>> Group \w+ >>> Opt quote >>> \s+ >>>
     Lit "DROP" >>> \s+ >>> Lit "COLUMN")%re;
  assess := fun m _ =>
    mk "DROP COLUMN" high "ACCESS EXCLUSIVE" (rowCount m * R) true
       "Column data will be permanently lost. Add deprecation period first."
|}.

Definition ALTER_COLUMN_TYPE : Rule := {|
  (* /ALTER\s+TABLE\s+\x22?(\w+)\x22?\s+ALTER\s+COLUMN\s+\w+\s+(?:SET\s+DATA\s+)?TYPE/i *)
  pattern :=
    (Lit "ALTER" >>> \s+ >>> Lit "TABLE" >>> \s+ >>>
     Opt quote >>> Group \w+ >>> Opt quote >>> \s+ >>>
     Lit "ALTER" >>> \s+ >>> Lit "COLUMN" >>> \s+ >>> \w+ >>> \s+ >>>
     Opt (Lit "SET" >>> \s+ >>> Lit "DATA" >>> \s+) >>> Lit "TYPE")%re;
  assess := fun m _ =>
    mk "ALTER COLUMN TYPE" high "ACCESS EXCLUSIVE" (rowCount m * R * 2) false
       "Full table rewrite required. Schedule during maintenance window."
|}.

Definition ADD_COLUMN : Rule := {|
  (* /ALTER\s+TABLE\s+\x22?(\w+)\x22?\s+ADD\s+COLUMN/i *)
  pattern :=
    (Lit "ALTER" >>> \s+ >>> Lit "TABLE" >>> \s+ >>>
     Opt quote >>> Group \w+ >>> Opt quote >>> \s+ >>>
     Lit "ADD" >>> \s+ >>> Lit "COLUMN")%re;
  assess := fun m sql =>
    if test NOT_NULL sql && negb (test DEFAULT sql)
    then mk "ADD COLUMN (NOT NULL, no default)" high "ACCESS EXCLUSIVE"
            (rowCount m * R * 2) false
            "Add DEFAULT value or use nullable + backfill + set NOT NULL strategy."
    else mk "ADD COLUMN" low "ACCESS EXCLUSIVE (brief)" 10 false
            "Safe in PostgreSQL 11+. Fast metadata-only operation."
|}.

Definition CREATE_INDEX_CONCURRENTLY : Rule := {|
  (* /CREATE\s+INDEX\s+CONCURRENTLY\s+\w+\s+ON\s+\x22?(\w+)/i *)
  pattern :=
    (Lit "CREATE" >>> \s+ >>> Lit "INDEX" >>> \s+ >>>
     Lit "CONCURRENTLY" >>> \s+ >>> \w+ >>> \s+ >>> Lit "ON" >>> \s+ >>>
     Opt quote >>> Group \w+)%re;
  assess := fun m _ =>
    mk "CREATE INDEX CONCURRENTLY" low "SHARE UPDATE EXCLUSIVE"
       (rowCount m * R * 3) false
       "Good practice. Monitor for long-running transactions that may block."
|}.

Definition CREATE_INDEX : Rule := {|
  (* /CREATE\s+(?:UNIQUE\s+)?INDEX\s+(?!CONCURRENTLY)\w+\s+ON\s+\x22?(\w+)/i *)
  pattern :=
    (Lit "CREATE" >>> \s+ >>> Opt (Lit "UNIQUE" >>> \s+) >>>
     Lit "INDEX" >>> \s+ >>> NotAhead (Lit "CONCURRENTLY") >>>
     \w+ >>> \s+ >>> Lit "ON" >>> \s+ >>> Opt quote >>> Group \w+)%re;
  assess := fun m _ =>
    mk "CREATE INDEX" high "SHARE" (rowCount m * R * 3) false
       "Use CREATE INDEX CONCURRENTLY to avoid blocking writes."
|}.

Definition ADD_CONSTRAINT : Rule := {|
  (* /ALTER\s+TABLE\s+\x22?(\w+)\x22?\s+ADD\s+CONSTRAINT/i *)
  pattern :=
    (Lit "ALTER" >>> \s+ >>> Lit "TABLE" >>> \s+ >>>
     Opt quote >>> Group \w+ >>> Opt quote >>> \s+ >>>
     Lit "ADD" >>> \s+ >>> Lit "CONSTRAINT")%re;
  assess := fun m _ =>
    mk "ADD CONSTRAINT" medium "ACCESS EXCLUSIVE" (rowCount m * R) false
       "For FK constraints, use NOT VALID then VALIDATE CONSTRAINT separately."
|}.

Definition RENAME : Rule := {|
  (* /ALTER\s+TABLE\s+\x22?(\w+)\x22?\s+RENAME/i *)
  pattern :=
    (Lit "ALTER" >>> \s+ >>> Lit "TABLE" >>> \s+ >>>
     Opt quote >>> Group \w+ >>> Opt quote >>> \s+ >>> Lit "RENAME")%re;
  assess := fun _ _ =>
    mk "RENAME" medium "ACCESS EXCLUSIVE (brief)" 10 false
       "Update all application queries referencing the old name."
|}.

Definition RULES : list Rule :=
  [ DROP_TABLE; DROP_COLUMN; ALTER_COLUMN_TYPE; ADD_COLUMN;
    CREATE_INDEX_CONCURRENTLY; CREATE_INDEX; ADD_CONSTRAINT; RENAME ].

(** [new Map(tableMeta.map((t) => [t.name.toLowerCase(), t]))] *)
Definition buildMetaMap (tableMeta : list TableMeta) : gmap string TableMeta :=
  fold_left (fun m t => <[toLowerCase (name t) := t]> m) tableMeta ∅.

(** [sql.split(";").map((s) => s.trim()).filter(Boolean)] *)
Definition statements (sql : string) : list string :=
  List.filter (fun s => negb (isEmpty s)) (map trim (split ";" sql)).

(** [match[1] || "unknown"] *)
Definition tableOf (m : Captures) : string :=
  match m with
  | Some t => if isEmpty t then "unknown" else t
  | None => "unknown"
  end.

(** [metaMap.get(table.toLowerCase()) || { ...DEFAULT_META, name: table }] *)
Definition metaFor (metaMap : gmap string TableMeta) (table : string) : TableMeta :=
  match metaMap !! toLowerCase table with
  | Some meta => meta
  | None =>
      {| name := table; rowCount := rowCount DEFAULT_META;
         sizeBytes := sizeBytes DEFAULT_META |}
  end.

(** The inner loop over [RULES] for one statement: the first rule whose
    pattern matches pushes its item, and the loop is left. *)
Fixpoint applyRules (rules : list Rule) (metaMap : gmap string TableMeta)
    (stmt : string) (operations : list RiskItem) : list RiskItem :=
  match rules with
  | [] => operations
  | rule :: rest =>
      match exec (pattern rule) stmt with
      | Some m =>
          let table := tableOf m in
          let meta := metaFor metaMap table in
          operations ++ [assess rule meta stmt table]
      | None => applyRules rest metaMap stmt operations
      end
  end.

Definition analyze (sql : string) (tableMeta : list TableMeta) : AnalysisReport :=
  let metaMap := buildMetaMap tableMeta in
  let stmts := statements sql in
  let operations :=
    fold_left (fun ops stmt => applyRules RULES metaMap stmt ops) stmts [] in
  let overallRisk :=
    fold_left (fun max op =>
                 if (SCORES (riskLevel op) >? SCORES max)%Z
                 then riskLevel op else max)
              operations low in
  let totalEstimatedDurationMs :=
    Math_round (fold_left (fun s o => s + estimatedDurationMs o) operations 0) in
  let score :=
    if (length operations =? 0)%nat then 0%Z
    else Math_round
           (inject_Z (fold_left (fun s o => s + SCORES (riskLevel o))%Z operations 0%Z)
            / inject_Z (Z.of_nat (length operations))) in
  {| operations := operations; overallRisk := overallRisk;
     totalEstimatedDurationMs := totalEstimatedDurationMs; score := score |}.

End Analyzer.

(** ** The analyzer with the numbers of the engine *)

(** [analyzer.ts] once more, now with every [number] a binary64 value and
    every [*], [+] and [/] rounded as the engine rounds it. The patterns,
    the splitting of the script and the table of a match are those of
    [Analyzer]; what differs is the arithmetic of the durations and of the
    aggregates. *)
Module Analyzer64.
Import Text RegExp Binary64.
Import Analyzer (RiskLevel, low, medium, high, critical, SCORES, statements, tableOf).

Record TableMeta : Set := {
  name : string;
  rowCount : number;
  sizeBytes : number
}.

Record RiskItem : Set := {
  operation : string;
  table : string;
  riskLevel : RiskLevel;
  lockType : string;
  estimatedDurationMs : number;
  dataLoss : bool;
  suggestion : string
}.

Record AnalysisReport : Set := {
  operations : list RiskItem;
  overallRisk : RiskLevel;
  totalEstimatedDurationMs : Integral;
  score : Integral
}.

Definition Assessment : Set := string -> RiskItem.

Record Rule : Set := {
  pattern : RegExp.t;
  assess : TableMeta -> string -> Assessment
}.

(** [0.01]: the value of the format nearest to one hundredth,
    [5764607523034235 * 2^-59]. *)
Definition R : number := S754_finite false 5764607523034235 (-59).

Definition DEFAULT_META : TableMeta :=
  {| name := "unknown"; rowCount := ofZ 100000; sizeBytes := ofZ 10000000 |}.

Definition mk (operation : string) (riskLevel : RiskLevel) (lockType : string)
    (estimatedDurationMs : number) (dataLoss : bool) (suggestion : string)
  : Assessment :=
  fun table =>
    {| operation := operation; table := table; riskLevel := riskLevel;
       lockType := lockType; estimatedDurationMs := estimatedDurationMs;
       dataLoss := dataLoss; suggestion := suggestion |}.

Definition DROP_TABLE : Rule := {|
  pattern := Analyzer.pattern Analyzer.DROP_TABLE;
  assess := fun m _ =>
    mk "DROP TABLE" critical "ACCESS EXCLUSIVE" (ofZ 50) true
       "Ensure full backup. Consider renaming to _deprecated instead."
|}.

Definition DROP_COLUMN : Rule := {|
  pattern := Analyzer.pattern Analyzer.DROP_COLUMN;
  assess := fun m _ =>
    mk "DROP COLUMN" high "ACCESS EXCLUSIVE" (mul (rowCount m) R) true
       "Column data will be permanently lost. Add deprecation period first."
|}.

Definition ALTER_COLUMN_TYPE : Rule := {|
  pattern := Analyzer.pattern Analyzer.ALTER_COLUMN_TYPE;
  assess := fun m _ =>
    mk "ALTER COLUMN TYPE" high "ACCESS EXCLUSIVE"
       (mul (mul (rowCount m) R) (ofZ 2)) false
       "Full table rewrite required. Schedule during maintenance window."
|}.

Definition ADD_COLUMN : Rule := {|
  pattern := Analyzer.pattern Analyzer.ADD_COLUMN;
  assess := fun m sql =>
    if test Analyzer.NOT_NULL sql && negb (test Analyzer.DEFAULT sql)
    then mk "ADD COLUMN (NOT NULL, no default)" high "ACCESS EXCLUSIVE"
            (mul (mul (rowCount m) R) (ofZ 2)) false
            "Add DEFAULT value or use nullable + backfill + set NOT NULL strategy."
    else mk "ADD COLUMN" low "ACCESS EXCLUSIVE (brief)" (ofZ 10) false
            "Safe in PostgreSQL 11+. Fast metadata-only operation."
|}.

Definition CREATE_INDEX_CONCURRENTLY : Rule := {|
  pattern := Analyzer.pattern Analyzer.CREATE_INDEX_CONCURRENTLY;
  assess := fun m _ =>
    mk "CREATE INDEX CONCURRENTLY" low "SHARE UPDATE EXCLUSIVE"
       (mul (mul (rowCount m) R) (ofZ 3)) false
       "Good practice. Monitor for long-running transactions that may block."
|}.

Definition CREATE_INDEX : Rule := {|
  pattern := Analyzer.pattern Analyzer.CREATE_INDEX;
  assess := fun m _ =>
    mk "CREATE INDEX" high "SHARE" (mul (mul (rowCount m) R) (ofZ 3)) false
       "Use CREATE INDEX CONCURRENTLY to avoid blocking writes."
|}.

Definition ADD_CONSTRAINT : Rule := {|
  pattern := Analyzer.pattern Analyzer.ADD_CONSTRAINT;
  assess := fun m _ =>
    mk "ADD CONSTRAINT" medium "ACCESS EXCLUSIVE" (mul (rowCount m) R) false
       "For FK constraints, use NOT VALID then VALIDATE CONSTRAINT separately."
|}.

Definition RENAME : Rule := {|
  pattern := Analyzer.pattern Analyzer.RENAME;
  assess := fun _ _ =>
    mk "RENAME" medium "ACCESS EXCLUSIVE (brief)" (ofZ 10) false
       "Update all application queries referencing the old name."
|}.

Definition RULES : list Rule :=
  [ DROP_TABLE; DROP_COLUMN; ALTER_COLUMN_TYPE; ADD_COLUMN;
    CREATE_INDEX_CONCURRENTLY; CREATE_INDEX; ADD_CONSTRAINT; RENAME ].

(** [new Map(tableMeta.map((t) => [t.name.toLowerCase(), t]))] *)
Definition buildMetaMap (tableMeta : list TableMeta) : gmap string TableMeta :=
  fold_left (fun m t => <[toLowerCase (name t) := t]> m) tableMeta ∅.

(** [metaMap.get(table.toLowerCase()) || { ...DEFAULT_META, name: table }] *)
Definition metaFor (metaMap : gmap string TableMeta) (table : string) : TableMeta :=
  match metaMap !! toLowerCase table with
  | Some meta => meta
  | None =>
      {| name := table; rowCount := rowCount DEFAULT_META;
         sizeBytes := sizeBytes DEFAULT_META |}
  end.

Fixpoint applyRules (rules : list Rule) (metaMap : gmap string TableMeta)
    (stmt : string) (operations : list RiskItem) : list RiskItem :=
  match rules with
  | [] => operations
  | rule :: rest =>
      match exec (pattern rule) stmt with
      | Some m =>
          let table := tableOf m in
          let meta := metaFor metaMap table in
          operations ++ [assess rule meta stmt table]
      | None => applyRules rest metaMap stmt operations
      end
  end.

Definition analyze (sql : string) (tableMeta : list TableMeta) : AnalysisReport :=
  let metaMap := buildMetaMap tableMeta in
  let stmts := statements sql in
  let operations :=
    fold_left (fun ops stmt => applyRules RULES metaMap stmt ops) stmts [] in
  let overallRisk :=
    fold_left (fun max op =>
                 if (SCORES (riskLevel op) >? SCORES max)%Z
                 then riskLevel op else max)
              operations low in
  let totalEstimatedDurationMs :=
    Math_round
      (fold_left (fun s o => add s (estimatedDurationMs o)) operations zero) in
  let score :=
    if (length operations =? 0)%nat then Int 0
    else Math_round
           (div (fold_left (fun s o => add s (ofZ (SCORES (riskLevel o))))
                           operations zero)
                (ofZ (Z.of_nat (length operations)))) in
  {| operations := operations; overallRisk := overallRisk;
     totalEstimatedDurationMs := totalEstimatedDurationMs; score := score |}.

End Analyzer64.

(** ** The multi-factor scorer *)

Module Scorer.
Import Text Number.
Local Open Scope Q_scope.

Record Details : Set := {
  isNullable : option bool;
  hasDefault : option bool;
  columnTypeChange : option bool;
  isConcurrent : option bool
}.

Record ParsedMigration : Set := {
  sql : string;
  operation : string;
  table : string;
  details : option Details
}.

Record TableMetadata : Set := {
  name : string;
  rowCount : Q;
  sizeBytes : Q;
  foreignKeyCount : option Q;
  referencedByCount : option Q
}.

Module RiskFactor.
Record t : Set := {
  name : string;
  score : Z;
  explanation : string
}.
End RiskFactor.
Abbreviation RiskFactor := RiskFactor.t.

Inductive RiskLevel : Set := low | medium | high | critical.

Record RiskReport : Set := {
  overallScore : Z;
  riskLevel : RiskLevel;
  factors : list RiskFactor
}.

Record Weights : Set := {
  tableSize : Q;
  lockRisk : Q;
  cascadeRisk : Q;
  dataLoss : Q
}.

Definition WEIGHTS : Weights := {|
  tableSize := 0.25;
  lockRisk := 0.30;
  cascadeRisk := 0.20;
  dataLoss := 0.25
|}.

(** [migration.details || {}] *)
Definition detailsOf (migration : ParsedMigration) : Details :=
  match details migration with
  | Some d => d
  | None =>
      {| isNullable := None; hasDefault := None;
         columnTypeChange := None; isConcurrent := None |}
  end.

Section Formatting.

(** How a number is printed inside the explanations:
    [rowCount.toLocaleString()], which depends on the locale of the
    host, and the plain conversion of a template literal. The scores do
    not depend on either. *)
Variable toLocaleString : Q -> string.
Variable toString : Q -> string.

Definition scoreTableSize (rowCount : Q) : RiskFactor :=
  let '(score, explanation) :=
    if Qle_bool rowCount 0 then
      (0%Z, "Empty table — no size impact.")
    else if ltb rowCount 10000 then
      (5%Z, "Small table (" +:+ toLocaleString rowCount +:+ " rows) — minimal size impact.")
    else if ltb rowCount 100000 then
      (15%Z, "Moderate table (" +:+ toLocaleString rowCount +:+ " rows) — low size impact.")
    else if ltb rowCount 1000000 then
      (35%Z, "Large table (" +:+ toLocaleString rowCount +:+ " rows) — notable size impact.")
    else if ltb rowCount 10000000 then
      (65%Z, "Very large table (" +:+ toLocaleString rowCount +:+ " rows) — significant size impact.")
    else if ltb rowCount 100000000 then
      (85%Z, "Massive table (" +:+ toLocaleString rowCount +:+ " rows) — high size impact.")
    else
      (100%Z, "Enormous table (" +:+ toLocaleString rowCount +:+ " rows) — extreme size impact.")
  in
  {| RiskFactor.name := "Table Size Impact"; RiskFactor.score := score;
     RiskFactor.explanation := explanation |}.

Definition scoreLockRisk (migration : ParsedMigration) : RiskFactor :=
  let op := toUpperCase (operation migration) in
  let details := detailsOf migration in
  let '(score, explanation) :=
    if String.eqb op "ALTER COLUMN TYPE" || truthy (columnTypeChange details) then
      (90%Z, "Column type change requires full table rewrite with ACCESS EXCLUSIVE lock.")
    else if String.eqb op "CREATE INDEX" || String.eqb op "ADD INDEX" then
      if truthy (isConcurrent details) then
        (15%Z, "Concurrent index creation uses SHARE UPDATE EXCLUSIVE lock — minimal blocking.")
      else
        (80%Z, "Non-concurrent index creation holds SHARE lock, blocking all writes.")
    else if String.eqb op "TRUNCATE" then
      (75%Z, "TRUNCATE requires ACCESS EXCLUSIVE lock.")
    else if String.eqb op "DROP TABLE" then
      (70%Z, "DROP TABLE requires ACCESS EXCLUSIVE lock, blocking all concurrent operations.")
    else if String.eqb op "DROP COLUMN" then
      (70%Z, "DROP COLUMN requires ACCESS EXCLUSIVE lock on the table.")
    else if String.eqb op "ADD COLUMN" then
      if negb (truthy (isNullable details)) && negb (truthy (hasDefault details)) then
        (60%Z, "ADD COLUMN NOT NULL without DEFAULT requires table rewrite and ACCESS EXCLUSIVE lock.")
      else
        (10%Z, "ADD COLUMN (nullable or with default) is a metadata-only change — minimal lock.")
    else
      (20%Z, "Operation " +:+ String "034"%char op +:+ String "034"%char " may require table-level lock.")
  in
  {| RiskFactor.name := "Lock Risk"; RiskFactor.score := score;
     RiskFactor.explanation := explanation |}.

(** [(metadata.foreignKeyCount || 0) + (metadata.referencedByCount || 0)] *)
Definition fkCountOf (metadata : TableMetadata) : Q :=
  orZero (foreignKeyCount metadata) + orZero (referencedByCount metadata).

Definition scoreCascadeRisk (metadata : TableMetadata) : RiskFactor :=
  let fkCount := fkCountOf metadata in
  let '(score, explanation) :=
    if Qeq_bool fkCount 0 then
      (0%Z, "No foreign key relationships — no cascade risk.")
    else if Qle_bool fkCount 2 then
      (20%Z, toString fkCount +:+ " foreign key relationship(s) — low cascade risk.")
    else if Qle_bool fkCount 4 then
      (50%Z, toString fkCount +:+ " foreign key relationships — moderate cascade risk.")
    else if Qle_bool fkCount 9 then
      (80%Z, toString fkCount +:+ " foreign key relationships — high cascade risk. Changes may trigger cascading locks or constraint checks.")
    else
      (100%Z, toString fkCount +:+ " foreign key relationships — extreme cascade risk.")
  in
  {| RiskFactor.name := "Cascade Risk"; RiskFactor.score := score;
     RiskFactor.explanation := explanation |}.

Definition scoreDataLoss (migration : ParsedMigration) : RiskFactor :=
  let op := toUpperCase (operation migration) in
  let '(score, explanation) :=
    if String.eqb op "DROP TABLE" then
      (100%Z, "DROP TABLE permanently destroys the entire table and all its data.")
    else if String.eqb op "TRUNCATE" then
      (90%Z, "TRUNCATE removes all rows from the table.")
    else if String.eqb op "DROP COLUMN" then
      (80%Z, "DROP COLUMN permanently removes column data from all rows.")
    else
      (0%Z, "No data loss risk detected for this operation.")
  in
  {| RiskFactor.name := "Data Loss Risk"; RiskFactor.score := score;
     RiskFactor.explanation := explanation |}.

Definition determineRiskLevel (score : Z) : RiskLevel :=
  if (score <=? 25)%Z then low
  else if (score <=? 50)%Z then medium
  else if (score <=? 75)%Z then high
  else critical.

Definition calculateRiskScore (migration : ParsedMigration)
    (metadata : TableMetadata) : RiskReport :=
  let tableSizeFactor := scoreTableSize (rowCount metadata) in
  let lockRiskFactor := scoreLockRisk migration in
  let cascadeRiskFactor := scoreCascadeRisk metadata in
  let dataLossFactor := scoreDataLoss migration in
  let factors :=
    [ tableSizeFactor; lockRiskFactor; cascadeRiskFactor; dataLossFactor ] in
  let overallScore :=
    Math_round
      (tableSize WEIGHTS * inject_Z (RiskFactor.score tableSizeFactor) +
       lockRisk WEIGHTS * inject_Z (RiskFactor.score lockRiskFactor) +
       cascadeRisk WEIGHTS * inject_Z (RiskFactor.score cascadeRiskFactor) +
       dataLoss WEIGHTS * inject_Z (RiskFactor.score dataLossFactor)) in
  let riskLevel := determineRiskLevel overallScore in
  {| overallScore := overallScore; riskLevel := riskLevel; factors := factors |}.

End Formatting.

(** A way to print numbers, for running the scorer on examples: the integral
    part in decimal, without grouping. *)
Definition decimal (x : Q) : string :=
  NilZero.string_of_int (Z.to_int (Qfloor x)).

End Scorer.

(** ** The HTTP endpoint and the command line ([index.ts]) *)

Module Server.
Import Text Analyzer.

(** The [sql] field of a JSON request body, as far as the handler looks at
    it. *)
Inductive JsValue : Set :=
| Undefined
| Null
| Boolean (b : bool)
| Num (x : Binary64.number)
| Str (s : string)
| Obj.   (* an array or an object *)

(** [!v] *)
Definition falsy (v : JsValue) : bool :=
  match v with
  | Undefined | Null => true
  | Boolean b => negb b
  | Num (S754_zero _) | Num S754_nan => true
  | Num _ => false
  | Str s => isEmpty s
  | Obj => false
  end.

(** [typeof v !== "string"] *)
Definition notString (v : JsValue) : bool :=
  match v with
  | Str _ => false
  | _ => true
  end.

Definition textOf (v : JsValue) : string :=
  match v with
  | Str s => s
  | _ => EmptyString
  end.

(** An element of a [tableMeta] array, as [t.name.toLowerCase()] sees it:
    a record with a string for its name, its counts being the numbers the
    rules multiply (a count that is missing is NaN there); or anything
    else, on which that call throws: [null], a number, a string, an array,
    an object without a [name] or with a [name] that is not a string. *)
Inductive Entry : Set :=
| Named (meta : Analyzer64.TableMeta)
| Unnamed.

(** The [tableMeta] field, as [tableMeta || []] and [tableMeta.map] see
    it. *)
Inductive MetaValue : Set :=
| Absent                        (* undefined, null, false, 0 or the empty string *)
| NotAnArray                    (* true, another number or string, an object *)
| Entries (entries : list Entry).

(** [req.body], the JSON object of the request. *)
Record Body : Set := {
  sql : JsValue;
  tableMeta : MetaValue
}.

Inductive Payload : Set :=
| Error (error : string)
| Report (report : Analyzer64.AnalysisReport).

Record Response : Set := {
  status : Z;
  payload : Payload
}.

(** What a call of the handler ends in: an answer, or a [TypeError] thrown
    out of it, which Express answers with status 500. *)
Inductive Outcome : Set :=
| Answers (response : Response)
| Throws.

(** The records of an array whose elements all have a name. *)
Fixpoint records (entries : list Entry) : option (list Analyzer64.TableMeta) :=
  match entries with
  | [] => Some []
  | Named meta :: rest => option_map (cons meta) (records rest)
  | Unnamed :: _ => None
  end.

(** The handler of [POST /api/v1/analyze]. *)
Definition postAnalyze (body : Body) : Outcome :=
  if falsy (sql body) || notString (sql body) then
    Answers {| status := 400;
               payload := Error "'sql' field is required and must be a string" |}
  else
    match tableMeta body with
    | Absent =>
        Answers {| status := 200;
                   payload := Report (Analyzer64.analyze (textOf (sql body)) []) |}
    | NotAnArray => Throws
    | Entries entries =>
        match records entries with
        | Some metas =>
            Answers {| status := 200;
                       payload :=
                         Report (Analyzer64.analyze (textOf (sql body)) metas) |}
        | None => Throws
        end
    end.

(** The exit code of [migrascope analyze]:
    [report.overallRisk === "critical" ? 2 : report.overallRisk === "high" ? 1 : 0] *)
Definition exitCode (report : AnalysisReport) : Z :=
  match overallRisk report with
  | critical => 2
  | high => 1
  | _ => 0
  end.

End Server.

(** ** What the specification says, in its own words *)

Module Spec.
Import Analyzer.
Local Open Scope Q_scope.

(** The ordinal scale low < medium < high < critical. *)
Definition ordinal (l : RiskLevel) : nat :=
  match l with
  | low => 0
  | medium => 1
  | high => 2
  | critical => 3
  end.

(** The largest ordinal among the items, 0 (that of [low]) when there is
    none. *)
Definition maxOrdinal (items : list RiskItem) : nat :=
  list_max (map (fun item => ordinal (riskLevel item)) items).

(** The numeric weight of a risk level. *)
Definition weight (l : RiskLevel) : Q :=
  match l with
  | low => 10
  | medium => 40
  | high => 70
  | critical => 100
  end.

Fixpoint sumDurations (items : list RiskItem) : Q :=
  match items with
  | [] => 0
  | item :: rest => estimatedDurationMs item + sumDurations rest
  end.

Fixpoint sumWeights (items : list RiskItem) : Q :=
  match items with
  | [] => 0
  | item :: rest => weight (riskLevel item) + sumWeights rest
  end.

Definition meanWeight (items : list RiskItem) : Q :=
  sumWeights items / inject_Z (Z.of_nat (length items)).

(** [z] is [x] rounded to the nearest integer; of the two integers nearest
    to a half-way value it is the larger. *)
Definition rounded (x : Q) (z : Z) : Prop :=
  x - (1 # 2) < inject_Z z /\ inject_Z z <= x + (1 # 2).

(** The lock of an operation that blocks the whole table. *)
Definition fullTableExclusive (lockType : string) : Prop :=
  lockType = "ACCESS EXCLUSIVE".

(** The weighted combination of the four factor scores of the scorer. *)
Definition weighted (size lock cascade loss : Z) : Q :=
  (25 # 100) * inject_Z size + (30 # 100) * inject_Z lock +
  (20 # 100) * inject_Z cascade + (25 # 100) * inject_Z loss.


(** Two metadata records that agree on everything but [sizeBytes]. *)
Definition sameButSize (a b : TableMeta) : Prop :=
  name a = name b /\ rowCount a = rowCount b.

End Spec.

(** ** The rule table seen from outside *)

Module Rules.
Import Analyzer.

(** The rule that the loop over [RULES] stops at for a statement: the first
    one whose pattern matches, with its match. *)
Fixpoint firstMatch (rules : list Rule) (stmt : string)
  : option (Rule * RegExp.Captures) :=
  match rules with
  | [] => None
  | rule :: rest =>
      match RegExp.exec (pattern rule) stmt with
      | Some m => Some (rule, m)
      | None => firstMatch rest stmt
      end
  end.

(** What one statement adds to the report: the item of its first matching
    rule, or nothing. *)
Definition itemsOf (metaMap : gmap string TableMeta) (stmt : string)
  : list RiskItem :=
  match firstMatch RULES stmt with
  | Some (rule, m) =>
      [assess rule (metaFor metaMap (tableOf m)) stmt (tableOf m)]
  | None => []
  end.

(** No rule reads anything but the row count of the metadata. *)
Definition readsRowCountOnly (rule : Rule) : Prop :=
  forall (m m' : TableMeta) (stmt table : string),
    rowCount m = rowCount m' ->
    assess rule m stmt table = assess rule m' stmt table.

End Rules.

(** ** Identifiers inside a statement *)

Module Shape.
Import Text.

Fixpoint allChars (p : ascii -> bool) (s : string) : bool :=
  match s with
  | EmptyString => true
  | String c s' => p c && allChars p s'
  end.

(** An unquoted SQL identifier as the patterns see it: one or more word
    characters. *)
Definition isIdentifier (w : string) : bool :=
  negb (isEmpty w) && allChars isWord w.

(** A run of word characters ends where [s] begins: [s] is empty or its
    first character is not a word character. *)
Definition endsWord (s : string) : bool :=
  match s with
  | EmptyString => true
  | String c _ => negb (isWord c)
  end.

(** [s] begins with [t], up to letter case. *)
Definition startsWith (t s : string) : bool :=
  match stripPrefix t s with
  | Some _ => true
  | None => false
  end.

(** A statement that [trim] leaves alone and that is not empty. *)
Definition trimmed (s : string) : Prop :=
  trimEnd s = s /\ isEmpty s = false.

End Shape.

(** ** More shapes of text and of statements *)

Module Forms.
Import Text.

(** The text [trimStart] returns is empty or begins with a character that
    is not white space, and so does what [trimEnd] makes of it. *)
Definition beginsWithText (s : string) : bool :=
  match s with
  | EmptyString => true
  | String c _ => negb (isSpace c)
  end.

(** The last record of a metadata collection whose name is [key] once
    put in lower case. *)
Definition lastNamed (key : string) (tableMeta : list Analyzer.TableMeta)
  : option Analyzer.TableMeta :=
  List.find (fun t => String.eqb (toLowerCase (Analyzer.name t)) key)
            (rev tableMeta).

(** Every capture group of the pattern is [(\w+)]. *)
Fixpoint capturesWords (r : RegExp.t) : bool :=
  match r with
  | RegExp.Lit _ | RegExp.Plus _ => true
  | RegExp.Seq r1 r2 => capturesWords r1 && capturesWords r2
  | RegExp.Opt r1 | RegExp.NotAhead r1 => capturesWords r1
  | RegExp.Group (RegExp.Plus RegExp.Word) => true
  | RegExp.Group _ => false
  end.

(** The scale low < medium < high < critical of the scorer. *)
Definition levelRank (l : Scorer.RiskLevel) : nat :=
  match l with
  | Scorer.low => 0
  | Scorer.medium => 1
  | Scorer.high => 2
  | Scorer.critical => 3
  end.

(** Two items that differ at most in the letter case of their table. *)
Definition sameButTableCase (a b : Analyzer.RiskItem) : Prop :=
  Analyzer.operation a = Analyzer.operation b
  /\ toLowerCase (Analyzer.table a) = toLowerCase (Analyzer.table b)
  /\ Analyzer.riskLevel a = Analyzer.riskLevel b
  /\ Analyzer.lockType a = Analyzer.lockType b
  /\ Analyzer.estimatedDurationMs a = Analyzer.estimatedDurationMs b
  /\ Analyzer.dataLoss a = Analyzer.dataLoss b
  /\ Analyzer.suggestion a = Analyzer.suggestion b.

(** A result on the upper-case text is the result on the text, in upper
    case. *)
Definition upperResult (res res' : option RegExp.Captures) : Prop :=
  res' = option_map (option_map toUpperCase) res.

Definition upperCont (k k' : RegExp.Cont) : Prop :=
  forall (s : string) (cap : RegExp.Captures),
    upperResult (k s cap) (k' (toUpperCase s) (option_map toUpperCase cap)).

(** A name between double quotes. *)
Definition quoted (w : string) : string :=
  String "034"%char (w +:+ String "034"%char EmptyString).

Definition dropTable (name : string) : string := "DROP TABLE " +:+ name.

Definition dropTableIfExists (name : string) : string :=
  "DROP TABLE IF EXISTS " +:+ name.

Definition dropColumn (tbl col : string) : string :=
  "ALTER TABLE " +:+ tbl +:+ " DROP COLUMN " +:+ col.

End Forms.

(** ** Shapes for the analyzer in binary64 *)

Module Forms64.
Import Text.

(** The last record of a metadata collection whose name is [key] once
    put in lower case. *)
Definition lastNamed (key : string) (tableMeta : list Analyzer64.TableMeta)
  : option Analyzer64.TableMeta :=
  List.find (fun t => String.eqb (toLowerCase (Analyzer64.name t)) key)
            (rev tableMeta).

(** Two items, one of each analyzer, that agree on everything but the
    estimated duration. *)
Definition sameButDuration (a : Analyzer.RiskItem) (b : Analyzer64.RiskItem) : Prop :=
  Analyzer.operation a = Analyzer64.operation b
  /\ Analyzer.table a = Analyzer64.table b
  /\ Analyzer.riskLevel a = Analyzer64.riskLevel b
  /\ Analyzer.lockType a = Analyzer64.lockType b
  /\ Analyzer.dataLoss a = Analyzer64.dataLoss b
  /\ Analyzer.suggestion a = Analyzer64.suggestion b.
End Forms64.

(** ** What a pattern matches *)

Module Matching.
Import Text RegExp Shape.

(** [matches r s cap s' cap']: the pattern [r] matches a prefix of [s]
    that leaves [s'], and turns the capture [cap] into [cap']; said without
    a matcher, by the parts of the text. *)
Fixpoint matches (r : RegExp.t) (s : string) (cap : Captures) (s' : string)
    (cap' : Captures) {struct r} : Prop :=
  match r with
  | Lit text =>
      (exists mid, s = mid +:+ s' /\ toUpperCase mid = toUpperCase text)
      /\ cap' = cap
  | Plus cl =>
      (exists w, s = w +:+ s' /\ isEmpty w = false
                 /\ allChars (inClass cl) w = true)
      /\ cap' = cap
  | Seq r1 r2 =>
      exists s1 cap1, matches r1 s cap s1 cap1 /\ matches r2 s1 cap1 s' cap'
  | Opt r1 => matches r1 s cap s' cap' \/ (s' = s /\ cap' = cap)
  | Group r1 =>
      exists w cap1, matches r1 s cap s' cap1 /\ s = w +:+ s' /\ cap' = Some w
  | NotAhead r1 =>
      (forall s1 cap1, ~ matches r1 s cap s1 cap1) /\ s' = s /\ cap' = cap
  end.

(** The pattern has a capture group on every way through it. *)
Fixpoint setsCapture (r : RegExp.t) : bool :=
  match r with
  | Lit _ | Plus _ | Opt _ | NotAhead _ => false
  | Seq r1 r2 => setsCapture r1 || setsCapture r2
  | Group _ => true
  end.

End Matching.

(** ** The words a statement is scanned for *)

Module Wording.
Import Text Shape.

(** A run of white space: one or more characters, all of them white
    space. *)
Definition blank (w : string) : bool := negb (isEmpty w) && allChars isSpace w.

(** The text is ASCII: the text for which the white space, the word
    characters and the letter case of [Text] are those of the engine. *)
Definition isAscii (c : ascii) : bool := (code c <? 128)%N.

Definition asciiOnly (s : string) : bool := allChars isAscii s.

(** The text contains NOT and NULL, in any letter case, with nothing but
    white space between them. *)
Definition mentionsNotNull (text : string) : Prop :=
  exists pre n w l post : string,
    text = pre +:+ n +:+ w +:+ l +:+ post
    /\ toUpperCase n = "NOT" /\ blank w = true /\ toUpperCase l = "NULL".

(** The text contains DEFAULT, in any letter case. *)
Definition mentionsDefault (text : string) : Prop :=
  exists pre d post : string,
    text = pre +:+ d +:+ post /\ toUpperCase d = "DEFAULT".

End Wording.

(** ** Statements that create an index *)

Module IndexForms.
Import Text Shape Forms Wording.

(** [s] begins with the word [first], white space and the word [second],
    in any letter case. *)
Definition beginsWithWords (first second s : string) : bool :=
  match stripPrefix first s with
  | Some rest => negb (beginsWithText rest) && startsWith second (trimStart rest)
  | None => false
  end.

(** [s] begins the way every pattern of the rule table begins: with DROP
    TABLE, ALTER TABLE, CREATE INDEX or CREATE UNIQUE. *)
Definition opensRule (s : string) : bool :=
  beginsWithWords "DROP" "TABLE" s || beginsWithWords "ALTER" "TABLE" s
  || beginsWithWords "CREATE" "INDEX" s || beginsWithWords "CREATE" "UNIQUE" s.

(** [p] holds of [s] from some position on. *)
Fixpoint occurs (p : string -> bool) (s : string) : bool :=
  p s || match s with
         | EmptyString => false
         | String _ s' => occurs p s'
         end.

(** The pattern cannot match where the text goes on with white space. *)
Fixpoint rejectsSpace (r : RegExp.t) : bool :=
  match r with
  | RegExp.Lit text => negb (isEmpty text) && beginsWithText text
  | RegExp.Plus RegExp.Word => true
  | RegExp.Plus RegExp.Space => false
  | RegExp.Seq (RegExp.NotAhead _) r2 => rejectsSpace r2
  | RegExp.Seq (RegExp.Opt r1) r2 => rejectsSpace r1 && rejectsSpace r2
  | RegExp.Seq r1 _ => rejectsSpace r1
  | RegExp.Opt _ | RegExp.NotAhead _ => false
  | RegExp.Group r1 => rejectsSpace r1
  end.

(** The words of a statement that creates an index: the keywords as they
    are written, the white space between the words, the name of the index,
    the double quote that may stand before the table, the table, and what
    follows the table. *)
Record IndexWords : Set := {
  create : string;
  gap1 : string;
  index : string;
  gap2 : string;
  concurrently : string;
  gap3 : string;
  indexName : string;
  gap4 : string;
  on : string;
  gap5 : string;
  quoteMark : string;
  tableName : string;
  rest : string
}.

(** From the name of the index on: the part the two statements share. *)
Definition body (w : IndexWords) : string :=
  indexName w +:+ gap4 w +:+ on w +:+ gap5 w +:+ quoteMark w +:+ tableName w
  +:+ rest w.

(** CREATE INDEX CONCURRENTLY index ON table ... *)
Definition concurrentText (w : IndexWords) : string :=
  create w +:+ gap1 w +:+ index w +:+ gap2 w +:+ concurrently w +:+ gap3 w
  +:+ body w.

(** The same statement without CONCURRENTLY: CREATE INDEX index ON table ... *)
Definition plainText (w : IndexWords) : string :=
  create w +:+ gap1 w +:+ index w +:+ gap2 w +:+ body w.

(** Nothing, or one double quote. *)
Definition quoteOrNothing (q : string) : bool :=
  isEmpty q || String.eqb q (String "034"%char EmptyString).

(** The keywords are the keywords, in any letter case; the gaps are white
    space; index and table are identifiers, the table with or without a
    double quote before it; the name of the index does not begin with
    CONCURRENTLY, and the table ends where the rest begins; the rest is
    ASCII, and from the name of the index on no pattern of the rule table
    can begin. *)
Definition wellFormed (w : IndexWords) : bool :=
  quoteOrNothing (quoteMark w)
  && String.eqb (toUpperCase (create w)) "CREATE"
  && String.eqb (toUpperCase (index w)) "INDEX"
  && String.eqb (toUpperCase (concurrently w)) "CONCURRENTLY"
  && String.eqb (toUpperCase (on w)) "ON"
  && blank (gap1 w) && blank (gap2 w) && blank (gap3 w) && blank (gap4 w)
  && blank (gap5 w)
  && isIdentifier (indexName w) && isIdentifier (tableName w)
  && negb (startsWith "CONCURRENTLY" (indexName w))
  && endsWord (rest w)
  && asciiOnly (rest w)
  && negb (occurs opensRule (body w)).

(** CREATE UNIQUE INDEX CONCURRENTLY ..., in any letter case and with any
    white space between the words, followed by ASCII text in which no
    pattern of the rule table can begin. *)
Definition createsUniqueIndexConcurrently (stmt : string) : Prop :=
  exists create gap1 unique gap2 index gap3 concurrently rest : string,
    stmt = create +:+ gap1 +:+ unique +:+ gap2 +:+ index +:+ gap3
           +:+ concurrently +:+ rest
    /\ toUpperCase create = "CREATE" /\ blank gap1 = true
    /\ toUpperCase unique = "UNIQUE" /\ blank gap2 = true
    /\ toUpperCase index = "INDEX" /\ blank gap3 = true
    /\ toUpperCase concurrently = "CONCURRENTLY"
    /\ asciiOnly rest = true
    /\ occurs opensRule rest = false.

End IndexForms.

(** * Properties *)

(** ** The tests of the repository, run on the model *)

Section AnalyzerTests.
Import Analyzer.
Local Open Scope Q_scope.

Example flags_drop_table_as_critical :
  let report := analyze "DROP TABLE users;" [] in
  map (fun op => (operation op, riskLevel op, dataLoss op)) (operations report)
  = [("DROP TABLE", critical, true)]
  /\ overallRisk report = critical
  /\ score report = 100%Z.
Proof. vm_compute. repeat split. Qed.

Example flags_plain_add_column_as_low :
  let report := analyze "ALTER TABLE users ADD COLUMN bio text;" [] in
  map (fun op => (riskLevel op, dataLoss op)) (operations report) = [(low, false)]
  /\ overallRisk report = low.
Proof. vm_compute. repeat split. Qed.

Example flags_add_column_not_null_as_high :
  let report := analyze "ALTER TABLE users ADD COLUMN status int NOT NULL;" [] in
  map (fun op => (riskLevel op, Text.includes "DEFAULT" (suggestion op)))
      (operations report)
  = [(high, true)].
Proof. vm_compute. reflexivity. Qed.

Example suggests_concurrently_for_create_index :
  let report := analyze "CREATE INDEX idx_email ON users (email);" [] in
  map (fun op => (riskLevel op, Text.includes "CONCURRENTLY" (suggestion op)))
      (operations report)
  = [(high, true)].
Proof. vm_compute. reflexivity. Qed.

Example rates_create_index_concurrently_as_low :
  let report :=
    analyze "CREATE INDEX CONCURRENTLY idx_email ON users (email);" [] in
  map (fun op => (riskLevel op, lockType op)) (operations report)
  = [(low, "SHARE UPDATE EXCLUSIVE")].
Proof. vm_compute. reflexivity. Qed.

Example analyzes_multi_statement_migrations :
  let report :=
    analyze "ALTER TABLE orders ADD COLUMN status varchar(20);
CREATE INDEX CONCURRENTLY idx_status ON orders (status);
ALTER TABLE orders DROP COLUMN legacy_flag" [] in
  map dataLoss (operations report) = [false; false; true]
  /\ overallRisk report = high.
Proof. vm_compute. repeat split. Qed.

Example uses_provided_table_metadata :
  let meta := [ {| name := "events"; rowCount := 10000000; sizeBytes := 5e9 |} ] in
  let report := analyze "ALTER TABLE events ALTER COLUMN payload TYPE jsonb;" meta in
  exists op, operations report = [op]
             /\ 100000 < estimatedDurationMs op
             /\ riskLevel op = high.
Proof. eexists. split; [vm_compute; reflexivity |]. split; reflexivity. Qed.

Example returns_empty_report_for_other_sql :
  analyze "SELECT * FROM users;" []
  = {| operations := []; overallRisk := low;
       totalEstimatedDurationMs := 0; score := 0 |}.
Proof. vm_compute. reflexivity. Qed.

End AnalyzerTests.

(** ** Rounding *)

Section Rounding.
Import Number Spec.
Local Open Scope Q_scope.

Lemma Zle_of_Qlt_succ (a b : Z) :
  inject_Z a < inject_Z b + 1 -> (a <= b)%Z.
Proof.
  intros H. change 1 with (inject_Z 1) in H.
  rewrite <- inject_Z_plus, <- Zlt_Qlt in H. lia.
Qed.

Lemma Math_round_rounded (x : Q) : rounded x (Math_round x).
Proof.
  unfold rounded, Math_round.
  pose proof (Qfloor_le (x + (1 # 2))) as Hle.
  pose proof (Qlt_floor (x + (1 # 2))) as Hlt.
  rewrite inject_Z_plus in Hlt. change (inject_Z 1) with 1 in Hlt.
  split; [lra | exact Hle].
Qed.

Lemma rounded_unique (x : Q) (z1 z2 : Z) :
  rounded x z1 -> rounded x z2 -> z1 = z2.
Proof.
  unfold rounded. intros [H1 H2] [H3 H4].
  assert (z1 <= z2)%Z by (apply Zle_of_Qlt_succ; lra).
  assert (z2 <= z1)%Z by (apply Zle_of_Qlt_succ; lra).
  lia.
Qed.

Lemma Math_round_comp (x y : Q) : x == y -> Math_round x = Math_round y.
Proof. intros H. unfold Math_round. now rewrite H. Qed.

Lemma Math_round_bounds (x : Q) (lo hi : Z) :
  inject_Z lo <= x -> x <= inject_Z hi -> (lo <= Math_round x <= hi)%Z.
Proof.
  intros Hlo Hhi. destruct (Math_round_rounded x) as [H1 H2].
  split; apply Zle_of_Qlt_succ; lra.
Qed.

End Rounding.

(** ** The aggregator *)

Section Aggregator.
Import Number Analyzer Spec.
Local Open Scope Q_scope.

Lemma SCORES_ordinal (a b : RiskLevel) :
  (SCORES a >? SCORES b)%Z = (ordinal b <? ordinal a)%nat.
Proof. destruct a, b; reflexivity. Qed.

Lemma weight_SCORES (l : RiskLevel) : weight l = inject_Z (SCORES l).
Proof. destruct l; reflexivity. Qed.

(** The [reduce] that computes the overall risk keeps the largest ordinal
    seen so far. *)
Lemma overall_fold (items : list RiskItem) (acc : RiskLevel) :
  ordinal
    (fold_left (fun max op =>
                  if (SCORES (riskLevel op) >? SCORES max)%Z
                  then riskLevel op else max) items acc)
  = Nat.max (ordinal acc) (maxOrdinal items).
Proof.
  revert acc. induction items as [|item items IH]; intros acc.
  - simpl. unfold maxOrdinal. simpl. lia.
  - simpl. rewrite IH, SCORES_ordinal. unfold maxOrdinal. simpl.
    destruct (Nat.ltb_spec (ordinal acc) (ordinal (riskLevel item))); lia.
Qed.

Lemma duration_fold (items : list RiskItem) (acc : Q) :
  fold_left (fun s o => s + estimatedDurationMs o) items acc
  == acc + sumDurations items.
Proof.
  revert acc. induction items as [|item items IH]; intros acc; simpl.
  - lra.
  - rewrite IH. lra.
Qed.

Lemma score_fold (items : list RiskItem) (acc : Z) :
  inject_Z (fold_left (fun s o => s + SCORES (riskLevel o))%Z items acc)
  == inject_Z acc + sumWeights items.
Proof.
  revert acc. induction items as [|item items IH]; intros acc; simpl.
  - lra.
  - rewrite IH, inject_Z_plus, weight_SCORES. lra.
Qed.

Lemma sumWeights_range (items : list RiskItem) :
  10 * inject_Z (Z.of_nat (length items)) <= sumWeights items
  /\ sumWeights items <= 100 * inject_Z (Z.of_nat (length items)).
Proof.
  induction items as [|item items [IHlo IHhi]].
  - cbn [length sumWeights]. change (inject_Z (Z.of_nat 0)) with 0. lra.
  - cbn [length sumWeights]. rewrite Nat2Z.inj_succ, <- Z.add_1_r, inject_Z_plus.
    change (inject_Z 1) with 1.
    destruct (riskLevel item); simpl weight; lra.
Qed.

Lemma meanWeight_range (items : list RiskItem) :
  items <> [] -> 10 <= meanWeight items /\ meanWeight items <= 100.
Proof.
  intros Hne. unfold meanWeight.
  assert (0 < inject_Z (Z.of_nat (length items))) as Hpos.
  { change 0 with (inject_Z 0). rewrite <- Zlt_Qlt.
    destruct items; [congruence | simpl length; lia]. }
  destruct (sumWeights_range items) as [Hlo Hhi].
  split.
  - apply Qle_shift_div_l; [exact Hpos | exact Hlo].
  - apply Qle_shift_div_r; [exact Hpos | exact Hhi].
Qed.

(** C5. For every input the score of the report is the mean of the
    numeric weights of its items (low 10, medium 40, high 70, critical
    100) rounded to the nearest integer, is 0 when there is no item, and
    lies between 0 and 100. *)
Theorem analyze_score_is_rounded_mean :
  forall (sql : string) (tableMeta : list TableMeta),
    let report := analyze sql tableMeta in
    (operations report = [] -> score report = 0%Z)
    /\ (operations report <> [] ->
        rounded (meanWeight (operations report)) (score report))
    /\ (0 <= score report <= 100)%Z.
Proof.
  intros sql tableMeta report.
  unfold report, analyze. cbn [score operations].
  set (ops := fold_left _ (statements sql) []).
  destruct ops as [|item items] eqn:Hops.
  - split; [reflexivity | split; [congruence | simpl; lia]].
  - rewrite <- Hops.
    assert (ops <> []) as Hne by (rewrite Hops; discriminate).
    assert ((length ops =? 0)%nat = false) as Hlen
        by (rewrite Hops; reflexivity).
    rewrite Hlen.
    assert (inject_Z (fold_left (fun s o => s + SCORES (riskLevel o))%Z ops 0%Z)
              / inject_Z (Z.of_nat (length ops)) == meanWeight ops) as Hmean.
    { unfold meanWeight. rewrite score_fold. change (inject_Z 0) with 0.
      rewrite Qplus_0_l. reflexivity. }
    rewrite (Math_round_comp _ _ Hmean).
    destruct (meanWeight_range ops Hne) as [Hlo Hhi].
    split; [congruence | split].
    + intros _. apply Math_round_rounded.
    + apply Math_round_bounds.
      * change (inject_Z 0) with 0. lra.
      * exact Hhi.
Qed.

End Aggregator.

(** ** The multi-factor scorer *)

Section ScorerProperties.
Import Number Spec Scorer.
Local Open Scope Q_scope.

Variable toLocaleString : Q -> string.
Variable toString : Q -> string.

Lemma Qle_bool_cases (x y : Q) :
  (Qle_bool x y = true /\ x <= y) \/ (Qle_bool x y = false /\ y < x).
Proof.
  destruct (Qle_bool x y) eqn:E.
  - left. split; [reflexivity | now apply Qle_bool_iff].
  - right. split; [reflexivity |].
    apply Qnot_le_lt. intros H. apply Qle_bool_iff in H. congruence.
Qed.

Lemma ltb_cases (x y : Q) :
  (ltb x y = true /\ x < y) \/ (ltb x y = false /\ y <= x).
Proof.
  unfold ltb. destruct (Qle_bool_cases y x) as [[-> H] | [-> H]]; auto.
Qed.

Lemma Qeq_bool_cases (x y : Q) :
  (Qeq_bool x y = true /\ x == y) \/ (Qeq_bool x y = false /\ ~ x == y).
Proof.
  destruct (Qeq_bool x y) eqn:E.
  - left. split; [reflexivity | now apply Qeq_bool_iff].
  - right. split; [reflexivity |].
    intros H. apply Qeq_bool_iff in H. congruence.
Qed.

(** Decide every comparison in the goal, keeping the fact it stands for. *)
Ltac decide_comparisons :=
  repeat match goal with
    | |- context [Qle_bool ?x ?y] =>
        destruct (Qle_bool_cases x y) as [[-> ?] | [-> ?]]
    | |- context [ltb ?x ?y] =>
        destruct (ltb_cases x y) as [[-> ?] | [-> ?]]
    | |- context [Qeq_bool ?x ?y] =>
        destruct (Qeq_bool_cases x y) as [[-> ?] | [-> ?]]
    end.

Lemma scoreTableSize_range (rowCount : Q) :
  (0 <= RiskFactor.score (scoreTableSize toLocaleString rowCount) <= 100)%Z.
Proof. unfold scoreTableSize. decide_comparisons; simpl; lia. Qed.

Lemma scoreCascadeRisk_range (metadata : TableMetadata) :
  (0 <= RiskFactor.score (scoreCascadeRisk toString metadata) <= 100)%Z.
Proof. unfold scoreCascadeRisk. decide_comparisons; simpl; lia. Qed.

Lemma scoreLockRisk_range (migration : ParsedMigration) :
  (0 <= RiskFactor.score (scoreLockRisk migration) <= 100)%Z.
Proof.
  unfold scoreLockRisk.
  repeat match goal with
    | |- context [if ?b then _ else _] => destruct b
    end; simpl; lia.
Qed.

Lemma scoreDataLoss_range (migration : ParsedMigration) :
  (0 <= RiskFactor.score (scoreDataLoss migration) <= 100)%Z.
Proof.
  unfold scoreDataLoss.
  repeat match goal with
    | |- context [if ?b then _ else _] => destruct b
    end; simpl; lia.
Qed.

Lemma weighted_range (a b c d : Z) :
  (0 <= a <= 100)%Z -> (0 <= b <= 100)%Z ->
  (0 <= c <= 100)%Z -> (0 <= d <= 100)%Z ->
  0 <= weighted a b c d /\ weighted a b c d <= 100.
Proof.
  intros [Ha1 Ha2] [Hb1 Hb2] [Hc1 Hc2] [Hd1 Hd2].
  rewrite Zle_Qle in Ha1, Ha2, Hb1, Hb2, Hc1, Hc2, Hd1, Hd2.
  change (inject_Z 0) with 0 in *. change (inject_Z 100) with 100 in *.
  unfold weighted. split; lra.
Qed.

(** C6. For every parsed migration and table metadata the report lists
    the four factors (table size, lock, cascade, data loss) and its
    overall score is their combination with the weights 0.25, 0.30, 0.20
    and 0.25, rounded to the nearest integer; it lies between 0 and
    100. *)
Theorem calculateRiskScore_weighted_combination :
  forall (migration : ParsedMigration) (metadata : TableMetadata),
    let report := calculateRiskScore toLocaleString toString migration metadata in
    let size := scoreTableSize toLocaleString (rowCount metadata) in
    let lock := scoreLockRisk migration in
    let cascade := scoreCascadeRisk toString metadata in
    let loss := scoreDataLoss migration in
    factors report = [size; lock; cascade; loss]
    /\ rounded (weighted (RiskFactor.score size) (RiskFactor.score lock)
                         (RiskFactor.score cascade) (RiskFactor.score loss))
               (overallScore report)
    /\ (0 <= overallScore report <= 100)%Z.
Proof.
  intros migration metadata report size lock cascade loss.
  assert (overallScore report
          = Math_round (weighted (RiskFactor.score size) (RiskFactor.score lock)
                                 (RiskFactor.score cascade) (RiskFactor.score loss)))
    as Hscore.
  { unfold report, calculateRiskScore. cbn [overallScore].
    apply Math_round_comp. unfold weighted. cbn [tableSize lockRisk cascadeRisk dataLoss WEIGHTS].
    fold size lock cascade loss. lra. }
  split; [reflexivity | split].
  - rewrite Hscore. apply Math_round_rounded.
  - rewrite Hscore.
    destruct (weighted_range (RiskFactor.score size) (RiskFactor.score lock)
                (RiskFactor.score cascade) (RiskFactor.score loss)) as [Hlo Hhi].
    + apply scoreTableSize_range.
    + apply scoreLockRisk_range.
    + apply scoreCascadeRisk_range.
    + apply scoreDataLoss_range.
    + apply Math_round_bounds; [change (inject_Z 0) with 0 | change (inject_Z 100) with 100]; assumption.
Qed.

(** C7. The table-size score does not decrease when the row count grows,
    and the cascade score does not decrease when the combined number of
    foreign keys and referencing tables grows. A count is not negative;
    that is all the second part needs of it. *)
Theorem factor_scores_monotone :
  (forall r1 r2 : Q,
      r1 <= r2 ->
      (RiskFactor.score (scoreTableSize toLocaleString r1)
       <= RiskFactor.score (scoreTableSize toLocaleString r2))%Z)
  /\ (forall m1 m2 : TableMetadata,
         0 <= fkCountOf m1 ->
         fkCountOf m1 <= fkCountOf m2 ->
         (RiskFactor.score (scoreCascadeRisk toString m1)
          <= RiskFactor.score (scoreCascadeRisk toString m2))%Z).
Proof.
  split.
  - intros r1 r2 Hle. unfold scoreTableSize.
    decide_comparisons; simpl; solve [lia | exfalso; lra].
  - intros m1 m2 Hpos Hle. unfold scoreCascadeRisk.
    generalize dependent (fkCountOf m2). generalize dependent (fkCountOf m1).
    intros k1 Hpos k2 Hle.
    decide_comparisons; simpl; solve [lia | exfalso; lra].
Qed.

End ScorerProperties.

Section ScorerExamples.
Import Number Spec Scorer.
Local Open Scope Q_scope.

Definition smallTable : TableMetadata :=
  {| name := "tags"; rowCount := 500; sizeBytes := 50000;
     foreignKeyCount := Some 1; referencedByCount := None |}.

Definition largeTable : TableMetadata :=
  {| name := "users"; rowCount := 10000000; sizeBytes := 5e9;
     foreignKeyCount := Some 5; referencedByCount := Some 2 |}.

Lemma factor_scores_monotone_witness :
  (500 <= 10000000
   /\ (RiskFactor.score (scoreTableSize decimal 500)
       <= RiskFactor.score (scoreTableSize decimal 10000000))%Z)
  /\ (0 <= fkCountOf smallTable
      /\ fkCountOf smallTable <= fkCountOf largeTable
      /\ (RiskFactor.score (scoreCascadeRisk decimal smallTable)
          <= RiskFactor.score (scoreCascadeRisk decimal largeTable))%Z).
Proof.
  assert (500 <= 10000000) as Hrows by (vm_compute; discriminate).
  assert (0 <= fkCountOf smallTable) as Hpos by (vm_compute; discriminate).
  assert (fkCountOf smallTable <= fkCountOf largeTable) as Hle
      by (vm_compute; discriminate).
  destruct (factor_scores_monotone decimal decimal) as [Hsize Hcascade].
  split.
  - split; [exact Hrows | exact (Hsize 500 10000000 Hrows)].
  - split; [exact Hpos | split; [exact Hle |]].
    exact (Hcascade smallTable largeTable Hpos Hle).
Defined.

(** The first acceptance case of the scorer: DROP TABLE on a table of ten
    million rows with five foreign keys. *)
Example drop_table_on_large_table :
  let report :=
    calculateRiskScore decimal decimal
      {| sql := "DROP TABLE users;"; operation := "DROP TABLE";
         table := "users"; details := None |}
      {| name := "users"; rowCount := 10000000; sizeBytes := 5e9;
         foreignKeyCount := Some 5; referencedByCount := None |} in
  overallScore report = 83%Z /\ riskLevel report = critical.
Proof. split; reflexivity. Qed.

(** The second acceptance case: a nullable ADD COLUMN on a small table. *)
Example add_column_on_small_table :
  let report :=
    calculateRiskScore decimal decimal
      {| sql := "ALTER TABLE tags ADD COLUMN description text;";
         operation := "ADD COLUMN"; table := "tags";
         details := Some {| isNullable := Some true; hasDefault := None;
                            columnTypeChange := None; isConcurrent := None |} |}
      {| name := "tags"; rowCount := 500; sizeBytes := 50000;
         foreignKeyCount := Some 0; referencedByCount := None |} in
  overallScore report = 4%Z /\ riskLevel report = low.
Proof. split; reflexivity. Qed.

(** Below zero the cascade steps go down again: a number that is not a
    count is outside what the monotonicity covers. *)
Example cascade_score_below_zero :
  let negative :=
    {| name := "t"; rowCount := 1; sizeBytes := 1;
       foreignKeyCount := Some (-1); referencedByCount := None |} in
  let none :=
    {| name := "t"; rowCount := 1; sizeBytes := 1;
       foreignKeyCount := Some 0; referencedByCount := None |} in
  RiskFactor.score (scoreCascadeRisk decimal negative) = 20%Z
  /\ RiskFactor.score (scoreCascadeRisk decimal none) = 0%Z.
Proof. split; reflexivity. Qed.

End ScorerExamples.

(** ** Metadata lookup and the rule table *)

Section Metadata.
Import Text RegExp Number Analyzer Spec Rules.
Local Open Scope Q_scope.

Lemma applyRules_firstMatch (rules : list Rule)
    (metaMap : gmap string TableMeta) (stmt : string) (ops : list RiskItem) :
  applyRules rules metaMap stmt ops =
  match firstMatch rules stmt with
  | Some (rule, m) =>
      (ops ++ [assess rule (metaFor metaMap (tableOf m)) stmt (tableOf m)])%list
  | None => ops
  end.
Proof.
  induction rules as [|rule rest IH]; simpl; [reflexivity |].
  destruct (exec (pattern rule) stmt); [reflexivity | exact IH].
Qed.

Lemma firstMatch_In (rules : list Rule) (stmt : string) (rule : Rule)
    (m : Captures) :
  firstMatch rules stmt = Some (rule, m) -> In rule rules.
Proof.
  induction rules as [|r rest IH]; simpl; [discriminate |].
  destruct (exec (pattern r) stmt).
  - intros [= <- _]. now left.
  - intros H. right. now apply IH.
Qed.

(** The items of a report, statement by statement. *)
Lemma analyze_operations (sql : string) (tableMeta : list TableMeta) :
  operations (analyze sql tableMeta)
  = flat_map (itemsOf (buildMetaMap tableMeta)) (statements sql).
Proof.
  unfold analyze. cbn [operations].
  assert (forall stmts ops,
             fold_left (fun ops stmt =>
                          applyRules RULES (buildMetaMap tableMeta) stmt ops)
                       stmts ops
             = (ops ++ flat_map (itemsOf (buildMetaMap tableMeta)) stmts)%list)
    as Hfold.
  { induction stmts as [|stmt stmts IH]; intros ops; cbn [fold_left flat_map].
    - now rewrite app_nil_r.
    - rewrite IH, applyRules_firstMatch. unfold itemsOf.
      destruct (firstMatch RULES stmt) as [[rule m] |].
      + now rewrite <- app_assoc.
      + reflexivity. }
  apply Hfold.
Qed.

Lemma analyze_contains (sql stmt : string) (tableMeta : list TableMeta)
    (rule : Rule) (m : Captures) :
  In stmt (statements sql) ->
  firstMatch RULES stmt = Some (rule, m) ->
  In (assess rule (metaFor (buildMetaMap tableMeta) (tableOf m)) stmt (tableOf m))
     (operations (analyze sql tableMeta)).
Proof.
  intros Hin Hfirst. rewrite analyze_operations. apply in_flat_map.
  exists stmt. split; [exact Hin |].
  unfold itemsOf. rewrite Hfirst. now left.
Qed.

Lemma RULES_read_rowCount_only : Forall readsRowCountOnly RULES.
Proof.
  unfold RULES.
  repeat constructor; intros m m' stmt table H; cbn [assess
    DROP_TABLE DROP_COLUMN ALTER_COLUMN_TYPE ADD_COLUMN
    CREATE_INDEX_CONCURRENTLY CREATE_INDEX ADD_CONSTRAINT RENAME];
    rewrite ?H; reflexivity.
Qed.

Lemma buildMetaMap_sameButSize (l1 l2 : list TableMeta)
    (m1 m2 : gmap string TableMeta) :
  Forall2 sameButSize l1 l2 ->
  (forall k, option_Forall2 sameButSize (m1 !! k) (m2 !! k)) ->
  forall k,
    option_Forall2 sameButSize
      (fold_left (fun m t => <[toLowerCase (name t) := t]> m) l1 m1 !! k)
      (fold_left (fun m t => <[toLowerCase (name t) := t]> m) l2 m2 !! k).
Proof.
  intros H. revert m1 m2.
  induction H as [|a b l1 l2 Hab _ IH]; intros m1 m2 Hm; simpl; [exact Hm |].
  apply IH. intros k.
  destruct Hab as [Hname Hrows]. rewrite <- Hname.
  destruct (decide (toLowerCase (name a) = k)) as [-> | Hne].
  - rewrite !lookup_insert_eq. constructor. now split.
  - rewrite !lookup_insert_ne by exact Hne. apply Hm.
Qed.

Lemma metaFor_sameButSize (m1 m2 : gmap string TableMeta) (table : string) :
  (forall k, option_Forall2 sameButSize (m1 !! k) (m2 !! k)) ->
  rowCount (metaFor m1 table) = rowCount (metaFor m2 table).
Proof.
  intros H. unfold metaFor.
  destruct (H (toLowerCase table)) as [a b [_ Hrows] |]; [exact Hrows | reflexivity].
Qed.

(** C9. For every script, two metadata collections that differ only in
    the [sizeBytes] of their entries give the same report. *)
Theorem analyze_ignores_sizeBytes :
  forall (sql : string) (tableMeta1 tableMeta2 : list TableMeta),
    Forall2 sameButSize tableMeta1 tableMeta2 ->
    analyze sql tableMeta1 = analyze sql tableMeta2.
Proof.
  intros sql tm1 tm2 H.
  assert (forall k, option_Forall2 sameButSize
                      (buildMetaMap tm1 !! k) (buildMetaMap tm2 !! k)) as Hmaps.
  { apply buildMetaMap_sameButSize; [exact H |].
    intros k. rewrite lookup_empty. constructor. }
  assert (forall stmt ops,
             applyRules RULES (buildMetaMap tm1) stmt ops
             = applyRules RULES (buildMetaMap tm2) stmt ops) as Hstep.
  { intros stmt ops. rewrite !applyRules_firstMatch.
    destruct (firstMatch RULES stmt) as [[rule m] |] eqn:Hfirst; [| reflexivity].
    f_equal. f_equal.
    pose proof RULES_read_rowCount_only as Hall.
    rewrite Forall_forall in Hall.
    apply Hall.
    - apply list_elem_of_In. eapply firstMatch_In. exact Hfirst.
    - apply metaFor_sameButSize. exact Hmaps. }
  assert (forall stmts ops,
             fold_left (fun ops stmt => applyRules RULES (buildMetaMap tm1) stmt ops) stmts ops
             = fold_left (fun ops stmt => applyRules RULES (buildMetaMap tm2) stmt ops) stmts ops)
    as Hops.
  { induction stmts as [|stmt stmts IH]; intros ops; cbn [fold_left];
      [reflexivity |].
    rewrite Hstep. apply IH. }
  unfold analyze. cbv zeta. rewrite Hops. reflexivity.
Qed.

(** C8, as the code has it. When the table captured from a statement has
    no entry in the metadata collection, the assessment is computed
    against the default row count 100,000 and size 10,000,000 bytes under
    the captured table name (not under the name of [DEFAULT_META]); as no
    rule reads the name, the resulting item, which the report of every
    script with that statement contains, is the one [DEFAULT_META] itself
    would give, so the rules that scale with the row count use 100,000
    rows. *)
Theorem absent_table_uses_default_counts :
  forall (tableMeta : list TableMeta) (stmt : string) (rule : Rule)
         (m : Captures),
    firstMatch RULES stmt = Some (rule, m) ->
    buildMetaMap tableMeta !! toLowerCase (tableOf m) = None ->
    let fallback :=
      {| name := tableOf m; rowCount := 100000; sizeBytes := 10000000 |} in
    metaFor (buildMetaMap tableMeta) (tableOf m) = fallback
    /\ (forall sql : string,
          In stmt (statements sql) ->
          In (assess rule fallback stmt (tableOf m))
             (operations (analyze sql tableMeta)))
    /\ assess rule fallback stmt (tableOf m)
       = assess rule DEFAULT_META stmt (tableOf m).
Proof.
  intros tableMeta stmt rule m Hfirst Hget fallback.
  assert (metaFor (buildMetaMap tableMeta) (tableOf m) = fallback) as Hmeta.
  { unfold metaFor. rewrite Hget. reflexivity. }
  split; [exact Hmeta | split].
  - intros sql Hin. rewrite <- Hmeta. now apply analyze_contains.
  - pose proof RULES_read_rowCount_only as Hall.
    rewrite Forall_forall in Hall. apply Hall.
    + apply list_elem_of_In. eapply firstMatch_In. exact Hfirst.
    + reflexivity.
Qed.

End Metadata.

Section MetadataExamples.
Import Text RegExp Number Analyzer Spec Rules.
Local Open Scope Q_scope.

Lemma analyze_ignores_sizeBytes_witness :
  Forall2 sameButSize
    [ {| name := "users"; rowCount := 5000; sizeBytes := 1e7 |} ]
    [ {| name := "users"; rowCount := 5000; sizeBytes := 1 |} ]
  /\ analyze "ALTER TABLE users DROP COLUMN legacy;"
       [ {| name := "users"; rowCount := 5000; sizeBytes := 1e7 |} ]
     = analyze "ALTER TABLE users DROP COLUMN legacy;"
         [ {| name := "users"; rowCount := 5000; sizeBytes := 1 |} ].
Proof.
  assert (Forall2 sameButSize
            [ {| name := "users"; rowCount := 5000; sizeBytes := 1e7 |} ]
            [ {| name := "users"; rowCount := 5000; sizeBytes := 1 |} ]) as H.
  { constructor; [split; reflexivity | constructor]. }
  split; [exact H |].
  exact (analyze_ignores_sizeBytes "ALTER TABLE users DROP COLUMN legacy;" _ _ H).
Defined.

(** C8, as the claim words it, fails: for a table without metadata the
    rule is not given [DEFAULT_META], whose name is [unknown], but a record
    that carries the captured table name. *)
Lemma absent_table_metadata_is_not_named_unknown :
  firstMatch RULES "ALTER TABLE users DROP COLUMN legacy"
  = Some (DROP_COLUMN, Some "users")
  /\ buildMetaMap [] !! toLowerCase (tableOf (Some "users")) = None
  /\ metaFor (buildMetaMap []) (tableOf (Some "users")) <> DEFAULT_META
  /\ name (metaFor (buildMetaMap []) (tableOf (Some "users"))) = "users".
Proof.
  split; [reflexivity | split; [reflexivity | split; [| reflexivity]]].
  intros H. apply (f_equal name) in H. discriminate H.
Qed.

Lemma absent_table_uses_default_counts_witness :
  firstMatch RULES "ALTER TABLE users DROP COLUMN legacy"
  = Some (DROP_COLUMN, Some "users")
  /\ buildMetaMap [] !! toLowerCase (tableOf (Some "users")) = None
  /\ metaFor (buildMetaMap []) (tableOf (Some "users"))
     = {| name := "users"; rowCount := 100000; sizeBytes := 10000000 |}
  /\ estimatedDurationMs
       (assess DROP_COLUMN
          {| name := "users"; rowCount := 100000; sizeBytes := 10000000 |}
          "ALTER TABLE users DROP COLUMN legacy" "users")
     == 1000.
Proof.
  assert (firstMatch RULES "ALTER TABLE users DROP COLUMN legacy"
          = Some (DROP_COLUMN, Some "users")) as Hfirst by reflexivity.
  assert (buildMetaMap [] !! toLowerCase (tableOf (Some "users")) = None)
    as Hget by reflexivity.
  destruct (absent_table_uses_default_counts [] _ _ _ Hfirst Hget)
    as (Hmeta & _ & Hitem).
  split; [exact Hfirst | split; [exact Hget | split; [exact Hmeta |]]].
  change (tableOf (Some "users")) with "users" in Hitem.
  rewrite Hitem. reflexivity.
Defined.

(** What a report shows of the default row count: on a table without
    metadata the rules that scale with the row count estimate 1000, 2000
    and 3000 ms for 100,000 rows. *)
Example default_durations :
  map estimatedDurationMs
    (operations
       (analyze "ALTER TABLE t DROP COLUMN c;
                 ALTER TABLE t ALTER COLUMN c TYPE bigint;
                 CREATE INDEX i ON t (c);" []))
  = [100000 * R; 100000 * R * 2; 100000 * R * 3]
  /\ 100000 * R == 1000 /\ 100000 * R * 2 == 2000 /\ 100000 * R * 3 == 3000.
Proof. repeat split. Qed.

End MetadataExamples.

(** ** Single statements *)

Section Statements.
Import Text RegExp Number Analyzer Spec Rules.
Local Open Scope Q_scope.

(** The items of a script that consists of one statement. *)
Lemma analyze_single (sql stmt : string) (tableMeta : list TableMeta) :
  statements sql = [stmt] ->
  operations (analyze sql tableMeta) = itemsOf (buildMetaMap tableMeta) stmt.
Proof.
  intros H. rewrite analyze_operations, H. cbn [flat_map]. apply app_nil_r.
Qed.

(** C2. Whatever the metadata, the script [DROP TABLE x;] gives exactly
    one item; its risk level is critical, it loses data and its lock is
    the full-table exclusive lock. *)
Theorem drop_table_is_critical :
  forall tableMeta : list TableMeta,
  exists item : RiskItem,
    operations (analyze "DROP TABLE x;" tableMeta) = [item]
    /\ riskLevel item = critical
    /\ dataLoss item = true
    /\ fullTableExclusive (lockType item).
Proof.
  intros tableMeta.
  rewrite (analyze_single _ "DROP TABLE x") by reflexivity.
  unfold itemsOf.
  assert (firstMatch RULES "DROP TABLE x" = Some (DROP_TABLE, Some "x")) as ->
      by reflexivity.
  eexists. split; [reflexivity |].
  repeat split.
Qed.

(** The two ADD COLUMN statements of the specification, under any
    metadata: each gives exactly one item. *)
Example add_column_not_null (tableMeta : list TableMeta) :
  map (fun item => (riskLevel item, includes "DEFAULT" (suggestion item)))
      (operations (analyze "ALTER TABLE x ADD COLUMN y int NOT NULL;" tableMeta))
  = [(high, true)].
Proof.
  rewrite (analyze_single _ "ALTER TABLE x ADD COLUMN y int NOT NULL")
    by reflexivity.
  reflexivity.
Qed.

Example add_column_nullable (tableMeta : list TableMeta) :
  map (fun item => (riskLevel item, dataLoss item))
      (operations (analyze "ALTER TABLE x ADD COLUMN y text;" tableMeta))
  = [(low, false)].
Proof.
  rewrite (analyze_single _ "ALTER TABLE x ADD COLUMN y text") by reflexivity.
  reflexivity.
Qed.

End Statements.

(** ** Text with unknown identifiers in it *)

#[local] Arguments String.append !_ _ / : simpl nomatch.

Section TextFacts.
Import Text Shape.

Lemma isWord_not_isSpace (c : ascii) : isWord c = true -> isSpace c = false.
Proof.
  destruct c as [[] [] [] [] [] [] [] []]; intros H;
    solve [reflexivity | discriminate H].
Qed.

Lemma isWord_upperChar (c : ascii) : isWord (upperChar c) = isWord c.
Proof. destruct c as [[] [] [] [] [] [] [] []]; reflexivity. Qed.

Lemma sameLetter_isWord (a b : ascii) :
  sameLetter a b = true -> isWord a = isWord b.
Proof.
  unfold sameLetter. intros H. apply Ascii.eqb_eq in H.
  rewrite <- (isWord_upperChar a), <- (isWord_upperChar b). now rewrite H.
Qed.

Lemma sameLetter_word_other (a b : ascii) :
  isWord a = true -> isWord b = false -> sameLetter a b = false.
Proof.
  intros Ha Hb. destruct (sameLetter a b) eqn:E; [| reflexivity].
  apply sameLetter_isWord in E. congruence.
Qed.

Lemma sameLetter_other_word (a b : ascii) :
  isWord a = false -> isWord b = true -> sameLetter a b = false.
Proof.
  intros Ha Hb. destruct (sameLetter a b) eqn:E; [| reflexivity].
  apply sameLetter_isWord in E. congruence.
Qed.

Lemma isWord_not_semicolon (c : ascii) :
  isWord c = true -> Ascii.eqb c ";" = false.
Proof.
  intros H. destruct (Ascii.eqb_spec c ";") as [-> |]; [discriminate H | reflexivity].
Qed.

Lemma isIdentifier_inv (w : string) :
  isIdentifier w = true ->
  exists c w', w = String c w' /\ isWord c = true /\ allChars isWord w' = true.
Proof.
  unfold isIdentifier. destruct w as [|c w']; simpl; [discriminate |].
  intros H. apply andb_prop in H as [Hc Hw]. eauto.
Qed.

Lemma isIdentifier_allWord (w : string) :
  isIdentifier w = true -> allChars isWord w = true.
Proof. unfold isIdentifier. intros H. now apply andb_prop in H as [_ H]. Qed.

Lemma length_append (a b : string) :
  String.length (a +:+ b) = String.length a + String.length b.
Proof. induction a as [|c a IH]; simpl; [reflexivity | now rewrite IH]. Qed.

Lemma substring_append (a b : string) :
  String.substring 0 (String.length a) (a +:+ b) = a.
Proof. induction a as [|c a IH]; simpl; [now destruct b | now rewrite IH]. Qed.

Lemma consumed_append (a b : string) : consumed (a +:+ b) b = a.
Proof.
  unfold consumed. rewrite length_append.
  replace (String.length a + String.length b - String.length b)
    with (String.length a) by lia.
  apply substring_append.
Qed.

(** *** Splitting and trimming a statement that holds no separator *)

Lemma split_append (sep : ascii) (a b piece : string) (pieces : list string) :
  allChars (fun c => negb (Ascii.eqb c sep)) a = true ->
  split sep b = piece :: pieces ->
  split sep (a +:+ b) = (a +:+ piece) :: pieces.
Proof.
  intros H Hb. induction a as [|c a IH]; simpl; [exact Hb |].
  simpl in H. apply andb_prop in H as [Hc Ha]. apply negb_true_iff in Hc.
  now rewrite Hc, (IH Ha).
Qed.

Lemma append_empty_r (a : string) : a +:+ "" = a.
Proof. induction a as [|c a IH]; simpl; [reflexivity | now rewrite IH]. Qed.

Lemma isEmpty_append (a b : string) :
  isEmpty (a +:+ b) = isEmpty a && isEmpty b.
Proof. now destruct a. Qed.

Lemma trimEnd_append (a b : string) :
  trimEnd b = b -> isEmpty b = false -> trimEnd (a +:+ b) = a +:+ b.
Proof.
  intros Hb Hne. induction a as [|c a IH]; simpl; [exact Hb |].
  rewrite IH, isEmpty_append, Hne, !andb_false_r. reflexivity.
Qed.

Lemma allChars_append (p : ascii -> bool) (a b : string) :
  allChars p (a +:+ b) = allChars p a && allChars p b.
Proof.
  induction a as [|c a IH]; simpl; [reflexivity |].
  now rewrite IH, andb_assoc.
Qed.

Lemma allChars_impl (p q : ascii -> bool) (s : string) :
  (forall c, p c = true -> q c = true) ->
  allChars p s = true -> allChars q s = true.
Proof.
  intros Hpq. induction s as [|c s IH]; simpl; [reflexivity |].
  intros H. apply andb_prop in H as [Hc Hs]. now rewrite (Hpq c Hc), IH.
Qed.

Lemma allWord_no_semicolon (w : string) :
  allChars isWord w = true ->
  allChars (fun c => negb (Ascii.eqb c ";")) w = true.
Proof.
  apply allChars_impl. intros c H. now rewrite isWord_not_semicolon.
Qed.

Lemma trimmed_append (a b : string) : trimmed b -> trimmed (a +:+ b).
Proof.
  intros [Hb Hne]. split.
  - now apply trimEnd_append.
  - now rewrite isEmpty_append, Hne, andb_false_r.
Qed.

(** A script made of one statement and its terminator. *)
Lemma statements_single (stmt : string) :
  allChars (fun c => negb (Ascii.eqb c ";")) stmt = true ->
  trimStart stmt = stmt ->
  trimmed stmt ->
  Analyzer.statements (stmt +:+ ";") = [stmt].
Proof.
  intros Hsep Hstart [Hend Hne]. unfold Analyzer.statements.
  assert (trim stmt = stmt) as Htrim by (unfold trim; now rewrite Hstart).
  rewrite (split_append ";" stmt ";" "" [""]) by (exact Hsep || reflexivity).
  cbn [map List.filter].
  rewrite append_empty_r, Htrim, Hne. reflexivity.
Qed.

End TextFacts.

(** ** Running a pattern over a statement with unknown identifiers *)

Section RegExpFacts.
Import Text Shape RegExp RegExp.Notations.

Lemma exec_here (r : RegExp.t) (s : string) (cap : Captures) :
  run r accept s None = Some cap -> exec r s = Some cap.
Proof. intros H. destruct s; simpl; now rewrite H. Qed.

Lemma exec_next (r : RegExp.t) (c : ascii) (s : string) :
  run r accept (String c s) None = None -> exec r (String c s) = exec r s.
Proof. intros H. simpl. now rewrite H. Qed.

(** Literal text of word characters, matched inside a run of word
    characters, ends inside that run: the character after the run is not
    a word character. *)
Lemma stripPrefix_word_run (t w tail rest : string) :
  allChars isWord t = true ->
  allChars isWord w = true ->
  endsWord tail = true ->
  stripPrefix t (w +:+ tail) = Some rest ->
  exists w', allChars isWord w' = true /\ rest = w' +:+ tail.
Proof.
  intros Ht Hw Htail. revert t Ht.
  induction w as [|b w IH]; intros t Ht; simpl.
  - destruct tail as [|b tl]; simpl.
    + destruct t; simpl; [| discriminate].
      intros [= <-]. now exists "".
    + destruct t as [|a t].
      * intros [= <-]. now exists "".
      * simpl in Ht, Htail. apply andb_prop in Ht as [Ha _].
        apply negb_true_iff in Htail.
        now rewrite (sameLetter_word_other a b Ha Htail).
  - simpl in Hw. apply andb_prop in Hw as [Hb Hw].
    destruct t as [|a t].
    + intros [= <-]. exists (String b w). simpl. now rewrite Hb, Hw.
    + simpl in Ht. apply andb_prop in Ht as [_ Ht].
      destruct (sameLetter a b); [| discriminate].
      now apply IH.
Qed.

Lemma plus_space_word (k : Cont) (w tail : string) (cap : Captures) :
  allChars isWord w = true ->
  plus isSpace k tail cap = None ->
  plus isSpace k (w +:+ tail) cap = None.
Proof.
  intros Hw Htail. destruct w as [|c w]; simpl; [exact Htail |].
  simpl in Hw. apply andb_prop in Hw as [Hc _].
  now rewrite (isWord_not_isSpace c Hc).
Qed.

(** A pattern that opens with a keyword and white space does not match
    at the start of [w +:+ tail] when [w] is a run of word characters
    and the white space and the rest of the pattern do not match at
    [tail]. *)
Lemma run_keyword_word (t : string) (r : RegExp.t) (k : Cont)
    (w tail : string) (cap : Captures) :
  allChars isWord t = true ->
  allChars isWord w = true ->
  endsWord tail = true ->
  plus isSpace (run r k) tail cap = None ->
  run (Lit t >>> \s+ >>> r) k (w +:+ tail) cap = None.
Proof.
  intros Ht Hw Htail Hrest. cbn [run inClass].
  destruct (stripPrefix t (w +:+ tail)) as [rest |] eqn:E; [| reflexivity].
  destruct (stripPrefix_word_run _ _ _ _ Ht Hw Htail E) as (w' & Hw' & ->).
  now apply plus_space_word.
Qed.

Lemma exec_skip_word (t : string) (r : RegExp.t) (w tail : string) :
  allChars isWord t = true ->
  allChars isWord w = true ->
  endsWord tail = true ->
  plus isSpace (run r accept) tail None = None ->
  exec (Lit t >>> \s+ >>> r) (w +:+ tail) = exec (Lit t >>> \s+ >>> r) tail.
Proof.
  intros Ht Hw Htail Hrest.
  induction w as [|c w IH]; [reflexivity |].
  change (String c w +:+ tail) with (String c (w +:+ tail)).
  rewrite exec_next.
  - apply IH. simpl in Hw. now apply andb_prop in Hw as [_ Hw].
  - change (String c (w +:+ tail)) with (String c w +:+ tail).
    now apply run_keyword_word.
Qed.

(** [\w+] takes a whole run of word characters when what follows the run
    lets the rest of the pattern match. *)
Lemma star_word_greedy (k : Cont) (w tail : string) (cap res : Captures) :
  allChars isWord w = true ->
  endsWord tail = true ->
  k tail cap = Some res ->
  star isWord k (w +:+ tail) cap = Some res.
Proof.
  intros Hw Htail Hk. induction w as [|c w IH]; simpl.
  - destruct tail as [|b tl]; simpl; [exact Hk |].
    simpl in Htail. apply negb_true_iff in Htail. now rewrite Htail.
  - simpl in Hw. apply andb_prop in Hw as [Hc Hw].
    now rewrite Hc, (IH Hw).
Qed.

Lemma plus_word_greedy (k : Cont) (w tail : string) (cap res : Captures) :
  isIdentifier w = true ->
  endsWord tail = true ->
  k tail cap = Some res ->
  plus isWord k (w +:+ tail) cap = Some res.
Proof.
  intros Hw Htail Hk.
  destruct (isIdentifier_inv w Hw) as (c & w' & -> & Hc & Hw').
  simpl. rewrite Hc. now apply star_word_greedy.
Qed.

(** Literal text that [w] does not begin with does not match at the start
    of [w +:+ tail] either. *)
Lemma stripPrefix_not_startsWith (t w tail : string) :
  allChars isWord t = true ->
  endsWord tail = true ->
  startsWith t w = false ->
  stripPrefix t (w +:+ tail) = None.
Proof.
  unfold startsWith. intros Ht Htail. revert t Ht.
  induction w as [|b w IH]; intros t Ht; simpl.
  - destruct t as [|a t]; simpl; [discriminate |]. intros _.
    destruct tail as [|b tl]; simpl; [reflexivity |].
    simpl in Ht, Htail. apply andb_prop in Ht as [Ha _].
    apply negb_true_iff in Htail.
    now rewrite (sameLetter_word_other a b Ha Htail).
  - destruct t as [|a t]; [discriminate |].
    simpl in Ht. apply andb_prop in Ht as [_ Ht].
    destruct (sameLetter a b); [| reflexivity].
    now apply IH.
Qed.

(** A character that is not a word character is not the first one of an
    identifier. *)
Lemma stripPrefix_other_word (a c : ascii) (t s : string) :
  isWord a = false -> isWord c = true ->
  stripPrefix (String a t) (String c s) = None.
Proof. intros Ha Hc. simpl. now rewrite (sameLetter_other_word a c Ha Hc). Qed.

(** *** One step of a pattern at a time *)

Lemma run_lit (t : string) (r : RegExp.t) (k : Cont) (s s' : string)
    (cap : Captures) :
  stripPrefix t s = Some s' -> run (Lit t >>> r) k s cap = run r k s' cap.
Proof. intros H. cbn [run]. now rewrite H. Qed.

Lemma run_lit_fail (t : string) (r : RegExp.t) (k : Cont) (s : string)
    (cap : Captures) :
  stripPrefix t s = None -> run (Lit t >>> r) k s cap = None.
Proof. intros H. cbn [run]. now rewrite H. Qed.

Lemma run_space (r : RegExp.t) (k : Cont) (c : ascii) (s : string)
    (cap : Captures) :
  isSpace c = true ->
  match s with EmptyString => true | String d _ => negb (isSpace d) end = true ->
  run (\s+ >>> r) k (String c s) cap = run r k s cap.
Proof.
  intros Hc Hs. cbn [run inClass plus]. rewrite Hc.
  destruct s as [|d s]; [reflexivity |].
  apply negb_true_iff in Hs. cbn [star]. now rewrite Hs.
Qed.

Lemma run_space_word (r : RegExp.t) (k : Cont) (c : ascii) (w tail : string)
    (cap : Captures) :
  isSpace c = true ->
  isIdentifier w = true ->
  run (\s+ >>> r) k (String c (w +:+ tail)) cap = run r k (w +:+ tail) cap.
Proof.
  intros Hc Hw. destruct (isIdentifier_inv w Hw) as (d & w' & -> & Hd & _).
  apply run_space; [exact Hc |]. simpl.
  now rewrite (isWord_not_isSpace d Hd).
Qed.

Lemma run_opt_skip (r1 r : RegExp.t) (k : Cont) (s : string) (cap : Captures) :
  run r1 (run r k) s cap = None -> run (Opt r1 >>> r) k s cap = run r k s cap.
Proof. intros H. cbn [run]. cbn [run] in H. now rewrite H. Qed.

Lemma run_opt_quote_word (r : RegExp.t) (k : Cont) (w tail : string)
    (cap : Captures) :
  isIdentifier w = true ->
  run (Opt Analyzer.quote >>> r) k (w +:+ tail) cap = run r k (w +:+ tail) cap.
Proof.
  intros Hw. destruct (isIdentifier_inv w Hw) as (d & w' & -> & Hd & _).
  apply run_opt_skip. unfold Analyzer.quote. cbn [run].
  change (String d w' +:+ tail) with (String d (w' +:+ tail)).
  now rewrite stripPrefix_other_word.
Qed.

Lemma run_word (r : RegExp.t) (k : Cont) (w tail : string)
    (cap res : Captures) :
  isIdentifier w = true ->
  endsWord tail = true ->
  run r k tail cap = Some res ->
  run (\w+ >>> r) k (w +:+ tail) cap = Some res.
Proof. intros Hw Htail Hk. cbn [run inClass]. now apply plus_word_greedy. Qed.

Lemma run_group_word (w tail : string) (cap : Captures) :
  isIdentifier w = true ->
  endsWord tail = true ->
  run (Group \w+) accept (w +:+ tail) cap = Some (Some w).
Proof.
  intros Hw Htail. cbn [run inClass].
  apply plus_word_greedy; [exact Hw | exact Htail |].
  unfold accept. now rewrite consumed_append.
Qed.

Lemma run_notahead_lit (t : string) (r : RegExp.t) (k : Cont) (s : string)
    (cap : Captures) :
  stripPrefix t s = None ->
  run (NotAhead (Lit t) >>> r) k s cap = run r k s cap.
Proof. intros H. cbn [run]. now rewrite H. Qed.

End RegExpFacts.

(** * Further properties of the code *)

(** ** The report as a whole *)

Section ReportProperties.
Import Text Number Analyzer Spec Rules Server.
Local Open Scope Q_scope.

Lemma ordinal_le_maxOrdinal (items : list RiskItem) (item : RiskItem) :
  In item items -> (ordinal (riskLevel item) <= maxOrdinal items)%nat.
Proof.
  unfold maxOrdinal. induction items as [|x items IH]; simpl; [tauto |].
  intros [-> | H]; [lia | specialize (IH H); lia].
Qed.

Lemma maxOrdinal_reached (items : list RiskItem) (n : nat) :
  (0 < n)%nat ->
  (n <= maxOrdinal items)%nat
  <-> exists item, In item items /\ (n <= ordinal (riskLevel item))%nat.
Proof.
  intros Hn. unfold maxOrdinal. induction items as [|x items IH]; simpl.
  - split; [lia | intros (item & [] & _)].
  - split.
    + intros H.
      destruct (Nat.le_gt_cases n (ordinal (riskLevel x))) as [Hx | Hx].
      * exists x. split; [now left | exact Hx].
      * destruct IH as [IH _]. destruct IH as (item & Hin & Hitem); [lia |].
        exists item. split; [now right | exact Hitem].
    + intros (item & [-> | Hin] & Hitem); [lia |].
      destruct IH as [_ IH]. specialize (IH (ex_intro _ item (conj Hin Hitem))).
      lia.
Qed.

Lemma overallRisk_ordinal (sql : string) (tableMeta : list TableMeta) :
  ordinal (overallRisk (analyze sql tableMeta))
  = maxOrdinal (operations (analyze sql tableMeta)).
Proof.
  unfold analyze. cbn [overallRisk operations]. now rewrite overall_fold.
Qed.

Lemma ordinal_SCORES (a b : RiskLevel) :
  (ordinal a <= ordinal b)%nat -> (SCORES a <= SCORES b)%Z.
Proof. destruct a, b; simpl; lia. Qed.

Lemma sumWeights_le (items : list RiskItem) (top : RiskLevel) :
  (forall item, In item items -> (ordinal (riskLevel item) <= ordinal top)%nat) ->
  sumWeights items <= inject_Z (SCORES top) * inject_Z (Z.of_nat (length items)).
Proof.
  induction items as [|x items IH]; intros H.
  - cbn [length sumWeights]. change (inject_Z (Z.of_nat 0)) with 0. lra.
  - cbn [length sumWeights].
    rewrite Nat2Z.inj_succ, <- Z.add_1_r, inject_Z_plus.
    change (inject_Z 1) with 1.
    assert (sumWeights items
            <= inject_Z (SCORES top) * inject_Z (Z.of_nat (length items))) as Hrest
        by (apply IH; intros item Hin; apply H; now right).
    assert (weight (riskLevel x) <= inject_Z (SCORES top)) as Hx.
    { rewrite weight_SCORES, <- Zle_Qle. apply ordinal_SCORES, H. now left. }
    lra.
Qed.

(** X1. A report with items has a score of at least 10 and at most the
    numeric weight of its overall risk level: the mean never exceeds the
    maximum. In particular a report whose overall risk is low has score
    10. *)
Theorem score_between_low_and_overall :
  forall (sql : string) (tableMeta : list TableMeta),
    let report := analyze sql tableMeta in
    operations report <> [] ->
    (10 <= score report <= SCORES (overallRisk report))%Z.
Proof.
  intros sql tableMeta report Hne.
  pose proof (overallRisk_ordinal sql tableMeta) as Hmax. fold report in Hmax.
  unfold report, analyze in *. cbn [score operations overallRisk] in *.
  set (ops := fold_left _ (statements sql) []) in *.
  set (top := fold_left _ ops low) in *.
  destruct ops as [|item items] eqn:Hops; [congruence |].
  rewrite <- Hops in *.
  assert ((length ops =? 0)%nat = false) as -> by (rewrite Hops; reflexivity).
  assert (inject_Z (fold_left (fun s o => s + SCORES (riskLevel o))%Z ops 0%Z)
            / inject_Z (Z.of_nat (length ops)) == meanWeight ops) as Hmean.
  { unfold meanWeight. rewrite score_fold. change (inject_Z 0) with 0.
    rewrite Qplus_0_l. reflexivity. }
  rewrite (Math_round_comp _ _ Hmean).
  destruct (meanWeight_range ops Hne) as [Hlo _].
  apply Math_round_bounds; [exact Hlo |].
  unfold meanWeight.
  assert (0 < inject_Z (Z.of_nat (length ops))) as Hpos.
  { change 0 with (inject_Z 0). rewrite <- Zlt_Qlt. rewrite Hops. simpl length. lia. }
  apply Qle_shift_div_r; [exact Hpos |].
  apply sumWeights_le. intros x Hin. rewrite Hmax.
  now apply ordinal_le_maxOrdinal.
Qed.

Lemma score_between_low_and_overall_witness :
  operations (analyze "DROP TABLE a; ALTER TABLE b RENAME TO c" []) <> []
  /\ (10 <= score (analyze "DROP TABLE a; ALTER TABLE b RENAME TO c" [])
      <= SCORES (overallRisk (analyze "DROP TABLE a; ALTER TABLE b RENAME TO c" [])))%Z.
Proof.
  assert (operations (analyze "DROP TABLE a; ALTER TABLE b RENAME TO c" []) <> [])
    as H by (vm_compute; discriminate).
  split; [exact H |].
  exact (score_between_low_and_overall _ _ H).
Defined.

(** X2. The exit code of the command line tells what the script holds: 2
    exactly when some item is critical, 1 exactly when some item is high
    and none is critical, 0 exactly when every item is low or medium (as
    for a script without any recognized statement). *)
Theorem exitCode_reflects_items :
  forall (sql : string) (tableMeta : list TableMeta),
    let report := analyze sql tableMeta in
    (exitCode report = 2%Z
     <-> exists item, In item (operations report) /\ riskLevel item = critical)
    /\ (exitCode report = 1%Z
        <-> (exists item, In item (operations report) /\ riskLevel item = high)
            /\ forall item, In item (operations report) -> riskLevel item <> critical)
    /\ (exitCode report = 0%Z
        <-> forall item, In item (operations report) ->
                         riskLevel item = low \/ riskLevel item = medium).
Proof.
  intros sql tableMeta report.
  pose proof (overallRisk_ordinal sql tableMeta) as Hmax. fold report in Hmax.
  pose proof (maxOrdinal_reached (operations report) 3 ltac:(lia)) as H3.
  pose proof (maxOrdinal_reached (operations report) 2 ltac:(lia)) as H2.
  rewrite <- Hmax in H2, H3.
  assert (forall item : RiskItem,
             (3 <= ordinal (riskLevel item))%nat <-> riskLevel item = critical)
    as Hcrit by (intros item; destruct (riskLevel item); simpl; split;
                 (lia || congruence)).
  assert (forall item : RiskItem,
             (2 <= ordinal (riskLevel item))%nat
             <-> riskLevel item = high \/ riskLevel item = critical)
    as Hhigh by (intros item; destruct (riskLevel item); simpl; split;
                 (lia || intuition congruence)).
  assert (exitCode report = 2%Z <-> (3 <= ordinal (overallRisk report))%nat) as E2
      by (unfold exitCode; destruct (overallRisk report); simpl; split;
          (lia || congruence)).
  assert (exitCode report = 1%Z
          <-> (2 <= ordinal (overallRisk report))%nat
              /\ ~ (3 <= ordinal (overallRisk report))%nat) as E1
      by (unfold exitCode; destruct (overallRisk report); simpl; split;
          (lia || intuition congruence || intuition lia)).
  assert (exitCode report = 0%Z <-> ~ (2 <= ordinal (overallRisk report))%nat) as E0
      by (unfold exitCode; destruct (overallRisk report); simpl; split;
          (lia || congruence || intuition lia)).
  split; [| split].
  - rewrite E2, H3. split; intros (item & Hin & H); exists item;
      (split; [exact Hin | now apply Hcrit]).
  - rewrite E1, H2, H3. split.
    + intros [(item & Hin & Hitem) Hnone]. split.
      * exists item. split; [exact Hin |].
        apply Hhigh in Hitem as [Hitem | Hitem]; [exact Hitem |].
        exfalso. apply Hnone. exists item. split; [exact Hin | now apply Hcrit].
      * intros x Hx Hxc. apply Hnone. exists x. split; [exact Hx | now apply Hcrit].
    + intros [(item & Hin & Hitem) Hnone]. split.
      * exists item. split; [exact Hin |]. apply Hhigh. now left.
      * intros (x & Hx & Hxc). apply (Hnone x Hx). now apply Hcrit.
  - rewrite E0, H2. split.
    + intros Hnone item Hin.
      destruct (riskLevel item) eqn:E; [now left | now right | |];
        exfalso; apply Hnone; exists item; (split; [exact Hin |]);
        rewrite E; simpl; lia.
    + intros Hall (item & Hin & Hitem).
      destruct (Hall item Hin) as [E | E]; rewrite E in Hitem; simpl in Hitem; lia.
Qed.

(** X3. When no row count in the metadata is negative, no item has a
    negative estimated duration and the total is not negative. *)
Theorem durations_not_negative :
  forall (sql : string) (tableMeta : list TableMeta),
    Forall (fun t => 0 <= rowCount t) tableMeta ->
    let report := analyze sql tableMeta in
    Forall (fun item => 0 <= estimatedDurationMs item) (operations report)
    /\ (0 <= totalEstimatedDurationMs report)%Z.
Proof.
  intros sql tableMeta Hrows report.
  assert (forall k t, buildMetaMap tableMeta !! k = Some t -> 0 <= rowCount t)
    as Hmap.
  { unfold buildMetaMap.
    assert (forall (l : list TableMeta) (m : gmap string TableMeta),
               Forall (fun t => 0 <= rowCount t) l ->
               (forall k t, m !! k = Some t -> 0 <= rowCount t) ->
               forall k t,
                 fold_left (fun m t => <[toLowerCase (name t) := t]> m) l m !! k
                 = Some t -> 0 <= rowCount t) as Hfold.
    { induction l as [|a l IH]; intros m Hl Hm; [exact Hm |].
      inversion Hl as [|? ? Ha Hl']; subst. cbn [fold_left].
      apply IH; [exact Hl' |]. intros k t.
      destruct (decide (toLowerCase (name a) = k)) as [-> | Hne].
      - rewrite lookup_insert_eq. now intros [= <-].
      - rewrite lookup_insert_ne by exact Hne. apply Hm. }
    apply Hfold; [exact Hrows |]. intros k t. rewrite lookup_empty. discriminate. }
  assert (forall table, 0 <= rowCount (metaFor (buildMetaMap tableMeta) table))
    as Hmeta.
  { intros table. unfold metaFor.
    destruct (buildMetaMap tableMeta !! toLowerCase table) eqn:E.
    - eapply Hmap. exact E.
    - simpl. discriminate. }
  assert (Forall (fun item => 0 <= estimatedDurationMs item) (operations report))
    as Hitems.
  { unfold report. rewrite analyze_operations. apply Forall_forall.
    intros item Hin. apply list_elem_of_In, in_flat_map in Hin.
    destruct Hin as (stmt & _ & Hin). unfold itemsOf in Hin.
    destruct (firstMatch RULES stmt) as [[rule m] |] eqn:Hfirst; [| destruct Hin].
    destruct Hin as [<- | []].
    pose proof (Hmeta (tableOf m)) as Hrow.
    apply firstMatch_In in Hfirst. unfold RULES in Hfirst.
    assert (R == 1 # 100) as HR by reflexivity.
    repeat (destruct Hfirst as [<- | Hfirst]); [.. | destruct Hfirst];
      cbn [assess DROP_TABLE DROP_COLUMN ALTER_COLUMN_TYPE ADD_COLUMN
             CREATE_INDEX_CONCURRENTLY CREATE_INDEX ADD_CONSTRAINT RENAME];
      try destruct (RegExp.test NOT_NULL stmt && negb (RegExp.test DEFAULT stmt));
      cbn [mk estimatedDurationMs]; rewrite ?HR; try lra; try discriminate. }
  split; [exact Hitems |].
  assert (0 <= sumDurations (operations report)) as Hsum.
  { induction Hitems as [|x xs Hx _ IH]; simpl; [discriminate | lra]. }
  unfold report, analyze in *. cbn [totalEstimatedDurationMs operations] in *.
  set (ops := fold_left _ (statements sql) []) in *.
  rewrite (Math_round_comp _ _ (duration_fold ops 0)).
  destruct (Math_round_rounded (0 + sumDurations ops)) as [Hlo _].
  apply Zle_of_Qlt_succ. change (inject_Z 0) with 0. lra.
Qed.

Lemma durations_not_negative_witness :
  Forall (fun t => 0 <= rowCount t)
         [ {| name := "users"; rowCount := 5000; sizeBytes := 1e7 |} ]
  /\ Forall (fun item => 0 <= estimatedDurationMs item)
       (operations
          (analyze "ALTER TABLE users DROP COLUMN legacy;"
             [ {| name := "users"; rowCount := 5000; sizeBytes := 1e7 |} ]))
  /\ (0 <= totalEstimatedDurationMs
             (analyze "ALTER TABLE users DROP COLUMN legacy;"
                [ {| name := "users"; rowCount := 5000; sizeBytes := 1e7 |} ]))%Z.
Proof.
  assert (Forall (fun t => 0 <= rowCount t)
            [ {| name := "users"; rowCount := 5000; sizeBytes := 1e7 |} ]) as H
      by (constructor; [vm_compute; discriminate | constructor]).
  split; [exact H |].
  exact (durations_not_negative "ALTER TABLE users DROP COLUMN legacy;" _ H).
Defined.

End ReportProperties.

(** ** Splitting a script into statements *)

Section ScriptProperties.
Import Text Shape Forms Number Analyzer Spec Rules.
Local Open Scope Q_scope.

Lemma split_not_nil (sep : ascii) (s : string) : split sep s <> [].
Proof.
  induction s as [|c s IH]; simpl; [discriminate |].
  destruct (Ascii.eqb c sep); [discriminate |].
  destruct (split sep s); [congruence | discriminate].
Qed.

Lemma split_separator (sep : ascii) (a b : string) :
  split sep (a +:+ String sep b) = (split sep a ++ split sep b)%list.
Proof.
  induction a as [|c a IH]; simpl.
  - now rewrite Ascii.eqb_refl.
  - destruct (Ascii.eqb c sep); [now rewrite IH |].
    rewrite IH. pose proof (split_not_nil sep a) as Hne.
    destruct (split sep a) as [|piece pieces]; [congruence | reflexivity].
Qed.

Lemma statements_separator (a b : string) :
  statements (a +:+ String ";" b) = (statements a ++ statements b)%list.
Proof.
  unfold statements. now rewrite split_separator, List.map_app, List.filter_app.
Qed.

(** X4. Scripts compose: the report of two scripts joined by a statement
    terminator lists the items of the first followed by those of the
    second, its overall risk is the higher of the two, and a terminator
    at the end of a script changes nothing. *)
Theorem analyze_joined_scripts :
  forall (a b : string) (tableMeta : list TableMeta),
    operations (analyze (a +:+ String ";" b) tableMeta)
    = (operations (analyze a tableMeta) ++ operations (analyze b tableMeta))%list
    /\ ordinal (overallRisk (analyze (a +:+ String ";" b) tableMeta))
       = Nat.max (ordinal (overallRisk (analyze a tableMeta)))
                 (ordinal (overallRisk (analyze b tableMeta)))
    /\ analyze (a +:+ ";") tableMeta = analyze a tableMeta.
Proof.
  intros a b tableMeta.
  assert (operations (analyze (a +:+ String ";" b) tableMeta)
          = (operations (analyze a tableMeta)
             ++ operations (analyze b tableMeta))%list) as Hops
      by (now rewrite !analyze_operations, statements_separator, flat_map_app).
  split; [exact Hops | split].
  - rewrite !overallRisk_ordinal, Hops. unfold maxOrdinal.
    rewrite map_app. apply list_max_app.
  - unfold analyze. rewrite statements_separator.
    change (statements "") with (@nil string). now rewrite app_nil_r.
Qed.

(** *** What a statement looks like *)

Lemma split_pieces (sep : ascii) (s : string) :
  Forall (fun piece => allChars (fun c => negb (Ascii.eqb c sep)) piece = true)
         (split sep s).
Proof.
  induction s as [|c s IH]; simpl; [now constructor |].
  destruct (Ascii.eqb c sep) eqn:E; [now constructor |].
  destruct (split sep s) as [|piece pieces]; [now constructor; simpl; rewrite ?E |].
  inversion IH as [|? ? Hpiece Hpieces]; subst.
  constructor; [simpl; now rewrite E, Hpiece | exact Hpieces].
Qed.

Lemma trimStart_allChars (p : ascii -> bool) (s : string) :
  allChars p s = true -> allChars p (trimStart s) = true.
Proof.
  induction s as [|c s IH]; simpl; [reflexivity |].
  intros H. apply andb_prop in H as [Hc Hs].
  destruct (isSpace c); [now apply IH | simpl; now rewrite Hc, Hs].
Qed.

Lemma trimEnd_allChars (p : ascii -> bool) (s : string) :
  allChars p s = true -> allChars p (trimEnd s) = true.
Proof.
  induction s as [|c s IH]; simpl; [reflexivity |].
  intros H. apply andb_prop in H as [Hc Hs].
  destruct (isSpace c && isEmpty (trimEnd s)); [reflexivity |].
  simpl. now rewrite Hc, IH.
Qed.

Lemma trimEnd_idempotent (s : string) : trimEnd (trimEnd s) = trimEnd s.
Proof.
  induction s as [|c s IH]; simpl; [reflexivity |].
  destruct (isSpace c && isEmpty (trimEnd s)) eqn:E; [reflexivity |].
  simpl. now rewrite IH, E.
Qed.

Lemma trimStart_begins (s : string) : beginsWithText (trimStart s) = true.
Proof.
  induction s as [|c s IH]; simpl; [reflexivity |].
  destruct (isSpace c) eqn:E; [exact IH | simpl; now rewrite E].
Qed.

Lemma trimEnd_begins (s : string) :
  beginsWithText s = true -> beginsWithText (trimEnd s) = true.
Proof.
  destruct s as [|c s]; simpl; [reflexivity |].
  intros H. destruct (isSpace c && isEmpty (trimEnd s)); [reflexivity | exact H].
Qed.

Lemma trimStart_fixed (s : string) : beginsWithText s = true -> trimStart s = s.
Proof.
  destruct s as [|c s]; simpl; [reflexivity |].
  intros H. apply negb_true_iff in H. now rewrite H.
Qed.

Lemma trim_idempotent (s : string) : trim (trim s) = trim s.
Proof.
  unfold trim.
  rewrite (trimStart_fixed (trimEnd (trimStart s)))
    by (apply trimEnd_begins, trimStart_begins).
  apply trimEnd_idempotent.
Qed.

(** X5. Every statement taken from a script is non-empty, has no white
    space at either end (trimming it again changes nothing) and holds no
    statement terminator. *)
Theorem statements_are_trimmed :
  forall sql : string,
    Forall (fun stmt =>
              isEmpty stmt = false
              /\ trim stmt = stmt
              /\ allChars (fun c => negb (Ascii.eqb c ";")) stmt = true)
           (statements sql).
Proof.
  intros sql. unfold statements. apply Forall_forall. intros stmt Hin.
  apply list_elem_of_In, filter_In in Hin as [Hin Hne].
  apply in_map_iff in Hin as (piece & <- & Hpiece).
  split; [now apply negb_true_iff in Hne | split].
  - apply trim_idempotent.
  - pose proof (split_pieces ";" sql) as Hall. rewrite Forall_forall in Hall.
    unfold trim. apply trimEnd_allChars, trimStart_allChars, Hall.
    now apply list_elem_of_In.
Qed.

(** *** Scripts without statements *)

Lemma trimStart_blank (s : string) :
  allChars isSpace s = true -> trimStart s = "".
Proof.
  induction s as [|c s IH]; simpl; [reflexivity |].
  intros H. apply andb_prop in H as [Hc Hs]. rewrite Hc. now apply IH.
Qed.

Lemma split_blank (s : string) :
  allChars (fun c => isSpace c || Ascii.eqb c ";") s = true ->
  Forall (fun piece => allChars isSpace piece = true) (split ";" s).
Proof.
  induction s as [|c s IH]; simpl; [now constructor |].
  intros H. apply andb_prop in H as [Hc Hs]. specialize (IH Hs).
  destruct (Ascii.eqb c ";") eqn:E; [now constructor |].
  rewrite orb_false_r in Hc.
  destruct (split ";" s) as [|piece pieces]; [now constructor; simpl; rewrite ?Hc |].
  inversion IH as [|? ? Hpiece Hpieces]; subst.
  constructor; [simpl; now rewrite Hc, Hpiece | exact Hpieces].
Qed.

Lemma statements_blank (sql : string) :
  allChars (fun c => isSpace c || Ascii.eqb c ";") sql = true ->
  statements sql = [].
Proof.
  intros Hblank.
  unfold statements. pose proof (split_blank sql Hblank) as Hall.
  induction Hall as [|piece pieces Hpiece _ IH]; [reflexivity |].
  cbn [map List.filter]. unfold trim at 1.
  now rewrite (trimStart_blank piece Hpiece).
Qed.

(** X6. A script made of nothing but white space and statement
    terminators (the empty script among them) has no statement, and its
    report is the empty one: no item, overall risk low, duration 0 and
    score 0. *)
Theorem blank_script_gives_empty_report :
  forall (sql : string) (tableMeta : list TableMeta),
    allChars (fun c => isSpace c || Ascii.eqb c ";") sql = true ->
    statements sql = []
    /\ analyze sql tableMeta
       = {| operations := []; overallRisk := low;
            totalEstimatedDurationMs := 0; score := 0 |}.
Proof.
  intros sql tableMeta Hblank.
  pose proof (statements_blank sql Hblank) as Hnone.
  split; [exact Hnone |].
  unfold analyze. rewrite Hnone. reflexivity.
Qed.

Lemma blank_script_gives_empty_report_witness :
  allChars (fun c => isSpace c || Ascii.eqb c ";") " ;  ;; " = true
  /\ statements " ;  ;; " = []
  /\ analyze " ;  ;; " []
     = {| operations := []; overallRisk := low;
          totalEstimatedDurationMs := 0; score := 0 |}.
Proof.
  assert (allChars (fun c => isSpace c || Ascii.eqb c ";") " ;  ;; " = true)
    as H by reflexivity.
  split; [exact H |].
  exact (blank_script_gives_empty_report " ;  ;; " [] H).
Defined.

(** X7. A statement gives at most one item, so a report never has more
    items than the script has statements; the statements that no rule
    matches are passed over, and the items keep the order of the
    statements they come from. *)
Theorem items_follow_statements :
  forall (sql : string) (tableMeta : list TableMeta),
    (length (operations (analyze sql tableMeta)) <= length (statements sql))%nat
    /\ operations (analyze sql tableMeta)
       = flat_map (itemsOf (buildMetaMap tableMeta))
           (List.filter (fun stmt =>
                           match firstMatch RULES stmt with
                           | Some _ => true
                           | None => false
                           end) (statements sql))
    /\ length (operations (analyze sql tableMeta))
       = length (List.filter (fun stmt =>
                                match firstMatch RULES stmt with
                                | Some _ => true
                                | None => false
                                end) (statements sql)).
Proof.
  intros sql tableMeta. rewrite analyze_operations.
  generalize (statements sql) as stmts. unfold itemsOf.
  induction stmts as [|stmt stmts (IH1 & IH2 & IH3)];
    [split; [simpl; lia | split; reflexivity] |].
  cbn [flat_map List.filter length].
  destruct (firstMatch RULES stmt) as [[rule m] |] eqn:E.
  - cbn [app length flat_map]. rewrite E. cbn [app length].
    rewrite <- IH2, <- IH3. repeat split; lia.
  - cbn [app]. repeat split; [lia | exact IH2 | exact IH3].
Qed.

End ScriptProperties.

(** ** Items and the rule table *)

Section ItemProperties.
Import Text Shape Forms RegExp Number Analyzer Spec Rules.
Local Open Scope Q_scope.

(** Where an item of a report comes from. *)
Lemma operations_origin (sql : string) (tableMeta : list TableMeta)
    (item : RiskItem) :
  In item (operations (analyze sql tableMeta)) ->
  exists stmt rule m,
    In stmt (statements sql)
    /\ firstMatch RULES stmt = Some (rule, m)
    /\ In rule RULES
    /\ item = assess rule (metaFor (buildMetaMap tableMeta) (tableOf m)) stmt
                     (tableOf m).
Proof.
  rewrite analyze_operations. intros Hin. apply in_flat_map in Hin.
  destruct Hin as (stmt & Hstmt & Hin). unfold itemsOf in Hin.
  destruct (firstMatch RULES stmt) as [[rule m] |] eqn:Hfirst; [| destruct Hin].
  destruct Hin as [<- | []].
  exists stmt, rule, m. repeat split; try assumption.
  eapply firstMatch_In. exact Hfirst.
Qed.

(** Case analysis on the rule an item was assessed by. *)
Ltac each_rule Hrule :=
  unfold RULES in Hrule;
  repeat (destruct Hrule as [<- | Hrule]); [.. | destruct Hrule];
  cbn [assess DROP_TABLE DROP_COLUMN ALTER_COLUMN_TYPE ADD_COLUMN
         CREATE_INDEX_CONCURRENTLY CREATE_INDEX ADD_CONSTRAINT RENAME];
  try match goal with
    | |- context [if ?b then _ else _] => destruct b
    end;
  cbn [mk operation table riskLevel lockType estimatedDurationMs dataLoss
         suggestion].

(** X8. Whatever the script and the metadata, an item loses data exactly
    when its operation is DROP TABLE or DROP COLUMN, it is critical
    exactly when its operation is DROP TABLE, and an item that loses data
    is never rated below high and always holds the ACCESS EXCLUSIVE
    lock. *)
Theorem data_loss_policy :
  forall (sql : string) (tableMeta : list TableMeta) (item : RiskItem),
    In item (operations (analyze sql tableMeta)) ->
    (dataLoss item = true
     <-> operation item = "DROP TABLE" \/ operation item = "DROP COLUMN")
    /\ (riskLevel item = critical <-> operation item = "DROP TABLE")
    /\ (dataLoss item = true ->
        (2 <= ordinal (riskLevel item))%nat
        /\ lockType item = "ACCESS EXCLUSIVE").
Proof.
  intros sql tableMeta item Hin.
  destruct (operations_origin _ _ _ Hin) as (stmt & rule & m & _ & _ & Hrule & ->).
  each_rule Hrule;
    (split; [| split]);
    try (split; intros H; solve [discriminate H | reflexivity
                                | now left | now right
                                | destruct H as [H | H]; discriminate H]);
    try (intros H; solve [discriminate H | split; [simpl; lia | reflexivity]]).
Qed.

Lemma data_loss_policy_witness :
  In {| operation := "DROP COLUMN"; table := "users"; riskLevel := high;
        lockType := "ACCESS EXCLUSIVE"; estimatedDurationMs := 100000 * R;
        dataLoss := true;
        suggestion := "Column data will be permanently lost. Add deprecation period first." |}
     (operations (analyze "ALTER TABLE users DROP COLUMN legacy;" []))
  /\ (2 <= ordinal high)%nat.
Proof.
  assert (In {| operation := "DROP COLUMN"; table := "users"; riskLevel := high;
                lockType := "ACCESS EXCLUSIVE"; estimatedDurationMs := 100000 * R;
                dataLoss := true;
                suggestion := "Column data will be permanently lost. Add deprecation period first." |}
             (operations (analyze "ALTER TABLE users DROP COLUMN legacy;" [])))
    as Hin by (vm_compute; left; reflexivity).
  split; [exact Hin |].
  destruct (data_loss_policy _ _ _ Hin) as (_ & _ & H).
  exact (proj1 (H eq_refl)).
Defined.

(** *** The table of an item *)

Lemma RULES_capture_words :
  Forall (fun rule => capturesWords (pattern rule) = true) RULES.
Proof. unfold RULES. repeat constructor. Qed.

Lemma assess_table (rule : Rule) (meta : TableMeta) (stmt t : string) :
  In rule RULES -> table (assess rule meta stmt t) = t.
Proof. intros Hrule. each_rule Hrule; reflexivity. Qed.

End ItemProperties.

(** ** Looking up the metadata of a table *)

Section LookupProperties.
Import Text Shape Forms RegExp RegExp.Notations Number Analyzer Spec Rules.
Local Open Scope Q_scope.

Lemma find_last {A : Type} (p : A -> bool) (l : list A) (a : A) :
  List.find p (l ++ [a])
  = match List.find p l with
    | Some x => Some x
    | None => if p a then Some a else None
    end.
Proof.
  induction l as [|x l IH]; simpl; [reflexivity |].
  destruct (p x); [reflexivity | exact IH].
Qed.

Lemma buildMetaMap_fold (l : list TableMeta) (m : gmap string TableMeta)
    (key : string) :
  fold_left (fun m t => <[toLowerCase (name t) := t]> m) l m !! key
  = match lastNamed key l with
    | Some t => Some t
    | None => m !! key
    end.
Proof.
  revert m. unfold lastNamed. induction l as [|a l IH]; intros m; [reflexivity |].
  cbn [fold_left rev]. rewrite IH, find_last.
  destruct (List.find _ (rev l)); [reflexivity |].
  destruct (String.eqb_spec (toLowerCase (name a)) key) as [-> | Hne].
  - apply lookup_insert_eq.
  - now apply lookup_insert_ne.
Qed.

Lemma metaFor_buildMetaMap (tableMeta : list TableMeta) (table : string) :
  metaFor (buildMetaMap tableMeta) table
  = match lastNamed (toLowerCase table) tableMeta with
    | Some meta => meta
    | None => {| name := table; rowCount := 100000; sizeBytes := 10000000 |}
    end.
Proof.
  unfold metaFor, buildMetaMap.
  rewrite buildMetaMap_fold.
  destruct (lastNamed (toLowerCase table) tableMeta); [reflexivity |].
  rewrite lookup_empty. reflexivity.
Qed.

(** X10. The metadata of a table is looked up without regard to letter
    case, on both sides: the record used is the last one of the collection
    whose name equals the table up to case, and when there is none it is
    the default row count and size under the name of the table. *)
Theorem metaFor_last_named :
  forall (tableMeta : list TableMeta) (table : string),
    metaFor (buildMetaMap tableMeta) table
    = match lastNamed (toLowerCase table) tableMeta with
      | Some meta => meta
      | None => {| name := table; rowCount := 100000; sizeBytes := 10000000 |}
      end.
Proof.
  intros tableMeta table. apply metaFor_buildMetaMap.
Qed.

(** Two records for one table, in different letter case: the later one is
    used. *)
Example later_metadata_replaces_earlier :
  map estimatedDurationMs
    (operations
       (analyze "ALTER TABLE Users DROP COLUMN legacy"
          [ {| name := "USERS"; rowCount := 100; sizeBytes := 1 |};
            {| name := "users"; rowCount := 200; sizeBytes := 1 |} ]))
  = [200 * R].
Proof. vm_compute. reflexivity. Qed.

(** *** Statements over any table *)

Lemma trimmed_identifier (w : string) : isIdentifier w = true -> trimmed w.
Proof.
  intros Hw. destruct (isIdentifier_inv w Hw) as (c & w' & -> & Hc & Hw').
  split; [| reflexivity].
  assert (forall s, allChars isWord s = true -> trimEnd s = s) as Hkeep.
  { induction s as [|d s IH]; simpl; [reflexivity |].
    intros H. apply andb_prop in H as [Hd Hs].
    now rewrite (isWord_not_isSpace d Hd), (IH Hs). }
  apply Hkeep. simpl. now rewrite Hc, Hw'.
Qed.

Lemma run_lit_last (t : string) (k : Cont) (s s' : string) (cap : Captures) :
  stripPrefix t s = Some s' -> run (Lit t) k s cap = k s' cap.
Proof. intros H. cbn [run]. now rewrite H. Qed.

Lemma run_opt_take (r1 r : RegExp.t) (k : Cont) (s : string)
    (cap res : Captures) :
  run r1 (run r k) s cap = Some res -> run (Opt r1 >>> r) k s cap = Some res.
Proof. intros H. cbn [run]. cbn [run] in H. now rewrite H. Qed.

Lemma run_group_word_then (r : RegExp.t) (k : Cont) (w tail : string)
    (cap res : Captures) :
  isIdentifier w = true ->
  endsWord tail = true ->
  run r k tail (Some w) = Some res ->
  run (Group \w+ >>> r) k (w +:+ tail) cap = Some res.
Proof.
  intros Hw Htail Hk. cbn [run inClass].
  apply plus_word_greedy; [exact Hw | exact Htail |].
  now rewrite consumed_append.
Qed.

Lemma stripPrefix_one (a : ascii) (s : string) :
  stripPrefix (String a "") (String a s) = Some s.
Proof.
  simpl. unfold sameLetter. rewrite Ascii.eqb_refl. now destruct s.
Qed.

Lemma run_space_end (k : Cont) (c : ascii) (s : string) (cap : Captures) :
  isSpace c = true ->
  match s with EmptyString => true | String d _ => negb (isSpace d) end = true ->
  run \s+ k (String c s) cap = k s cap.
Proof.
  intros Hc Hs. cbn [run inClass plus]. rewrite Hc.
  destruct s as [|d s]; [reflexivity |].
  apply negb_true_iff in Hs. cbn [star]. now rewrite Hs.
Qed.

Lemma run_space_end_word (k : Cont) (c : ascii) (w tail : string)
    (cap : Captures) :
  isSpace c = true ->
  isIdentifier w = true ->
  run \s+ k (String c (w +:+ tail)) cap = k (w +:+ tail) cap.
Proof.
  intros Hc Hw. destruct (isIdentifier_inv w Hw) as (d & w' & -> & Hd & _).
  cbn [run inClass plus String.append star].
  now rewrite Hc, (isWord_not_isSpace d Hd).
Qed.

Section OneTable.

Variable tbl : string.
Hypothesis tbl_identifier : isIdentifier tbl = true.

Let tbl_word := isIdentifier_allWord tbl tbl_identifier.

Lemma exec_dropTable :
  exec (pattern DROP_TABLE) (dropTable tbl) = Some (Some tbl).
Proof.
  unfold dropTable. cbn [pattern DROP_TABLE String.append].
  apply exec_here.
  erewrite run_lit by reflexivity.
  rewrite run_space by reflexivity.
  erewrite run_lit by reflexivity.
  rewrite <- (append_empty_r tbl) at 1.
  rewrite run_space_word by (assumption || reflexivity).
  rewrite run_opt_skip
    by (apply run_keyword_word; (exact tbl_word || reflexivity)).
  rewrite run_opt_quote_word by assumption.
  apply run_group_word; [assumption | reflexivity].
Qed.

Lemma exec_dropTable_quoted :
  exec (pattern DROP_TABLE) (dropTable (quoted tbl)) = Some (Some tbl).
Proof.
  unfold dropTable, quoted. cbn [pattern DROP_TABLE String.append].
  apply exec_here.
  erewrite run_lit by reflexivity.
  rewrite run_space by reflexivity.
  erewrite run_lit by reflexivity.
  rewrite run_space by reflexivity.
  rewrite run_opt_skip by reflexivity.
  apply run_opt_take. unfold quote at 1.
  rewrite (run_lit_last _ _ _ _ _ (stripPrefix_one _ _)).
  apply run_group_word; [assumption | reflexivity].
Qed.

Lemma exec_dropTableIfExists :
  exec (pattern DROP_TABLE) (dropTableIfExists tbl) = Some (Some tbl).
Proof.
  unfold dropTableIfExists. cbn [pattern DROP_TABLE String.append].
  apply exec_here.
  erewrite run_lit by reflexivity.
  rewrite run_space by reflexivity.
  erewrite run_lit by reflexivity.
  rewrite run_space by reflexivity.
  apply run_opt_take.
  erewrite run_lit by reflexivity.
  rewrite run_space by reflexivity.
  erewrite run_lit by reflexivity.
  rewrite <- (append_empty_r tbl) at 1.
  rewrite run_space_end_word by (assumption || reflexivity).
  rewrite run_opt_quote_word by assumption.
  apply run_group_word; [assumption | reflexivity].
Qed.

Lemma exec_dropTableIfExists_quoted :
  exec (pattern DROP_TABLE) (dropTableIfExists (quoted tbl)) = Some (Some tbl).
Proof.
  unfold dropTableIfExists, quoted. cbn [pattern DROP_TABLE String.append].
  apply exec_here.
  erewrite run_lit by reflexivity.
  rewrite run_space by reflexivity.
  erewrite run_lit by reflexivity.
  rewrite run_space by reflexivity.
  apply run_opt_take.
  erewrite run_lit by reflexivity.
  rewrite run_space by reflexivity.
  erewrite run_lit by reflexivity.
  rewrite run_space_end by reflexivity.
  apply run_opt_take. unfold quote at 1.
  rewrite (run_lit_last _ _ _ _ _ (stripPrefix_one _ _)).
  apply run_group_word; [assumption | reflexivity].
Qed.

Lemma statements_dropTable (name : string) :
  allChars (fun c => negb (Ascii.eqb c ";")) name = true ->
  trimmed name ->
  statements (dropTable name +:+ ";") = [dropTable name]
  /\ statements (dropTableIfExists name +:+ ";") = [dropTableIfExists name].
Proof.
  intros Hsep Htrim. unfold dropTable, dropTableIfExists.
  split; apply statements_single;
    solve [ rewrite allChars_append, Hsep; reflexivity
          | reflexivity
          | now apply trimmed_append ].
Qed.

Lemma quoted_shape :
  allChars (fun c => negb (Ascii.eqb c ";")) (quoted tbl) = true
  /\ trimmed (quoted tbl).
Proof.
  unfold quoted. split.
  - cbn [allChars]. rewrite allChars_append, (allWord_no_semicolon tbl tbl_word).
    reflexivity.
  - apply (trimmed_append (String "034"%char "")), trimmed_append.
    split; reflexivity.
Qed.

End OneTable.

(** X11. DROP TABLE is recognized for every table name, written bare or
    between double quotes, with or without IF EXISTS: the report has the
    one critical item, for the table without its quotes, whatever the
    metadata. *)
Theorem drop_table_any_name :
  forall (tbl stmt : string) (tableMeta : list TableMeta),
    isIdentifier tbl = true ->
    In stmt [ dropTable tbl; dropTable (quoted tbl);
              dropTableIfExists tbl; dropTableIfExists (quoted tbl) ] ->
    operations (analyze (stmt +:+ ";") tableMeta)
    = [ {| operation := "DROP TABLE"; table := tbl; riskLevel := critical;
           lockType := "ACCESS EXCLUSIVE"; estimatedDurationMs := 50;
           dataLoss := true;
           suggestion :=
             "Ensure full backup. Consider renaming to _deprecated instead." |} ].
Proof.
  intros tbl stmt tableMeta Htbl Hstmt.
  destruct (statements_dropTable tbl (allWord_no_semicolon tbl
              (isIdentifier_allWord tbl Htbl)) (trimmed_identifier tbl Htbl))
    as [Hbare Hbare'].
  destruct (quoted_shape tbl Htbl) as [Hsep Htrim].
  destruct (statements_dropTable (quoted tbl) Hsep Htrim) as [Hquoted Hquoted'].
  assert (exec (pattern DROP_TABLE) stmt = Some (Some tbl)
          /\ statements (stmt +:+ ";") = [stmt]) as [Hexec Hone].
  { destruct Hstmt as [<- | [<- | [<- | [<- | []]]]]; split;
      solve [ now apply exec_dropTable | now apply exec_dropTable_quoted
            | now apply exec_dropTableIfExists
            | now apply exec_dropTableIfExists_quoted
            | assumption ]. }
  rewrite (analyze_single _ _ _ Hone). unfold itemsOf, RULES.
  cbn [firstMatch]. rewrite Hexec.
  destruct (isIdentifier_inv tbl Htbl) as (c & w & -> & _ & _). reflexivity.
Qed.

Lemma drop_table_any_name_witness :
  isIdentifier "users" = true
  /\ In (dropTableIfExists (quoted "users"))
        [ dropTable "users"; dropTable (quoted "users");
          dropTableIfExists "users"; dropTableIfExists (quoted "users") ]
  /\ map (fun item => (table item, riskLevel item))
         (operations (analyze (dropTableIfExists (quoted "users") +:+ ";") []))
     = [("users", critical)].
Proof.
  assert (In (dropTableIfExists (quoted "users"))
             [ dropTable "users"; dropTable (quoted "users");
               dropTableIfExists "users"; dropTableIfExists (quoted "users") ])
    as Hin by (right; right; right; left; reflexivity).
  split; [reflexivity | split; [exact Hin |]].
  rewrite (drop_table_any_name "users" _ [] eq_refl Hin). reflexivity.
Defined.

(** *** DROP COLUMN with the metadata of the table *)

Section OneColumn.

Variables tbl col : string.
Hypothesis tbl_identifier : isIdentifier tbl = true.
Hypothesis col_identifier : isIdentifier col = true.

Lemma exec_dropTable_on_dropColumn :
  exec (pattern DROP_TABLE) (dropColumn tbl col) = None.
Proof.
  pose proof (isIdentifier_allWord tbl tbl_identifier).
  pose proof (isIdentifier_allWord col col_identifier).
  unfold dropColumn. rewrite <- (append_empty_r col).
  cbn [pattern DROP_TABLE String.append].
  repeat first
    [ rewrite exec_next by reflexivity
    | rewrite exec_skip_word by (assumption || reflexivity) ].
  reflexivity.
Qed.

Lemma exec_dropColumn :
  exec (pattern DROP_COLUMN) (dropColumn tbl col) = Some (Some tbl).
Proof.
  unfold dropColumn. cbn [pattern DROP_COLUMN String.append].
  apply exec_here.
  erewrite run_lit by reflexivity.
  rewrite run_space by reflexivity.
  erewrite run_lit by reflexivity.
  rewrite run_space_word by (assumption || reflexivity).
  rewrite run_opt_quote_word by assumption.
  apply run_group_word_then; [assumption | reflexivity |].
  rewrite run_opt_skip by reflexivity.
  rewrite run_space by reflexivity.
  erewrite run_lit by reflexivity.
  rewrite run_space by reflexivity.
  erewrite run_lit_last by reflexivity.
  reflexivity.
Qed.

Lemma statements_dropColumn :
  statements (dropColumn tbl col +:+ ";") = [dropColumn tbl col].
Proof.
  unfold dropColumn. apply statements_single.
  - rewrite !allChars_append,
      (allWord_no_semicolon tbl (isIdentifier_allWord tbl tbl_identifier)),
      (allWord_no_semicolon col (isIdentifier_allWord col col_identifier)).
    reflexivity.
  - reflexivity.
  - repeat apply trimmed_append. now apply trimmed_identifier.
Qed.

End OneColumn.

(** *** The DEFAULT test of the ADD COLUMN rule *)

Lemma stripPrefix_same_upper (t mid rest : string) :
  toUpperCase mid = toUpperCase t -> stripPrefix t (mid +:+ rest) = Some rest.
Proof.
  revert t. induction mid as [|b mid IH]; intros [|a t]; simpl;
    try discriminate.
  - intros _. now destruct rest.
  - intros [= Hab Hrest]. unfold sameLetter. rewrite Hab, Ascii.eqb_refl.
    now apply IH.
Qed.

Lemma exec_found (r : RegExp.t) (pre s : string) :
  run r accept s None <> None -> exec r (pre +:+ s) <> None.
Proof.
  intros Hrun. induction pre as [|c pre IH]; simpl.
  - destruct s; simpl; destruct (run r accept _ None); congruence.
  - destruct (run r accept (String c (pre +:+ s)) None); [discriminate | exact IH].
Qed.

(** X13. The ADD COLUMN rule looks for DEFAULT anywhere in the statement,
    in any letter case and also inside a longer word such as a column
    name: every statement it takes that holds such text is rated low,
    with the brief lock and the fixed duration 10, NOT NULL or not. *)
Theorem add_column_default_anywhere :
  forall (tableMeta : list TableMeta) (sql stmt pre mid post : string)
         (m : Captures),
    In stmt (statements sql) ->
    firstMatch RULES stmt = Some (ADD_COLUMN, m) ->
    stmt = pre +:+ mid +:+ post ->
    toUpperCase mid = "DEFAULT" ->
    In {| operation := "ADD COLUMN"; table := tableOf m; riskLevel := low;
          lockType := "ACCESS EXCLUSIVE (brief)"; estimatedDurationMs := 10;
          dataLoss := false;
          suggestion := "Safe in PostgreSQL 11+. Fast metadata-only operation." |}
       (operations (analyze sql tableMeta)).
Proof.
  intros tableMeta sql stmt pre mid post m Hin Hfirst Hshape Hmid.
  pose proof (analyze_contains sql stmt tableMeta _ _ Hin Hfirst) as Hitem.
  cbn [assess ADD_COLUMN] in Hitem.
  assert (test DEFAULT stmt = true) as Hdefault.
  { unfold test, DEFAULT. rewrite Hshape.
    pose proof (exec_found (Lit "DEFAULT") pre (mid +:+ post)) as Hfound.
    destruct (exec (Lit "DEFAULT") (pre +:+ mid +:+ post)); [reflexivity |].
    exfalso. apply Hfound; [| reflexivity].
    cbn [run]. rewrite (stripPrefix_same_upper "DEFAULT" mid post Hmid).
    discriminate. }
  rewrite Hdefault, andb_false_r in Hitem. exact Hitem.
Qed.

Lemma add_column_default_anywhere_witness :
  In "ALTER TABLE t ADD COLUMN default_role int NOT NULL"
     (statements "ALTER TABLE t ADD COLUMN default_role int NOT NULL;")
  /\ firstMatch RULES "ALTER TABLE t ADD COLUMN default_role int NOT NULL"
     = Some (ADD_COLUMN, Some "t")
  /\ "ALTER TABLE t ADD COLUMN default_role int NOT NULL"
     = "ALTER TABLE t ADD COLUMN " +:+ "default" +:+ "_role int NOT NULL"
  /\ toUpperCase "default" = "DEFAULT"
  /\ test NOT_NULL "ALTER TABLE t ADD COLUMN default_role int NOT NULL" = true
  /\ In {| operation := "ADD COLUMN"; table := "t"; riskLevel := low;
           lockType := "ACCESS EXCLUSIVE (brief)"; estimatedDurationMs := 10;
           dataLoss := false;
           suggestion := "Safe in PostgreSQL 11+. Fast metadata-only operation." |}
        (operations
           (analyze "ALTER TABLE t ADD COLUMN default_role int NOT NULL;" [])).
Proof.
  assert (In "ALTER TABLE t ADD COLUMN default_role int NOT NULL"
             (statements "ALTER TABLE t ADD COLUMN default_role int NOT NULL;"))
    as Hin by (vm_compute; left; reflexivity).
  assert (firstMatch RULES "ALTER TABLE t ADD COLUMN default_role int NOT NULL"
          = Some (ADD_COLUMN, Some "t")) as Hfirst by reflexivity.
  split; [exact Hin | split; [exact Hfirst |]].
  split; [reflexivity | split; [reflexivity | split; [reflexivity |]]].
  exact (add_column_default_anywhere [] _ _ "ALTER TABLE t ADD COLUMN "
           "default" "_role int NOT NULL" _ Hin Hfirst eq_refl eq_refl).
Defined.

End LookupProperties.

(** ** More on the multi-factor scorer *)

Section ScorerMore.
Import Text Forms Number Spec Scorer.
Local Open Scope Q_scope.

Variable toLocaleString : Q -> string.
Variable toString : Q -> string.

Lemma Math_round_monotone (x y : Q) : x <= y -> (Math_round x <= Math_round y)%Z.
Proof. intros H. unfold Math_round. apply Qfloor_resp_le. lra. Qed.

Lemma overallScore_weighted (migration : ParsedMigration)
    (metadata : TableMetadata) :
  overallScore (calculateRiskScore toLocaleString toString migration metadata)
  = Math_round
      (weighted
         (RiskFactor.score (scoreTableSize toLocaleString (rowCount metadata)))
         (RiskFactor.score (scoreLockRisk migration))
         (RiskFactor.score (scoreCascadeRisk toString metadata))
         (RiskFactor.score (scoreDataLoss migration))).
Proof.
  unfold calculateRiskScore. cbn [overallScore].
  apply Math_round_comp. unfold weighted.
  cbn [tableSize lockRisk cascadeRisk dataLoss WEIGHTS]. lra.
Qed.

(** Decide every comparison of the operation with a name, and every
    flag. *)
Ltac decide_operation :=
  repeat match goal with
    | |- context [String.eqb ?a ?b] => destruct (String.eqb_spec a b)
    | |- context [truthy ?b] => destruct (truthy b)
    end;
  cbn [orb andb negb RiskFactor.score].

Lemma lock_and_loss (migration : ParsedMigration) :
  let lock := RiskFactor.score (scoreLockRisk migration) in
  let loss := RiskFactor.score (scoreDataLoss migration) in
  (10 <= lock <= 90)%Z
  /\ (0 <= loss <= 100)%Z
  /\ (30 * lock + 25 * loss <= 5200)%Z
  /\ (0 < loss -> 4100 <= 30 * lock + 25 * loss)%Z.
Proof.
  unfold scoreLockRisk, scoreDataLoss.
  generalize (toUpperCase (operation migration)) as op. intros op.
  decide_operation; try congruence; repeat split; lia.
Qed.

Lemma scoreTableSize_bounds (rows : Q) :
  (0 <= RiskFactor.score (scoreTableSize toLocaleString rows) <= 100)%Z.
Proof.
  unfold scoreTableSize.
  repeat match goal with
    | |- context [if ?b then _ else _] => destruct b
    end; simpl; lia.
Qed.

Lemma scoreCascadeRisk_bounds (metadata : TableMetadata) :
  (0 <= RiskFactor.score (scoreCascadeRisk toString metadata) <= 100)%Z.
Proof.
  unfold scoreCascadeRisk.
  repeat match goal with
    | |- context [if ?b then _ else _] => destruct b
    end; simpl; lia.
Qed.

Lemma weighted_as_integers (a b c d : Z) :
  weighted a b c d == inject_Z (25 * a + 30 * b + 20 * c + 25 * d) / 100.
Proof.
  unfold weighted. rewrite !inject_Z_plus, !inject_Z_mult.
  change (inject_Z 25) with 25. change (inject_Z 30) with 30.
  change (inject_Z 20) with 20. field.
Qed.

Lemma weighted_between (a b c d lo hi : Z) :
  (100 * lo <= 25 * a + 30 * b + 20 * c + 25 * d <= 100 * hi)%Z ->
  inject_Z lo <= weighted a b c d /\ weighted a b c d <= inject_Z hi.
Proof.
  intros [Hlo Hhi]. rewrite weighted_as_integers.
  rewrite Zle_Qle, inject_Z_mult in Hlo, Hhi.
  change (inject_Z 100) with 100 in *.
  split.
  - apply Qle_shift_div_l; [reflexivity | lra].
  - apply Qle_shift_div_r; [reflexivity | lra].
Qed.

(** X14. The overall score of the scorer always lies between 3 and 97: no
    operation has a lock score below 10 or above 90, so the ends 0 and 100
    of the scale are never reached, whatever the migration and the
    metadata. *)
Theorem overallScore_between_3_and_97 :
  forall (migration : ParsedMigration) (metadata : TableMetadata),
    (3 <= overallScore
            (calculateRiskScore toLocaleString toString migration metadata)
       <= 97)%Z.
Proof.
  intros migration metadata. rewrite overallScore_weighted.
  destruct (lock_and_loss migration) as ([Hl1 Hl2] & [Hd1 Hd2] & Hsum & _).
  pose proof (scoreTableSize_bounds (rowCount metadata)) as [Hs1 Hs2].
  pose proof (scoreCascadeRisk_bounds metadata) as [Hc1 Hc2].
  cbv zeta in *.
  destruct (weighted_between
              (RiskFactor.score (scoreTableSize toLocaleString (rowCount metadata)))
              (RiskFactor.score (scoreLockRisk migration))
              (RiskFactor.score (scoreCascadeRisk toString metadata))
              (RiskFactor.score (scoreDataLoss migration)) 3 97) as [Hlo Hhi];
    [lia |].
  now apply Math_round_bounds.
Qed.

(** X15. An operation with a data-loss score above 0 (DROP TABLE, TRUNCATE
    or DROP COLUMN, in any letter case) has an overall score of at least
    41 and is never rated low, however small the table. *)
Theorem data_loss_is_never_low :
  forall (migration : ParsedMigration) (metadata : TableMetadata),
    (0 < RiskFactor.score (scoreDataLoss migration))%Z ->
    let report := calculateRiskScore toLocaleString toString migration metadata in
    (41 <= overallScore report)%Z /\ riskLevel report <> low.
Proof.
  intros migration metadata Hloss report.
  assert (41 <= overallScore report)%Z as Hscore.
  { unfold report. rewrite overallScore_weighted.
    destruct (lock_and_loss migration) as ([Hl1 Hl2] & [Hd1 Hd2] & Hsum & Hmin).
    pose proof (scoreTableSize_bounds (rowCount metadata)) as [Hs1 Hs2].
    pose proof (scoreCascadeRisk_bounds metadata) as [Hc1 Hc2].
    cbv zeta in *. specialize (Hmin Hloss).
    destruct (weighted_between
                (RiskFactor.score (scoreTableSize toLocaleString (rowCount metadata)))
                (RiskFactor.score (scoreLockRisk migration))
                (RiskFactor.score (scoreCascadeRisk toString metadata))
                (RiskFactor.score (scoreDataLoss migration)) 41 97) as [Hlo Hhi];
      [lia |].
    now apply (Math_round_bounds _ 41 97). }
  split; [exact Hscore |].
  unfold report, calculateRiskScore in *. cbn [riskLevel overallScore] in *.
  unfold determineRiskLevel.
  destruct (Z.leb_spec
              (Math_round
                 (tableSize WEIGHTS
                  * inject_Z (RiskFactor.score
                                (scoreTableSize toLocaleString (rowCount metadata)))
                  + lockRisk WEIGHTS * inject_Z (RiskFactor.score (scoreLockRisk migration))
                  + cascadeRisk WEIGHTS
                    * inject_Z (RiskFactor.score (scoreCascadeRisk toString metadata))
                  + dataLoss WEIGHTS * inject_Z (RiskFactor.score (scoreDataLoss migration))))
              25); [lia |].
  repeat match goal with
    | |- context [if ?b then _ else _] => destruct b
    end; discriminate.
Qed.

(** *** Growing tables *)

Lemma scoreTableSize_monotone (r1 r2 : Q) :
  r1 <= r2 ->
  (RiskFactor.score (scoreTableSize toLocaleString r1)
   <= RiskFactor.score (scoreTableSize toLocaleString r2))%Z.
Proof.
  intros Hle. unfold scoreTableSize.
  repeat match goal with
    | |- context [Qle_bool ?x ?y] =>
        destruct (Qle_bool_cases x y) as [[-> ?] | [-> ?]]
    | |- context [ltb ?x ?y] =>
        destruct (ltb_cases x y) as [[-> ?] | [-> ?]]
    end; simpl; solve [lia | exfalso; lra].
Qed.

Lemma scoreCascadeRisk_monotone (m1 m2 : TableMetadata) :
  0 <= fkCountOf m1 ->
  fkCountOf m1 <= fkCountOf m2 ->
  (RiskFactor.score (scoreCascadeRisk toString m1)
   <= RiskFactor.score (scoreCascadeRisk toString m2))%Z.
Proof.
  intros Hpos Hle. unfold scoreCascadeRisk.
  generalize dependent (fkCountOf m2). generalize dependent (fkCountOf m1).
  intros k1 Hpos k2 Hle.
  repeat match goal with
    | |- context [Qle_bool ?x ?y] =>
        destruct (Qle_bool_cases x y) as [[-> ?] | [-> ?]]
    | |- context [Qeq_bool ?x ?y] =>
        destruct (Qeq_bool_cases x y) as [[-> ?] | [-> ?]]
    end; simpl; solve [lia | exfalso; lra].
Qed.

Lemma determineRiskLevel_monotone (s1 s2 : Z) :
  (s1 <= s2)%Z ->
  (levelRank (determineRiskLevel s1) <= levelRank (determineRiskLevel s2))%nat.
Proof.
  intros H. unfold determineRiskLevel.
  repeat match goal with
    | |- context [(?a <=? ?b)%Z] => destruct (Z.leb_spec a b)
    end; simpl; lia.
Qed.

(** X16. For one and the same migration, a table with at least as many
    rows and at least as many foreign-key relations (counts that are not
    negative) never gets a lower overall score or a lower risk level. *)
Theorem larger_table_never_scores_lower :
  forall (migration : ParsedMigration) (m1 m2 : TableMetadata),
    rowCount m1 <= rowCount m2 ->
    0 <= fkCountOf m1 ->
    fkCountOf m1 <= fkCountOf m2 ->
    let report1 := calculateRiskScore toLocaleString toString migration m1 in
    let report2 := calculateRiskScore toLocaleString toString migration m2 in
    (overallScore report1 <= overallScore report2)%Z
    /\ (levelRank (riskLevel report1) <= levelRank (riskLevel report2))%nat.
Proof.
  intros migration m1 m2 Hrows Hpos Hfk report1 report2.
  assert (overallScore report1 <= overallScore report2)%Z as Hscore.
  { unfold report1, report2. rewrite !overallScore_weighted.
    apply Math_round_monotone.
    pose proof (scoreTableSize_monotone _ _ Hrows) as Hsize.
    pose proof (scoreCascadeRisk_monotone _ _ Hpos Hfk) as Hcascade.
    rewrite Zle_Qle in Hsize, Hcascade. unfold weighted. lra. }
  split; [exact Hscore |].
  now apply determineRiskLevel_monotone.
Qed.

(** *** Concurrent index creation *)

(** X17. For CREATE INDEX and ADD INDEX (in any letter case) without a
    column type change, the migration marked concurrent scores at least
    19 points lower overall than the same migration not marked
    concurrent, on the same table. *)
Theorem concurrent_index_scores_lower :
  forall (concurrent plain : ParsedMigration) (metadata : TableMetadata),
    toUpperCase (operation concurrent) = toUpperCase (operation plain) ->
    toUpperCase (operation plain) = "CREATE INDEX"
    \/ toUpperCase (operation plain) = "ADD INDEX" ->
    truthy (columnTypeChange (detailsOf concurrent)) = false ->
    truthy (columnTypeChange (detailsOf plain)) = false ->
    truthy (isConcurrent (detailsOf concurrent)) = true ->
    truthy (isConcurrent (detailsOf plain)) = false ->
    (overallScore (calculateRiskScore toLocaleString toString concurrent metadata)
     + 19
     <= overallScore (calculateRiskScore toLocaleString toString plain metadata))%Z.
Proof.
  intros concurrent plain metadata Hop Hindex Hc1 Hc2 Hconc Hplain.
  rewrite !overallScore_weighted.
  assert (RiskFactor.score (scoreLockRisk concurrent) = 15%Z
          /\ RiskFactor.score (scoreDataLoss concurrent) = 0%Z) as [-> ->].
  { unfold scoreLockRisk, scoreDataLoss. rewrite Hop, Hc1, Hconc.
    destruct Hindex as [-> | ->]; split; reflexivity. }
  assert (RiskFactor.score (scoreLockRisk plain) = 80%Z
          /\ RiskFactor.score (scoreDataLoss plain) = 0%Z) as [-> ->].
  { unfold scoreLockRisk, scoreDataLoss. rewrite Hc2, Hplain.
    destruct Hindex as [-> | ->]; split; reflexivity. }
  match goal with
  | |- (Math_round ?x + 19 <= Math_round ?y)%Z =>
      destruct (Math_round_rounded x) as [_ Hx];
      destruct (Math_round_rounded y) as [Hy _];
      assert (y == x + (39 # 2)) as Hxy
          by (unfold weighted; change (inject_Z 15) with 15;
              change (inject_Z 80) with 80; change (inject_Z 0) with 0; lra)
  end.
  apply Zle_of_Qlt_succ. rewrite inject_Z_plus. change (inject_Z 19) with 19.
  lra.
Qed.

(** *** What the scorer does not look at *)

(** X18. The report of the scorer depends on the operation only up to
    letter case, and not at all on the SQL text, the table name, the name
    in the metadata or the size in bytes: two inputs that agree on the
    upper-case operation, the details, the row count and the two
    foreign-key counts give the same report. *)
Theorem scorer_reads_only_scored_fields :
  forall (mig1 mig2 : ParsedMigration) (meta1 meta2 : TableMetadata),
    toUpperCase (operation mig1) = toUpperCase (operation mig2) ->
    details mig1 = details mig2 ->
    rowCount meta1 = rowCount meta2 ->
    foreignKeyCount meta1 = foreignKeyCount meta2 ->
    referencedByCount meta1 = referencedByCount meta2 ->
    calculateRiskScore toLocaleString toString mig1 meta1
    = calculateRiskScore toLocaleString toString mig2 meta2.
Proof.
  intros mig1 mig2 meta1 meta2 Hop Hdetails Hrows Hfk Href.
  unfold calculateRiskScore, scoreLockRisk, scoreDataLoss, scoreCascadeRisk,
    fkCountOf, detailsOf.
  now rewrite Hop, Hdetails, Hrows, Hfk, Href.
Qed.

End ScorerMore.

Section ScorerMoreExamples.
Import Text Forms Number Spec Scorer.
Local Open Scope Q_scope.

Definition dropColumnOnTags : ParsedMigration :=
  {| sql := "ALTER TABLE tags DROP COLUMN note;"; operation := "drop column";
     table := "tags"; details := None |}.

Definition createIndexOn (concurrently : bool) : ParsedMigration :=
  {| sql := "CREATE INDEX idx_email ON users (email);";
     operation := "create index"; table := "users";
     details := Some {| isNullable := None; hasDefault := None;
                        columnTypeChange := None;
                        isConcurrent := Some concurrently |} |}.

Lemma data_loss_is_never_low_witness :
  (0 < RiskFactor.score (scoreDataLoss dropColumnOnTags))%Z
  /\ (41 <= overallScore
              (calculateRiskScore decimal decimal dropColumnOnTags smallTable))%Z
  /\ riskLevel (calculateRiskScore decimal decimal dropColumnOnTags smallTable)
     <> low.
Proof.
  assert (0 < RiskFactor.score (scoreDataLoss dropColumnOnTags))%Z as H
      by reflexivity.
  split; [exact H |].
  exact (data_loss_is_never_low decimal decimal dropColumnOnTags smallTable H).
Defined.

Lemma larger_table_never_scores_lower_witness :
  rowCount smallTable <= rowCount largeTable
  /\ 0 <= fkCountOf smallTable
  /\ fkCountOf smallTable <= fkCountOf largeTable
  /\ (overallScore (calculateRiskScore decimal decimal dropColumnOnTags smallTable)
      <= overallScore
           (calculateRiskScore decimal decimal dropColumnOnTags largeTable))%Z
  /\ (levelRank
        (riskLevel (calculateRiskScore decimal decimal dropColumnOnTags smallTable))
      <= levelRank
           (riskLevel
              (calculateRiskScore decimal decimal dropColumnOnTags largeTable)))%nat.
Proof.
  assert (rowCount smallTable <= rowCount largeTable) as Hrows
      by (vm_compute; discriminate).
  assert (0 <= fkCountOf smallTable) as Hpos by (vm_compute; discriminate).
  assert (fkCountOf smallTable <= fkCountOf largeTable) as Hfk
      by (vm_compute; discriminate).
  split; [exact Hrows | split; [exact Hpos | split; [exact Hfk |]]].
  exact (larger_table_never_scores_lower decimal decimal dropColumnOnTags
           smallTable largeTable Hrows Hpos Hfk).
Defined.

Lemma concurrent_index_scores_lower_witness :
  toUpperCase (operation (createIndexOn true))
  = toUpperCase (operation (createIndexOn false))
  /\ toUpperCase (operation (createIndexOn false)) = "CREATE INDEX"
  /\ (overallScore
        (calculateRiskScore decimal decimal (createIndexOn true) largeTable)
      + 19
      <= overallScore
           (calculateRiskScore decimal decimal (createIndexOn false) largeTable))%Z.
Proof.
  split; [reflexivity | split; [reflexivity |]].
  apply (concurrent_index_scores_lower decimal decimal (createIndexOn true)
           (createIndexOn false) largeTable);
    solve [reflexivity | left; reflexivity].
Defined.

Lemma scorer_reads_only_scored_fields_witness :
  toUpperCase (operation dropColumnOnTags) = toUpperCase "DROP COLUMN"
  /\ calculateRiskScore decimal decimal dropColumnOnTags smallTable
     = calculateRiskScore decimal decimal
         {| sql := ""; operation := "DROP COLUMN"; table := "other";
            details := None |}
         {| name := "other"; rowCount := 500; sizeBytes := 1;
            foreignKeyCount := Some 1; referencedByCount := None |}.
Proof.
  split; [reflexivity |].
  apply (scorer_reads_only_scored_fields decimal decimal); reflexivity.
Defined.

End ScorerMoreExamples.

(** ** Letter case *)

Section LetterCase.
Import Text Shape Forms RegExp RegExp.Notations Number Analyzer Spec Rules.
Local Open Scope Q_scope.

Lemma isSpace_upperChar (c : ascii) : isSpace (upperChar c) = isSpace c.
Proof. destruct c as [[] [] [] [] [] [] [] []]; reflexivity. Qed.

Lemma upperChar_idempotent (c : ascii) : upperChar (upperChar c) = upperChar c.
Proof. destruct c as [[] [] [] [] [] [] [] []]; reflexivity. Qed.

Lemma lowerChar_upperChar (c : ascii) : lowerChar (upperChar c) = lowerChar c.
Proof. destruct c as [[] [] [] [] [] [] [] []]; reflexivity. Qed.

Lemma semicolon_upperChar (c : ascii) :
  Ascii.eqb (upperChar c) ";" = Ascii.eqb c ";".
Proof. destruct c as [[] [] [] [] [] [] [] []]; reflexivity. Qed.

Lemma inClass_upperChar (cl : CharClass) (c : ascii) :
  inClass cl (upperChar c) = inClass cl c.
Proof. destruct cl; [apply isSpace_upperChar | apply isWord_upperChar]. Qed.

Lemma toLowerCase_toUpperCase (s : string) :
  toLowerCase (toUpperCase s) = toLowerCase s.
Proof.
  unfold toLowerCase, toUpperCase.
  induction s as [|c s IH]; cbn [mapChars]; [reflexivity |].
  now rewrite lowerChar_upperChar, IH.
Qed.

Lemma toUpperCase_cons (c : ascii) (s : string) :
  toUpperCase (String c s) = String (upperChar c) (toUpperCase s).
Proof. reflexivity. Qed.

#[local] Arguments toUpperCase : simpl never.

Lemma isEmpty_toUpperCase (s : string) : isEmpty (toUpperCase s) = isEmpty s.
Proof. now destruct s. Qed.

Lemma stripPrefix_toUpperCase (t s : string) :
  stripPrefix t (toUpperCase s) = option_map toUpperCase (stripPrefix t s).
Proof.
  revert t. induction s as [|b s IH]; intros t.
  - simpl. now destruct (isEmpty t).
  - rewrite toUpperCase_cons. cbn [stripPrefix].
    destruct t as [|a t]; [reflexivity |].
    unfold sameLetter. rewrite upperChar_idempotent.
    destruct (Ascii.eqb (upperChar a) (upperChar b)); [apply IH | reflexivity].
Qed.

Lemma length_toUpperCase (s : string) :
  String.length (toUpperCase s) = String.length s.
Proof.
  induction s as [|c s IH]; [reflexivity |].
  rewrite toUpperCase_cons. cbn [String.length]. now rewrite IH.
Qed.

Lemma substring_toUpperCase (n m : nat) (s : string) :
  String.substring n m (toUpperCase s) = toUpperCase (String.substring n m s).
Proof.
  revert n m. induction s as [|c s IH]; intros n m.
  - destruct n, m; reflexivity.
  - rewrite toUpperCase_cons.
    destruct n as [|n]; [destruct m as [|m] |]; cbn [String.substring];
      [reflexivity | | apply IH].
    now rewrite IH.
Qed.

Lemma consumed_toUpperCase (s rest : string) :
  consumed (toUpperCase s) (toUpperCase rest) = toUpperCase (consumed s rest).
Proof.
  unfold consumed. now rewrite !length_toUpperCase, substring_toUpperCase.
Qed.

Lemma star_toUpperCase (p : ascii -> bool) (k k' : Cont) (s : string)
    (cap : Captures) :
  (forall c, p (upperChar c) = p c) ->
  upperCont k k' ->
  upperResult (star p k s cap)
              (star p k' (toUpperCase s) (option_map toUpperCase cap)).
Proof.
  intros Hp Hk. induction s as [|c s IH]; [apply (Hk "") |].
  rewrite toUpperCase_cons. cbn [star].
  rewrite Hp. rewrite <- toUpperCase_cons.
  destruct (p c); [| apply (Hk (String c s))].
  unfold upperResult in IH. rewrite IH.
  destruct (star p k s cap); [reflexivity | apply (Hk (String c s))].
Qed.

Lemma run_toUpperCase (r : RegExp.t) :
  forall k k' : Cont, upperCont k k' -> upperCont (run r k) (run r k').
Proof.
  induction r as [t | cl | r1 IH1 r2 IH2 | r1 IH1 | r1 IH1 | r1 IH1];
    intros k k' Hk s cap; cbn [run].
  - rewrite stripPrefix_toUpperCase.
    destruct (stripPrefix t s); [apply Hk | reflexivity].
  - destruct s as [|c s]; [reflexivity |].
    rewrite toUpperCase_cons. cbn [plus].
    rewrite inClass_upperChar. destruct (inClass cl c); [| reflexivity].
    apply star_toUpperCase; [apply inClass_upperChar | exact Hk].
  - apply IH1. now apply IH2.
  - pose proof (IH1 k k' Hk s cap) as H1. unfold upperResult in H1.
    rewrite H1. destruct (run r1 k s cap); [reflexivity | apply Hk].
  - apply IH1. intros s' cap'. rewrite consumed_toUpperCase.
    apply (Hk s' (Some (consumed s s'))).
  - assert (upperCont accept accept) as Haccept by (intros s' cap'; reflexivity).
    pose proof (IH1 accept accept Haccept s cap) as H1. unfold upperResult in H1.
    rewrite H1. destruct (run r1 accept s cap); [reflexivity | apply Hk].
Qed.

Lemma exec_toUpperCase (r : RegExp.t) (s : string) :
  exec r (toUpperCase s) = option_map (option_map toUpperCase) (exec r s).
Proof.
  assert (upperCont (run r accept) (run r accept)) as Hrun
      by (apply run_toUpperCase; intros s' cap'; reflexivity).
  induction s as [|c s IH].
  - pose proof (Hrun "" None) as H. unfold upperResult in H.
    change (toUpperCase "") with "" in *. cbn [exec option_map] in *.
    destruct (run r accept "" None); [exact H | reflexivity].
  - pose proof (Hrun (String c s) None) as H. unfold upperResult in H.
    cbn [option_map] in H. rewrite toUpperCase_cons in *.
    cbn [exec]. rewrite H.
    destruct (run r accept (String c s) None); [reflexivity | exact IH].
Qed.

Lemma test_toUpperCase (r : RegExp.t) (s : string) :
  test r (toUpperCase s) = test r s.
Proof. unfold test. rewrite exec_toUpperCase. now destruct (exec r s). Qed.

Lemma split_toUpperCase (s : string) :
  split ";" (toUpperCase s) = map toUpperCase (split ";" s).
Proof.
  induction s as [|c s IH]; [reflexivity |].
  rewrite toUpperCase_cons. cbn [split].
  rewrite semicolon_upperChar, IH.
  destruct (Ascii.eqb c ";"); [reflexivity |].
  now destruct (split ";" s).
Qed.

Lemma trimStart_toUpperCase (s : string) :
  trimStart (toUpperCase s) = toUpperCase (trimStart s).
Proof.
  induction s as [|c s IH]; [reflexivity |].
  rewrite toUpperCase_cons. cbn [trimStart].
  rewrite isSpace_upperChar. now destruct (isSpace c).
Qed.

Lemma trimEnd_toUpperCase (s : string) :
  trimEnd (toUpperCase s) = toUpperCase (trimEnd s).
Proof.
  induction s as [|c s IH]; [reflexivity |].
  rewrite toUpperCase_cons. cbn [trimEnd].
  rewrite isSpace_upperChar, IH, isEmpty_toUpperCase.
  now destruct (isSpace c && isEmpty (trimEnd s)).
Qed.

Lemma trim_toUpperCase (s : string) : trim (toUpperCase s) = toUpperCase (trim s).
Proof. unfold trim. now rewrite trimStart_toUpperCase, trimEnd_toUpperCase. Qed.

Lemma statements_toUpperCase (sql : string) :
  statements (toUpperCase sql) = map toUpperCase (statements sql).
Proof.
  unfold statements. rewrite split_toUpperCase.
  generalize (split ";" sql) as pieces.
  induction pieces as [|piece pieces IH]; [reflexivity |].
  cbn [map List.filter].
  rewrite trim_toUpperCase, isEmpty_toUpperCase, IH.
  now destruct (isEmpty (trim piece)).
Qed.

Lemma firstMatch_toUpperCase (rules : list Rule) (stmt : string) :
  firstMatch rules (toUpperCase stmt)
  = option_map (fun '(rule, m) => (rule, option_map toUpperCase m))
               (firstMatch rules stmt).
Proof.
  induction rules as [|rule rules IH]; cbn [firstMatch]; [reflexivity |].
  rewrite exec_toUpperCase.
  destruct (exec (pattern rule) stmt); [reflexivity | exact IH].
Qed.

Lemma tableOf_toUpperCase (m : Captures) :
  toLowerCase (tableOf (option_map toUpperCase m)) = toLowerCase (tableOf m).
Proof.
  destruct m as [t |]; [| reflexivity]. cbn [option_map tableOf].
  rewrite isEmpty_toUpperCase.
  destruct (isEmpty t); [reflexivity | apply toLowerCase_toUpperCase].
Qed.

Lemma metaFor_same_lower (metaMap : gmap string TableMeta) (t t' : string) :
  toLowerCase t' = toLowerCase t ->
  rowCount (metaFor metaMap t') = rowCount (metaFor metaMap t).
Proof.
  intros H. unfold metaFor. rewrite H.
  now destruct (metaMap !! toLowerCase t).
Qed.

Lemma assess_toUpperCase (rule : Rule) (meta meta' : TableMeta)
    (stmt t t' : string) :
  In rule RULES ->
  rowCount meta' = rowCount meta ->
  toLowerCase t' = toLowerCase t ->
  sameButTableCase (assess rule meta stmt t)
                   (assess rule meta' (toUpperCase stmt) t').
Proof.
  intros Hrule Hrows Ht. unfold sameButTableCase, RULES in *.
  repeat (destruct Hrule as [<- | Hrule]); [.. | destruct Hrule];
    cbn [assess DROP_TABLE DROP_COLUMN ALTER_COLUMN_TYPE ADD_COLUMN
           CREATE_INDEX_CONCURRENTLY CREATE_INDEX ADD_CONSTRAINT RENAME];
    rewrite ?test_toUpperCase, ?Hrows;
    try destruct (test NOT_NULL stmt && negb (test DEFAULT stmt));
    cbn [mk operation table riskLevel lockType estimatedDurationMs dataLoss
           suggestion];
    rewrite ?Ht; repeat split.
Qed.

Lemma itemsOf_toUpperCase (metaMap : gmap string TableMeta) (stmt : string) :
  Forall2 sameButTableCase (itemsOf metaMap stmt)
          (itemsOf metaMap (toUpperCase stmt)).
Proof.
  unfold itemsOf. rewrite firstMatch_toUpperCase.
  destruct (firstMatch RULES stmt) as [[rule m] |] eqn:E; cbn [option_map];
    [| constructor].
  constructor; [| constructor].
  apply assess_toUpperCase.
  - eapply firstMatch_In. exact E.
  - apply metaFor_same_lower, tableOf_toUpperCase.
  - apply tableOf_toUpperCase.
Qed.

Lemma operations_toUpperCase (sql : string) (tableMeta : list TableMeta) :
  Forall2 sameButTableCase (operations (analyze sql tableMeta))
          (operations (analyze (toUpperCase sql) tableMeta)).
Proof.
  rewrite !analyze_operations, statements_toUpperCase.
  induction (statements sql) as [|stmt stmts IH]; cbn [map flat_map];
    [constructor |].
  apply Forall2_app; [apply itemsOf_toUpperCase | exact IH].
Qed.

(** The three aggregates read the risk levels and the durations only. *)
Lemma aggregates_sameButTableCase (ops ops' : list RiskItem) :
  Forall2 sameButTableCase ops ops' ->
  (forall acc,
      fold_left (fun max op =>
                   if (SCORES (riskLevel op) >? SCORES max)%Z
                   then riskLevel op else max) ops acc
      = fold_left (fun max op =>
                     if (SCORES (riskLevel op) >? SCORES max)%Z
                     then riskLevel op else max) ops' acc)
  /\ (forall acc,
         fold_left (fun s o => s + estimatedDurationMs o) ops acc
         = fold_left (fun s o => s + estimatedDurationMs o) ops' acc)
  /\ (forall acc,
         fold_left (fun s o => s + SCORES (riskLevel o))%Z ops acc
         = fold_left (fun s o => s + SCORES (riskLevel o))%Z ops' acc)
  /\ length ops = length ops'.
Proof.
  induction 1 as [|a b ops ops' Hab _ (IH1 & IH2 & IH3 & IH4)];
    [repeat split |].
  destruct Hab as (_ & _ & Hlevel & _ & Hduration & _).
  cbn [fold_left length]. rewrite Hlevel, Hduration, IH4.
  repeat split; intros acc; [apply IH1 | apply IH2 | apply IH3].
Qed.

Lemma sameButTableCase_sym (a b : RiskItem) :
  sameButTableCase a b -> sameButTableCase b a.
Proof. unfold sameButTableCase. intuition congruence. Qed.

Lemma sameButTableCase_trans (a b c : RiskItem) :
  sameButTableCase a b -> sameButTableCase b c -> sameButTableCase a c.
Proof. unfold sameButTableCase. intuition congruence. Qed.

Lemma Forall2_sameButTableCase_sym (l l' : list RiskItem) :
  Forall2 sameButTableCase l l' -> Forall2 sameButTableCase l' l.
Proof.
  induction 1; constructor; [now apply sameButTableCase_sym | assumption].
Qed.

Lemma Forall2_sameButTableCase_trans (l1 l2 l3 : list RiskItem) :
  Forall2 sameButTableCase l1 l2 -> Forall2 sameButTableCase l2 l3 ->
  Forall2 sameButTableCase l1 l3.
Proof.
  intros H. revert l3. induction H as [|a b l1 l2 Hab _ IH]; intros l3 H23;
    inversion H23; subst; constructor.
  - eapply sameButTableCase_trans; eassumption.
  - now apply IH.
Qed.

(** X20. The analysis does not depend on letter case: two scripts that
    are equal up to the case of their letters give reports with the same
    items (operation, risk level, lock, duration, data loss, suggestion),
    up to the case in which the table is written, and the same overall
    risk, total duration and score. *)
Theorem analyze_ignores_letter_case :
  forall (sql1 sql2 : string) (tableMeta : list TableMeta),
    toUpperCase sql1 = toUpperCase sql2 ->
    let report1 := analyze sql1 tableMeta in
    let report2 := analyze sql2 tableMeta in
    Forall2 sameButTableCase (operations report1) (operations report2)
    /\ overallRisk report1 = overallRisk report2
    /\ totalEstimatedDurationMs report1 = totalEstimatedDurationMs report2
    /\ score report1 = score report2.
Proof.
  intros sql1 sql2 tableMeta Hsame report1 report2.
  assert (Forall2 sameButTableCase (operations report1) (operations report2))
    as Hops.
  { eapply Forall2_sameButTableCase_trans.
    - apply operations_toUpperCase.
    - rewrite Hsame. apply Forall2_sameButTableCase_sym, operations_toUpperCase. }
  split; [exact Hops |].
  destruct (aggregates_sameButTableCase _ _ Hops) as (H1 & H2 & H3 & H4).
  unfold report1, report2, analyze in *.
  cbn [operations overallRisk totalEstimatedDurationMs score] in *.
  rewrite H1, H2, H3, H4. repeat split.
Qed.

Lemma analyze_ignores_letter_case_witness :
  toUpperCase "drop table Users; alter table Users rename to people"
  = toUpperCase "DROP TABLE users; ALTER TABLE users RENAME TO people"
  /\ overallRisk (analyze "drop table Users; alter table Users rename to people" [])
     = overallRisk (analyze "DROP TABLE users; ALTER TABLE users RENAME TO people" [])
  /\ score (analyze "drop table Users; alter table Users rename to people" [])
     = score (analyze "DROP TABLE users; ALTER TABLE users RENAME TO people" []).
Proof.
  assert (toUpperCase "drop table Users; alter table Users rename to people"
          = toUpperCase "DROP TABLE users; ALTER TABLE users RENAME TO people")
    as H by reflexivity.
  split; [exact H |].
  destruct (analyze_ignores_letter_case _ _ [] H) as (_ & Hrisk & _ & Hscore).
  split; [exact Hrisk | exact Hscore].
Defined.

End LetterCase.

(** * The numbers of the engine, and statements in any wording *)

(** ** Binary64 *)

Section Binary64Facts.
Import Number Spec Binary64.
Local Open Scope Q_scope.

(** [Math.round] of a finite number is the integer nearest to its value, the
    larger one of two that are equally near. *)
Lemma Math_round_nearest (x : number) (q : Q) :
  toQ x = Some q ->
  exists z : Z, integerOf (Binary64.Math_round x) = Some z /\ rounded q z.
Proof.
  destruct x as [s | s | | s m e]; cbn [toQ]; try discriminate.
  - intros [= <-]. exists 0%Z. split; [now destruct s |].
    unfold rounded. change (inject_Z 0) with 0. lra.
  - intros [= <-]. cbn [Binary64.Math_round].
    set (v := inject_Z (if s then Z.neg m else Z.pos m) * Qpower 2 e).
    exists (Number.Math_round v). split; [| apply Math_round_rounded].
    destruct (s && (Number.Math_round v =? 0)%Z) eqn:E; [| reflexivity].
    apply andb_prop in E as [_ E]. apply Z.eqb_eq in E. now rewrite E.
Qed.

End Binary64Facts.

(** ** The aggregates of the analyzer in binary64 *)

Section Aggregator64.
Import Text Number Spec Binary64 Analyzer64.
Import Analyzer (RiskLevel, low, medium, high, critical, SCORES, statements, tableOf).

(** The [reduce] that computes the overall risk keeps the largest ordinal
    seen so far, whatever the items are. *)
Lemma overall_levels {A : Type} (level : A -> RiskLevel) (items : list A)
    (acc : RiskLevel) :
  ordinal
    (fold_left (fun max op =>
                  if (SCORES (level op) >? SCORES max)%Z then level op else max)
               items acc)
  = Nat.max (ordinal acc) (list_max (map (fun item => ordinal (level item)) items)).
Proof.
  revert acc. induction items as [|item items IH]; intros acc.
  - simpl. lia.
  - simpl. rewrite IH, SCORES_ordinal.
    destruct (Nat.ltb_spec (ordinal acc) (ordinal (level item))); lia.
Qed.

(** C1, as the code has it. For every script and metadata collection the
    overall risk level of the report is the largest of the risk levels of
    its items on the scale low < medium < high < critical, and is low when
    there is no item; the total estimated duration is [Math.round] of the
    sum of the estimated durations of the items as the code adds them, in
    binary64 and from left to right starting at 0: whenever that computed
    sum is finite, the total is the integer nearest to it, a tie going
    up. *)
Theorem analyze_overall_risk_and_rounded_total :
  forall (sql : string) (tableMeta : list TableMeta),
    let report := analyze sql tableMeta in
    let sum :=
      fold_left (fun s o => add s (estimatedDurationMs o)) (operations report) zero in
    ordinal (overallRisk report)
    = list_max (map (fun item => ordinal (riskLevel item)) (operations report))
    /\ (operations report = [] -> overallRisk report = low)
    /\ totalEstimatedDurationMs report = Binary64.Math_round sum
    /\ (forall q : Q,
           toQ sum = Some q ->
           exists z : Z,
             integerOf (totalEstimatedDurationMs report) = Some z /\ rounded q z).
Proof.
  intros sql tableMeta report sum.
  assert (ordinal (overallRisk report)
          = list_max (map (fun item => ordinal (riskLevel item)) (operations report)))
    as Hmax.
  { unfold report, analyze. cbn [overallRisk operations].
    rewrite overall_levels. reflexivity. }
  split; [exact Hmax | split; [| split]].
  - intros Hnil. rewrite Hnil in Hmax.
    destruct (overallRisk report); [reflexivity | discriminate ..].
  - reflexivity.
  - intros q Hq. now apply Math_round_nearest.
Qed.

End Aggregator64.

Section Examples64.
Import Text Number Spec Binary64 Analyzer64.
Import Analyzer (RiskLevel, low, medium, high, critical, SCORES, statements, tableOf).
Local Open Scope Q_scope.

(** The literal [0.01] is the quotient of 1 by 100 in binary64, within
    [2^-60] of one hundredth. *)
Example R_is_one_hundredth :
  R = div (ofZ 1) (ofZ 100)
  /\ exists q, toQ R = Some q
               /\ (1 # 100) - (1 # 2 ^ 60) <= q /\ q <= (1 # 100) + (1 # 2 ^ 60).
Proof.
  split; [reflexivity |]. eexists. split; [reflexivity |].
  split; vm_compute; discriminate.
Qed.

(** C1, as the claim words it, fails: the total is not always the sum of
    the durations of the items, rounded. With one row in one table and 49
    in another, the two durations of the report add up to less than one
    half, whose nearest integer is 0; their binary64 sum is one half, and
    the total is 1. *)
Lemma total_is_not_the_rounded_exact_sum :
  let report :=
    analyze "ALTER TABLE a DROP COLUMN x; ALTER TABLE b DROP COLUMN y"
      [ {| name := "a"; rowCount := ofZ 1; sizeBytes := ofZ 8192 |};
        {| name := "b"; rowCount := ofZ 49; sizeBytes := ofZ 8192 |} ] in
  exists (d1 d2 : number) (q1 q2 : Q),
    map estimatedDurationMs (operations report) = [d1; d2]
    /\ toQ d1 = Some q1
    /\ toQ d2 = Some q2
    /\ q1 + q2 < 1 # 2
    /\ rounded (q1 + q2) 0
    /\ totalEstimatedDurationMs report = Int 1.
Proof.
  cbv zeta. eexists. eexists. eexists. eexists.
  split; [vm_compute; reflexivity |].
  split; [reflexivity |]. split; [reflexivity |].
  split; [vm_compute; reflexivity |].
  split; [split; vm_compute; [reflexivity | discriminate] |].
  vm_compute. reflexivity.
Qed.

(** The other way round: with 3, 29 and 18 rows the exact products add up
    to one half and [Analyzer] rounds to 1, while the binary64 sum stays
    below one half and the total of the code is 0. *)
Example exact_arithmetic_rounds_otherwise :
  let script :=
    "ALTER TABLE a DROP COLUMN x; ALTER TABLE b DROP COLUMN y; ALTER TABLE c DROP COLUMN z" in
  totalEstimatedDurationMs
    (analyze script
       [ {| name := "a"; rowCount := ofZ 3; sizeBytes := ofZ 8192 |};
         {| name := "b"; rowCount := ofZ 29; sizeBytes := ofZ 8192 |};
         {| name := "c"; rowCount := ofZ 18; sizeBytes := ofZ 8192 |} ])
  = Int 0
  /\ Analyzer.totalEstimatedDurationMs
       (Analyzer.analyze script
          [ {| Analyzer.name := "a"; Analyzer.rowCount := 3; Analyzer.sizeBytes := 8192 |};
            {| Analyzer.name := "b"; Analyzer.rowCount := 29; Analyzer.sizeBytes := 8192 |};
            {| Analyzer.name := "c"; Analyzer.rowCount := 18; Analyzer.sizeBytes := 8192 |} ])
    = 1%Z.
Proof. split; vm_compute; reflexivity. Qed.

Lemma analyze_overall_risk_and_rounded_total_witness :
  let report :=
    analyze "DROP TABLE a; ALTER TABLE b DROP COLUMN y"
      [ {| name := "b"; rowCount := ofZ 57; sizeBytes := ofZ 8192 |} ] in
  overallRisk report = critical
  /\ exists (q : Q) (z : Z),
       toQ (fold_left (fun s o => add s (estimatedDurationMs o))
                      (operations report) zero) = Some q
       /\ integerOf (totalEstimatedDurationMs report) = Some z
       /\ rounded q z
       /\ z = 51%Z.
Proof.
  cbv zeta.
  destruct (analyze_overall_risk_and_rounded_total
              "DROP TABLE a; ALTER TABLE b DROP COLUMN y"
              [ {| name := "b"; rowCount := ofZ 57; sizeBytes := ofZ 8192 |} ])
    as (_ & _ & _ & H).
  split; [vm_compute; reflexivity |].
  eexists. 
  destruct (H _ ltac:(vm_compute; reflexivity)) as (z & Hz & Hround).
  exists z. split; [vm_compute; reflexivity |].
  split; [exact Hz | split; [exact Hround |]].
  vm_compute in Hz. congruence.
Defined.

End Examples64.

(** ** The two analyzers side by side *)

Section Bridge.
Import Text Shape Forms Forms64 RegExp Number Spec Rules Binary64.

(** The two rule tables have the same patterns and rate a statement alike;
    only the durations are computed differently. *)
Lemma RULES_agree :
  Forall2 (fun (rule : Analyzer.Rule) (rule64 : Analyzer64.Rule) =>
             Analyzer.pattern rule = Analyzer64.pattern rule64
             /\ forall m m64 stmt t,
                  sameButDuration (Analyzer.assess rule m stmt t)
                                  (Analyzer64.assess rule64 m64 stmt t))
          Analyzer.RULES Analyzer64.RULES.
Proof.
  unfold Analyzer.RULES, Analyzer64.RULES.
  repeat constructor;
    cbn [Analyzer.assess Analyzer64.assess Analyzer.ADD_COLUMN Analyzer64.ADD_COLUMN];
    try match goal with
      | |- context [if ?b then _ else _] => destruct b
      end; reflexivity.
Qed.

Lemma applyRules_agree (metaMap : gmap string Analyzer.TableMeta)
    (metaMap64 : gmap string Analyzer64.TableMeta) (stmt : string)
    (ops : list Analyzer.RiskItem) (ops64 : list Analyzer64.RiskItem) :
  Forall2 sameButDuration ops ops64 ->
  Forall2 sameButDuration
    (Analyzer.applyRules Analyzer.RULES metaMap stmt ops)
    (Analyzer64.applyRules Analyzer64.RULES metaMap64 stmt ops64).
Proof.
  intros Hops. pose proof RULES_agree as Hrules. revert Hrules.
  generalize Analyzer.RULES as rules, Analyzer64.RULES as rules64.
  intros rules rules64 Hrules.
  induction Hrules as [|rule rule64 rules rules64 [Hpattern Hassess] _ IH];
    cbn [Analyzer.applyRules Analyzer64.applyRules]; [exact Hops |].
  rewrite <- Hpattern.
  destruct (exec (Analyzer.pattern rule) stmt) as [m |]; [| exact IH].
  cbv zeta. apply Forall2_app; [exact Hops |].
  constructor; [apply Hassess | constructor].
Qed.

(** The report of the analyzer in exact arithmetic and that of the
    analyzer in binary64 list the same items, but for their durations, and
    have the same overall risk, whatever metadata each is given. *)
Lemma analyze_agree (sql : string) (tableMeta : list Analyzer.TableMeta)
    (tableMeta64 : list Analyzer64.TableMeta) :
  Forall2 sameButDuration
    (Analyzer.operations (Analyzer.analyze sql tableMeta))
    (Analyzer64.operations (Analyzer64.analyze sql tableMeta64))
  /\ Analyzer.overallRisk (Analyzer.analyze sql tableMeta)
     = Analyzer64.overallRisk (Analyzer64.analyze sql tableMeta64).
Proof.
  unfold Analyzer.analyze, Analyzer64.analyze.
  cbn [Analyzer.operations Analyzer64.operations
       Analyzer.overallRisk Analyzer64.overallRisk].
  set (ops := fold_left _ (Analyzer.statements sql) []).
  set (ops64 := fold_left _ (Analyzer.statements sql) []).
  assert (Forall2 sameButDuration ops ops64) as Hops.
  { unfold ops, ops64.
    assert (Forall2 sameButDuration [] []) as Hnil by constructor.
    revert Hnil. generalize (@nil Analyzer.RiskItem) as acc,
                            (@nil Analyzer64.RiskItem) as acc64.
    induction (Analyzer.statements sql) as [|stmt stmts IH];
      intros acc acc64 Hacc; cbn [fold_left]; [exact Hacc |].
    apply IH. now apply applyRules_agree. }
  split; [exact Hops |].
  assert (forall acc,
             fold_left (fun max op =>
                          if (Analyzer.SCORES (Analyzer.riskLevel op)
                              >? Analyzer.SCORES max)%Z
                          then Analyzer.riskLevel op else max) ops acc
             = fold_left (fun max op =>
                            if (Analyzer.SCORES (Analyzer64.riskLevel op)
                                >? Analyzer.SCORES max)%Z
                            then Analyzer64.riskLevel op else max) ops64 acc)
    as Hfold.
  { induction Hops as [|a b l l' Hab _ IH]; intros acc; cbn [fold_left];
      [reflexivity |].
    destruct Hab as (_ & _ & <- & _). apply IH. }
  apply Hfold.
Qed.

End Bridge.

(** ** Row counts and durations in binary64 *)

Section Lookup64.
Import Text Shape Forms RegExp RegExp.Notations Number Spec Binary64 Analyzer64.
Import Analyzer (RiskLevel, low, medium, high, critical, SCORES, statements, tableOf).

Lemma buildMetaMap64_fold (l : list TableMeta) (m : gmap string TableMeta)
    (key : string) :
  fold_left (fun m t => <[toLowerCase (name t) := t]> m) l m !! key
  = match Forms64.lastNamed key l with
    | Some t => Some t
    | None => m !! key
    end.
Proof.
  revert m. unfold Forms64.lastNamed.
  induction l as [|a l IH]; intros m; [reflexivity |].
  cbn [fold_left rev]. rewrite IH, find_last.
  destruct (List.find _ (rev l)); [reflexivity |].
  destruct (String.eqb_spec (toLowerCase (name a)) key) as [-> | Hne].
  - apply lookup_insert_eq.
  - now apply lookup_insert_ne.
Qed.

Lemma metaFor64_buildMetaMap (tableMeta : list TableMeta) (table : string) :
  metaFor (buildMetaMap tableMeta) table
  = match Forms64.lastNamed (toLowerCase table) tableMeta with
    | Some meta => meta
    | None => {| name := table; rowCount := ofZ 100000; sizeBytes := ofZ 10000000 |}
    end.
Proof.
  unfold metaFor, buildMetaMap.
  rewrite buildMetaMap64_fold.
  destruct (Forms64.lastNamed (toLowerCase table) tableMeta); [reflexivity |].
  rewrite lookup_empty. reflexivity.
Qed.

(** X12. ALTER TABLE t DROP COLUMN c, for every table and column, gives
    one high item that loses data, and its estimated duration is the
    binary64 product of the row count of the table and 0.01: the row count
    of the last metadata record whose name equals the table up to letter
    case, or 100,000 when there is none. *)
Theorem drop_column_scales_with_rows :
  forall (tbl col : string) (tableMeta : list TableMeta),
    isIdentifier tbl = true ->
    isIdentifier col = true ->
    let rows :=
      match Forms64.lastNamed (toLowerCase tbl) tableMeta with
      | Some meta => rowCount meta
      | None => ofZ 100000
      end in
    operations (analyze (dropColumn tbl col +:+ ";") tableMeta)
    = [ {| operation := "DROP COLUMN"; table := tbl; riskLevel := high;
           lockType := "ACCESS EXCLUSIVE"; estimatedDurationMs := mul rows R;
           dataLoss := true;
           suggestion :=
             "Column data will be permanently lost. Add deprecation period first." |} ].
Proof.
  intros tbl col tableMeta Htbl Hcol rows.
  unfold analyze. cbn [operations].
  rewrite (statements_dropColumn tbl col Htbl Hcol).
  cbn [fold_left]. unfold RULES.
  cbn [applyRules pattern DROP_TABLE DROP_COLUMN].
  rewrite (exec_dropTable_on_dropColumn tbl col Htbl Hcol),
    (exec_dropColumn tbl col Htbl).
  cbv zeta.
  assert (tableOf (Some tbl) = tbl) as ->
      by (destruct (isIdentifier_inv tbl Htbl) as (c & w & -> & _ & _);
          reflexivity).
  rewrite metaFor64_buildMetaMap. unfold rows.
  destruct (Forms64.lastNamed (toLowerCase tbl) tableMeta); reflexivity.
Qed.

Lemma drop_column_scales_with_rows_witness :
  isIdentifier "Users" = true
  /\ isIdentifier "legacy" = true
  /\ map estimatedDurationMs
         (operations
            (analyze (dropColumn "Users" "legacy" +:+ ";")
               [ {| name := "USERS"; rowCount := ofZ 57; sizeBytes := ofZ 8192 |} ]))
     = [mul (ofZ 57) R]
  /\ mul (ofZ 57) R = S754_finite false 5134103575202366 (-53).
Proof.
  split; [reflexivity | split; [reflexivity |]].
  rewrite (drop_column_scales_with_rows "Users" "legacy"
             [ {| name := "USERS"; rowCount := ofZ 57; sizeBytes := ofZ 8192 |} ]
             eq_refl eq_refl).
  split; reflexivity.
Defined.

End Lookup64.

(** ** The HTTP endpoint *)

Section ServerProperties.
Import Text Shape Forms Binary64 Server.
Import Analyzer (statements).

(** X19. The endpoint answers 400 with the error message exactly when
    the [sql] field is not a string or is the empty string, whatever
    [tableMeta] holds. With a [sql] that is a string and not empty: an
    absent [tableMeta] stands for no metadata and an array of named
    records is passed on, and the answer is 200 with the report of
    [analyze]; a [tableMeta] that is no array, or an array with an element
    that has no string for its name, makes the handler throw. A string of
    blanks is not empty: without metadata it is answered 200 with the
    empty report. *)
Theorem postAnalyze_status :
  forall body : Body,
    (postAnalyze body
     = Answers {| status := 400;
                  payload := Error "'sql' field is required and must be a string" |}
     <-> (forall s : string, sql body = Str s -> s = ""))
    /\ (forall s : string,
           sql body = Str s -> s <> "" ->
           match tableMeta body with
           | Absent =>
               postAnalyze body
               = Answers {| status := 200;
                            payload := Report (Analyzer64.analyze s []) |}
           | NotAnArray => postAnalyze body = Throws
           | Entries entries =>
               (forall metas : list Analyzer64.TableMeta,
                   entries = map Named metas ->
                   postAnalyze body
                   = Answers {| status := 200;
                                payload := Report (Analyzer64.analyze s metas) |})
               /\ (In Unnamed entries -> postAnalyze body = Throws)
           end)
    /\ (forall s : string,
           sql body = Str s -> s <> "" ->
           allChars (fun c => isSpace c || Ascii.eqb c ";") s = true ->
           tableMeta body = Absent ->
           postAnalyze body
           = Answers {| status := 200;
                        payload :=
                          Report {| Analyzer64.operations := [];
                                    Analyzer64.overallRisk := Analyzer.low;
                                    Analyzer64.totalEstimatedDurationMs := Int 0;
                                    Analyzer64.score := Int 0 |} |}).
Proof.
  intros body.
  assert (forall metas, records (map Named metas) = Some metas) as Hnamed.
  { induction metas as [|meta metas IH]; cbn [map records]; [reflexivity |].
    now rewrite IH. }
  assert (forall entries, In Unnamed entries -> records entries = None) as Hunnamed.
  { induction entries as [|entry entries IH]; [intros [] |].
    intros [-> | Hin]; [reflexivity |].
    cbn [records]. destruct entry; [| reflexivity].
    now rewrite (IH Hin). }
  assert (forall s, sql body = Str s -> s <> "" ->
                    falsy (sql body) || notString (sql body) = false) as Hgood.
  { intros s Hs Hne. rewrite Hs. cbn [falsy notString].
    destruct s; [congruence | reflexivity]. }
  split; [| split].
  - split.
    + intros H s Hs. destruct s as [|c s]; [reflexivity |].
      exfalso. unfold postAnalyze in H.
      rewrite (Hgood (String c s) Hs) in H by discriminate.
      destruct (tableMeta body) as [| | entries]; try discriminate H.
      destruct (records entries); discriminate H.
    + intros Hnone. unfold postAnalyze.
      destruct (sql body) as [| | b | x | s |] eqn:E; cbn [falsy notString];
        rewrite ?orb_true_r; try reflexivity.
      rewrite (Hnone s eq_refl). reflexivity.
  - intros s Hs Hne. unfold postAnalyze. rewrite (Hgood s Hs Hne), Hs.
    cbn [textOf].
    destruct (tableMeta body) as [| | entries]; [reflexivity | reflexivity |].
    split.
    + intros metas ->. now rewrite Hnamed.
    + intros Hin. now rewrite (Hunnamed entries Hin).
  - intros s Hs Hne Hblank Habsent. unfold postAnalyze.
    rewrite (Hgood s Hs Hne), Hs, Habsent. cbn [textOf].
    unfold Analyzer64.analyze. rewrite (statements_blank s Hblank). reflexivity.
Qed.

Lemma postAnalyze_status_witness :
  let good :=
    {| sql := Str "DROP TABLE users;";
       tableMeta :=
         Entries [ Named {| Analyzer64.name := "users";
                            Analyzer64.rowCount := ofZ 5000;
                            Analyzer64.sizeBytes := ofZ 8192 |} ] |} in
  let bad :=
    {| sql := Str "DROP TABLE users;"; tableMeta := Entries [Unnamed] |} in
  postAnalyze good
  = Answers {| status := 200;
               payload :=
                 Report (Analyzer64.analyze "DROP TABLE users;"
                           [ {| Analyzer64.name := "users";
                                Analyzer64.rowCount := ofZ 5000;
                                Analyzer64.sizeBytes := ofZ 8192 |} ]) |}
  /\ postAnalyze bad = Throws.
Proof.
  cbv zeta.
  assert ("DROP TABLE users;" <> "") as Hne by discriminate.
  split.
  - pose proof (proj1 (proj2 (postAnalyze_status
             {| sql := Str "DROP TABLE users;";
                tableMeta :=
                  Entries [ Named {| Analyzer64.name := "users";
                                     Analyzer64.rowCount := ofZ 5000;
                                     Analyzer64.sizeBytes := ofZ 8192 |} ] |}))
             "DROP TABLE users;" eq_refl Hne) as [H _].
    apply H. reflexivity.
  - pose proof (proj1 (proj2 (postAnalyze_status
             {| sql := Str "DROP TABLE users;"; tableMeta := Entries [Unnamed] |}))
             "DROP TABLE users;" eq_refl Hne) as [_ H].
    apply H. now left.
Defined.

End ServerProperties.

(** ** What a pattern matches, and what the matcher finds *)

Section MatchingFacts.
Import Text Shape Forms RegExp RegExp.Notations Matching.

Lemma append_assoc (a b c : string) : (a +:+ b) +:+ c = a +:+ b +:+ c.
Proof. induction a as [|x a IH]; simpl; [reflexivity | now rewrite IH]. Qed.

Lemma append_cancel_r (a b c : string) : a +:+ c = b +:+ c -> a = b.
Proof.
  intros H. rewrite <- (consumed_append a c), <- (consumed_append b c).
  now rewrite H.
Qed.

Lemma stripPrefix_inv (t s s' : string) :
  stripPrefix t s = Some s' ->
  exists mid, s = mid +:+ s' /\ toUpperCase mid = toUpperCase t.
Proof.
  revert t. induction s as [|b s IH]; intros t; simpl.
  - destruct t; simpl; [| discriminate]. intros [= <-]. now exists "".
  - destruct t as [|a t].
    + intros [= <-]. now exists "".
    + destruct (sameLetter a b) eqn:E; [| discriminate].
      intros H. destruct (IH t H) as (mid & -> & Hmid).
      exists (String b mid). split; [reflexivity |].
      unfold sameLetter in E. apply Ascii.eqb_eq in E.
      cbn [toUpperCase mapChars]. unfold toUpperCase in Hmid.
      now rewrite Hmid, E.
Qed.

Lemma star_complete (p : ascii -> bool) (k : Cont) (s : string) (cap : Captures) :
  star p k s cap = None ->
  forall w s', s = w +:+ s' -> allChars p w = true -> k s' cap = None.
Proof.
  induction s as [|c s IH]; simpl.
  - intros H w s' Heq _. destruct w; [| discriminate].
    simpl in Heq. now subst s'.
  - intros H w s' Heq Hw. destruct w as [|d w].
    + simpl in Heq. subst s'.
      destruct (p c); [| exact H].
      now destruct (star p k s cap).
    + simpl in Heq. injection Heq as <- ->.
      simpl in Hw. apply andb_prop in Hw as [Hc Hw]. rewrite Hc in H.
      destruct (star p k (w +:+ s') cap) eqn:E; [discriminate |].
      now apply (IH eq_refl w s').
Qed.

Lemma star_sound (p : ascii -> bool) (k : Cont) (s : string) (cap res : Captures) :
  star p k s cap = Some res ->
  exists w s', s = w +:+ s' /\ allChars p w = true /\ k s' cap = Some res.
Proof.
  induction s as [|c s IH]; simpl.
  - intros H. now exists "", "".
  - intros H.
    assert (k (String c s) cap = Some res ->
            exists w s', String c s = w +:+ s' /\ allChars p w = true
                         /\ k s' cap = Some res) as Hhere
        by (intros Hk; now exists "", (String c s)).
    destruct (p c) eqn:Hc; [| now apply Hhere].
    destruct (star p k s cap) as [res' |] eqn:E; [| now apply Hhere].
    injection H as ->. destruct (IH eq_refl) as (w & s' & -> & Hw & Hk).
    exists (String c w), s'. simpl. now rewrite Hc, Hw.
Qed.

Lemma matches_suffix (r : RegExp.t) :
  forall s cap s' cap', matches r s cap s' cap' -> exists u, s = u +:+ s'.
Proof.
  induction r as [t | cl | r1 IH1 r2 IH2 | r1 IH1 | r1 IH1 | r1 IH1];
    intros s cap s' cap'; cbn [matches].
  - intros [(mid & -> & _) _]. now exists mid.
  - intros [(w & -> & _) _]. now exists w.
  - intros (s1 & cap1 & H1 & H2).
    destruct (IH1 _ _ _ _ H1) as (u1 & ->).
    destruct (IH2 _ _ _ _ H2) as (u2 & ->).
    exists (u1 +:+ u2). now rewrite append_assoc.
  - intros [H | [-> _]]; [now apply (IH1 _ _ _ _ H) | now exists ""].
  - intros (w & cap1 & _ & -> & _). now exists w.
  - intros (_ & -> & _). now exists "".
Qed.

(** The matcher finds a match exactly when the pattern has one: it fails
    only if the continuation turns down every match, and what it returns
    the continuation returned on a match. *)
Lemma run_adequate (r : RegExp.t) :
  (forall k s cap,
      run r k s cap = None ->
      forall s' cap', matches r s cap s' cap' -> k s' cap' = None)
  /\ (forall k s cap res,
         run r k s cap = Some res ->
         exists s' cap', matches r s cap s' cap' /\ k s' cap' = Some res).
Proof.
  induction r as [t | cl | r1 [IC1 IS1] r2 [IC2 IS2] | r1 [IC1 IS1]
                 | r1 [IC1 IS1] | r1 [IC1 IS1]]; cbn [run matches]; split.
  - intros k s cap H s' cap' [(mid & -> & Hmid) ->].
    now rewrite (stripPrefix_same_upper t mid s' Hmid) in H.
  - intros k s cap res H.
    destruct (stripPrefix t s) as [s' |] eqn:E; [| discriminate].
    exists s', cap. split; [| exact H].
    split; [now apply stripPrefix_inv | reflexivity].
  - intros k s cap H s' cap' [(w & -> & Hne & Hw) ->].
    destruct w as [|c w]; [discriminate |].
    simpl in Hw. apply andb_prop in Hw as [Hc Hw].
    cbn [plus String.append] in H. rewrite Hc in H.
    now apply (star_complete _ _ _ _ H w s').
  - intros k s cap res H. destruct s as [|c s]; [discriminate |].
    cbn [plus] in H. destruct (inClass cl c) eqn:Hc; [| discriminate].
    destruct (star_sound _ _ _ _ _ H) as (w & s' & -> & Hw & Hk).
    exists s', cap. split; [| exact Hk].
    split; [| reflexivity]. exists (String c w).
    split; [reflexivity | split; [reflexivity |]]. simpl. now rewrite Hc, Hw.
  - intros k s cap H s' cap' (s1 & cap1 & H1 & H2).
    apply (IC2 k s1 cap1); [| exact H2].
    now apply (IC1 (run r2 k) s cap H).
  - intros k s cap res H.
    destruct (IS1 _ _ _ _ H) as (s1 & cap1 & H1 & Hk1).
    destruct (IS2 _ _ _ _ Hk1) as (s' & cap' & H2 & Hk).
    exists s', cap'. split; [| exact Hk]. now exists s1, cap1.
  - intros k s cap H s' cap' [Hm | [-> ->]].
    + destruct (run r1 k s cap) eqn:E; [discriminate |].
      now apply (IC1 k s cap E).
    + now destruct (run r1 k s cap).
  - intros k s cap res H.
    destruct (run r1 k s cap) as [res' |] eqn:E.
    + injection H as ->. destruct (IS1 _ _ _ _ E) as (s' & cap' & Hm & Hk).
      exists s', cap'. split; [now left | exact Hk].
    + exists s, cap. split; [now right | exact H].
  - intros k s cap H s' cap' (w & cap1 & Hm & -> & ->).
    pose proof (IC1 _ _ _ H _ _ Hm) as Hk. cbn beta in Hk.
    now rewrite consumed_append in Hk.
  - intros k s cap res H.
    destruct (IS1 _ _ _ _ H) as (s' & cap1 & Hm & Hk). cbn beta in Hk.
    destruct (matches_suffix _ _ _ _ _ Hm) as (u & ->).
    rewrite consumed_append in Hk.
    exists s', (Some u). split; [| exact Hk]. now exists u, cap1.
  - intros k s cap H s' cap' (Hno & -> & ->).
    destruct (run r1 accept s cap) as [res |] eqn:E; [| exact H].
    destruct (IS1 _ _ _ _ E) as (s1 & cap1 & Hm & _).
    destruct (Hno _ _ Hm).
  - intros k s cap res H.
    destruct (run r1 accept s cap) as [res' |] eqn:E; [discriminate |].
    exists s, cap. split; [| exact H].
    split; [| split; reflexivity].
    intros s1 cap1 Hm. pose proof (IC1 _ _ _ E _ _ Hm) as Hk. discriminate Hk.
Qed.

Lemma exec_sound (r : RegExp.t) (s : string) (cap : Captures) :
  exec r s = Some cap ->
  exists pre t s', s = pre +:+ t /\ matches r t None s' cap.
Proof.
  induction s as [|c s IH]; cbn [exec].
  - destruct (run r accept "" None) as [res |] eqn:E; [| discriminate].
    intros [= ->]. destruct (proj2 (run_adequate r) _ _ _ _ E) as (s' & cap' & Hm & Hk).
    injection Hk as ->. now exists "", "", s'.
  - destruct (run r accept (String c s) None) as [res |] eqn:E.
    + intros [= ->].
      destruct (proj2 (run_adequate r) _ _ _ _ E) as (s' & cap' & Hm & Hk).
      injection Hk as ->. now exists "", (String c s), s'.
    + intros H. destruct (IH H) as (pre & t & s' & -> & Hm).
      now exists (String c pre), t, s'.
Qed.

Lemma exec_complete (r : RegExp.t) (s : string) :
  exec r s = None ->
  forall pre t s' cap, s = pre +:+ t -> ~ matches r t None s' cap.
Proof.
  induction s as [|c s IH]; cbn [exec].
  - destruct (run r accept "" None) eqn:E; [discriminate |].
    intros _ pre t s' cap Heq Hm. destruct pre; [| discriminate].
    simpl in Heq. subst t.
    pose proof (proj1 (run_adequate r) _ _ _ E _ _ Hm) as Hk. discriminate Hk.
  - destruct (run r accept (String c s) None) eqn:E; [discriminate |].
    intros H pre t s' cap Heq Hm. destruct pre as [|d pre].
    + simpl in Heq. subst t.
      pose proof (proj1 (run_adequate r) _ _ _ E _ _ Hm) as Hk. discriminate Hk.
    + simpl in Heq. injection Heq as <- ->.
      now apply (IH H pre t s' cap).
Qed.

End MatchingFacts.

(** ** The two words the ADD COLUMN rule looks for *)

Section AddColumnWords.
Import Text Shape Forms RegExp RegExp.Notations Matching Wording Number Analyzer Spec Rules.
Local Open Scope Q_scope.

Lemma test_iff (r : RegExp.t) (s : string) :
  test r s = true <-> exists pre t s' cap, s = pre +:+ t /\ matches r t None s' cap.
Proof.
  unfold test. split.
  - destruct (exec r s) as [cap |] eqn:E; [| discriminate]. intros _.
    destruct (exec_sound _ _ _ E) as (pre & t & s' & Heq & Hm).
    now exists pre, t, s', cap.
  - intros (pre & t & s' & cap & Heq & Hm).
    destruct (exec r s) eqn:E; [reflexivity |].
    destruct (exec_complete _ _ E _ _ _ _ Heq Hm).
Qed.

(** The two tests of the ADD COLUMN rule, read off the text. *)
Lemma test_DEFAULT (s : string) : test DEFAULT s = true <-> mentionsDefault s.
Proof.
  rewrite test_iff. unfold DEFAULT, mentionsDefault. cbn [matches]. split.
  - intros (pre & t & s' & cap & -> & (mid & -> & Hmid) & _).
    now exists pre, mid, s'.
  - intros (pre & d & post & -> & Hd).
    exists pre, (d +:+ post), post, None. split; [reflexivity |].
    split; [| reflexivity]. now exists d.
Qed.

Lemma test_NOT_NULL (s : string) : test NOT_NULL s = true <-> mentionsNotNull s.
Proof.
  rewrite test_iff. unfold NOT_NULL, mentionsNotNull, blank. cbn [matches inClass].
  split.
  - intros (pre & t & s' & cap & -> & s1 & cap1 & ((n & -> & Hn) & _)
            & s2 & cap2 & ((w & -> & Hne & Hw) & _) & (l & -> & Hl) & _).
    exists pre, n, w, l, s'. repeat split; try assumption.
    now rewrite Hne, Hw.
  - intros (pre & n & w & l & post & -> & Hn & Hw & Hl).
    apply andb_prop in Hw as [Hne Hw]. apply negb_true_iff in Hne.
    exists pre, (n +:+ w +:+ l +:+ post), post, None. split; [reflexivity |].
    exists (w +:+ l +:+ post), None. split; [split; [now exists n | reflexivity] |].
    exists (l +:+ post), None. split; [split; [now exists w | reflexivity] |].
    split; [now exists l | reflexivity].
Qed.



End AddColumnWords.

(** ** The table of an item *)

Section CapturedTable.
Import Text Shape Forms RegExp RegExp.Notations Matching Wording Number Analyzer Spec Rules.
Local Open Scope Q_scope.

(** What a pattern whose groups are all [(\w+)] does to the capture: it
    leaves it alone, or sets it to an identifier found in the text; and it
    sets it when a group lies on every way through the pattern. *)
Lemma matches_capture (r : RegExp.t) :
  capturesWords r = true ->
  forall s cap s' cap',
    matches r s cap s' cap' ->
    (cap' = cap /\ setsCapture r = false)
    \/ (exists a w b, s = a +:+ w +:+ b /\ isIdentifier w = true /\ cap' = Some w).
Proof.
  induction r as [t | cl | r1 IH1 r2 IH2 | r1 IH1 | r1 IH1 | r1 IH1];
    intros Hr s cap s' cap'; cbn [matches setsCapture].
  - intros [_ ->]. now left.
  - intros [_ ->]. now left.
  - cbn [capturesWords] in Hr. apply andb_prop in Hr as [Hr1 Hr2].
    intros (s1 & cap1 & H1 & H2).
    destruct (matches_suffix _ _ _ _ _ H1) as (u & ->).
    destruct (IH2 Hr2 _ _ _ _ H2) as [[-> Hs2] | (a & w & b & -> & Hw & ->)].
    + destruct (IH1 Hr1 _ _ _ _ H1) as [[-> Hs1] | (a & w & b & Heq & Hw & ->)].
      * left. now rewrite Hs1, Hs2.
      * right. now exists a, w, b.
    + right. exists (u +:+ a), w, b. now rewrite append_assoc.
  - intros [H | [-> ->]]; [| now left].
    destruct (IH1 Hr _ _ _ _ H) as [[-> _] | Hset]; [now left | now right].
  - destruct r1 as [| [|] | | | |]; try discriminate Hr.
    cbn [matches inClass].
    intros (w & cap1 & [(w0 & Heq & Hne & Hw0) _] & -> & ->).
    right. exists "", w, s'. split; [reflexivity |]. split; [| reflexivity].
    apply append_cancel_r in Heq. subst w0.
    unfold isIdentifier. now rewrite Hne, Hw0.
  - intros (_ & -> & ->). now left.
Qed.

Lemma RULES_set_capture :
  Forall (fun rule => setsCapture (pattern rule) = true) RULES.
Proof. unfold RULES. repeat constructor. Qed.

(** A match of a rule always has its group: an identifier, taken from the
    statement. *)
Lemma firstMatch_captured (stmt : string) (rule : Rule) (m : Captures) :
  firstMatch RULES stmt = Some (rule, m) ->
  exists pre w post,
    m = Some w /\ isIdentifier w = true /\ stmt = pre +:+ w +:+ post.
Proof.
  intros Hfirst.
  assert (In rule RULES) as Hrule by (eapply firstMatch_In; exact Hfirst).
  assert (exec (pattern rule) stmt = Some m) as Hexec.
  { revert Hfirst. generalize RULES as rules.
    induction rules as [|r rules IH]; cbn [firstMatch]; [discriminate |].
    destruct (exec (pattern r) stmt) as [cap |] eqn:E; [| exact IH].
    now intros [= <- <-]. }
  destruct (exec_sound _ _ _ Hexec) as (pre & t & s' & -> & Hm).
  pose proof RULES_capture_words as Hwords. rewrite Forall_forall in Hwords.
  pose proof RULES_set_capture as Hsets. rewrite Forall_forall in Hsets.
  apply list_elem_of_In in Hrule.
  destruct (matches_capture _ (Hwords _ Hrule) _ _ _ _ Hm)
    as [[_ Hno] | (a & w & b & -> & Hw & ->)].
  - rewrite (Hsets _ Hrule) in Hno. discriminate Hno.
  - exists (pre +:+ a), w, b. now rewrite append_assoc.
Qed.

(** X9. Every match of a rule has its capture group: an identifier (one
    or more word characters, without quotes, white space or punctuation)
    that stands in the statement, so that the fallback name [unknown] is
    never used; and the table of every item of a report is such an
    identifier, found in a statement of the script. *)
Theorem item_table_is_identifier :
  forall (sql : string) (tableMeta : list TableMeta),
    (forall (stmt : string) (rule : Rule) (m : Captures),
        firstMatch RULES stmt = Some (rule, m) ->
        exists pre w post : string,
          m = Some w /\ isIdentifier w = true /\ tableOf m = w
          /\ stmt = pre +:+ w +:+ post)
    /\ Forall (fun item =>
                 isIdentifier (table item) = true
                 /\ exists stmt pre post : string,
                      In stmt (statements sql)
                      /\ stmt = pre +:+ table item +:+ post)
              (operations (analyze sql tableMeta)).
Proof.
  intros sql tableMeta.
  assert (forall (stmt : string) (rule : Rule) (m : Captures),
             firstMatch RULES stmt = Some (rule, m) ->
             exists pre w post : string,
               m = Some w /\ isIdentifier w = true /\ tableOf m = w
               /\ stmt = pre +:+ w +:+ post) as Hcap.
  { intros stmt rule m Hfirst.
    destruct (firstMatch_captured _ _ _ Hfirst) as (pre & w & post & -> & Hw & ->).
    exists pre, w, post. repeat split; try assumption.
    destruct (isIdentifier_inv w Hw) as (c & w' & -> & _ & _). reflexivity. }
  split; [exact Hcap |].
  apply Forall_forall. intros item Hin.
  apply list_elem_of_In in Hin.
  destruct (operations_origin _ _ _ Hin) as (stmt & rule & m & Hstmt & Hfirst & Hrule & ->).
  rewrite (assess_table _ _ _ _ Hrule).
  destruct (Hcap _ _ _ Hfirst) as (pre & w & post & _ & Hw & -> & Heq).
  split; [exact Hw |]. now exists stmt, pre, post.
Qed.

End CapturedTable.

(** ** Where a pattern of the rule table can begin *)

Section Openings.
Import Text Shape Forms RegExp RegExp.Notations Wording IndexForms Number Analyzer Spec Rules.

Lemma isSpace_not_isWord (c : ascii) : isSpace c = true -> isWord c = false.
Proof.
  intros H. destruct (isWord c) eqn:E; [| reflexivity].
  now rewrite (isWord_not_isSpace c E) in H.
Qed.

Lemma sameLetter_space (a c : ascii) :
  isSpace a = false -> isSpace c = true -> sameLetter a c = false.
Proof.
  intros Ha Hc. unfold sameLetter.
  destruct (Ascii.eqb_spec (upperChar a) (upperChar c)) as [E |]; [| reflexivity].
  rewrite <- (isSpace_upperChar a), E, isSpace_upperChar in Ha. congruence.
Qed.

Lemma stripPrefix_space (t : string) (c : ascii) (s : string) :
  isEmpty t = false -> beginsWithText t = true -> isSpace c = true ->
  stripPrefix t (String c s) = None.
Proof.
  destruct t as [|a t]; [discriminate |]. simpl. intros _ Ha Hc.
  apply negb_true_iff in Ha. now rewrite (sameLetter_space a c Ha Hc).
Qed.

(** A pattern that cannot start with white space fails where the text
    goes on with white space. *)
Lemma run_rejectsSpace_both (r : RegExp.t) :
  (rejectsSpace r = true ->
   forall (k : Cont) (c : ascii) (s : string) (cap : Captures),
     isSpace c = true -> run r k (String c s) cap = None)
  /\ (forall r1, r = Opt r1 -> rejectsSpace r1 = true ->
      forall (k : Cont) (c : ascii) (s : string) (cap : Captures),
        isSpace c = true -> run r1 k (String c s) cap = None).
Proof.
  induction r as [t | cl | r1 [IH1 IO1] r2 [IH2 _] | r1 [IH1 _] | r1 [IH1 _]
                 | r1 [IH1 _]];
    (split; [| try (intros r0 [=]; fail)]).
  - cbn [rejectsSpace]. intros Hr k c s cap Hc.
    apply andb_prop in Hr as [Hne Ht]. apply negb_true_iff in Hne.
    cbn [run]. now rewrite stripPrefix_space.
  - cbn [rejectsSpace]. intros Hr k c s cap Hc.
    destruct cl; [discriminate |]. cbn [run plus inClass].
    now rewrite (isSpace_not_isWord c Hc).
  - intros Hr k c s cap Hc.
    destruct r1 as [t | cl | r11 r12 | r11 | r11 | r11];
      cbn [rejectsSpace] in Hr.
    + cbn [run]. cbn [run] in IH1. now apply IH1.
    + cbn [run]. cbn [run] in IH1. now apply IH1.
    + change (run (Seq (Seq r11 r12) r2) k) with (run (Seq r11 r12) (run r2 k)).
      now apply IH1.
    + apply andb_prop in Hr as [Hr1 Hr2].
      change (run (Seq (Opt r11) r2) k (String c s) cap)
        with (match run r11 (run r2 k) (String c s) cap with
              | Some res => Some res
              | None => run r2 k (String c s) cap
              end).
      rewrite (IO1 r11 eq_refl Hr1 _ c s cap Hc). now apply IH2.
    + change (run (Seq (Group r11) r2) k) with (run (Group r11) (run r2 k)).
      now apply IH1.
    + change (run (Seq (NotAhead r11) r2) k (String c s) cap)
        with (match run r11 accept (String c s) cap with
              | Some _ => None
              | None => run r2 k (String c s) cap
              end).
      destruct (run r11 accept (String c s) cap); [reflexivity | now apply IH2].
  - discriminate.
  - intros r0 [= <-]. exact IH1.
  - cbn [rejectsSpace run]. intros Hr k c s cap Hc. now apply IH1.
  - discriminate.
Qed.

Lemma run_rejectsSpace (r : RegExp.t) (k : Cont) (c : ascii) (s : string)
    (cap : Captures) :
  rejectsSpace r = true -> isSpace c = true -> run r k (String c s) cap = None.
Proof. intros Hr Hc. now apply (proj1 (run_rejectsSpace_both r)). Qed.

(** *** White space of any length between two words *)

Lemma blank_inv (w : string) :
  blank w = true ->
  exists c w', w = String c w' /\ isSpace c = true /\ allChars isSpace w' = true.
Proof.
  unfold blank. destruct w as [|c w']; [discriminate |]. simpl.
  intros H. apply andb_prop in H as [Hc Hw]. now exists c, w'.
Qed.

Lemma star_blank (k : Cont) (w s : string) (cap : Captures) :
  allChars isSpace w = true ->
  beginsWithText s = true ->
  (forall c s', isSpace c = true -> k (String c s') cap = None) ->
  star isSpace k (w +:+ s) cap = k s cap.
Proof.
  intros Hw Hs Hk. induction w as [|c w IH].
  - destruct s as [|d s]; [reflexivity |]. simpl in Hs.
    apply negb_true_iff in Hs. simpl. now rewrite Hs.
  - simpl in Hw. apply andb_prop in Hw as [Hc Hw].
    change (String c w +:+ s) with (String c (w +:+ s)).
    cbn [star]. rewrite Hc, (IH Hw).
    destruct (k s cap) eqn:E; [reflexivity |]. now apply Hk.
Qed.

Lemma run_blank_end (k : Cont) (w s : string) (cap : Captures) :
  blank w = true ->
  beginsWithText s = true ->
  (forall c s', isSpace c = true -> k (String c s') cap = None) ->
  run \s+ k (w +:+ s) cap = k s cap.
Proof.
  intros Hw Hs Hk. destruct (blank_inv w Hw) as (c & w' & -> & Hc & Hw').
  cbn [run inClass plus String.append]. rewrite Hc. now apply star_blank.
Qed.

Lemma run_blank (r : RegExp.t) (k : Cont) (w s : string) (cap : Captures) :
  blank w = true ->
  beginsWithText s = true ->
  rejectsSpace r = true ->
  run (\s+ >>> r) k (w +:+ s) cap = run r k s cap.
Proof.
  intros Hw Hs Hr. cbn [run]. apply (run_blank_end (run r k) w s cap Hw Hs).
  intros c s' Hc. now apply run_rejectsSpace.
Qed.

Lemma trimStart_blank_text (w s : string) :
  allChars isSpace w = true -> beginsWithText s = true ->
  trimStart (w +:+ s) = s.
Proof.
  intros Hw Hs. induction w as [|c w IH].
  - destruct s as [|d s]; [reflexivity |]. simpl in Hs.
    apply negb_true_iff in Hs. simpl. now rewrite Hs.
  - simpl in Hw. apply andb_prop in Hw as [Hc Hw].
    change (String c w +:+ s) with (String c (w +:+ s)).
    cbn [trimStart]. now rewrite Hc, IH.
Qed.

(** *** How the patterns of the rule table begin *)

Lemma plus_space_none (k : Cont) (rest : string) (cap : Captures) :
  (forall c s', isSpace c = true -> k (String c s') cap = None) ->
  (beginsWithText rest = false -> k (trimStart rest) cap = None) ->
  plus isSpace k rest cap = None.
Proof.
  intros Hspace Hend. destruct rest as [|c rest]; [reflexivity |].
  cbn [plus]. destruct (isSpace c) eqn:Hc; [| reflexivity].
  assert (k (trimStart rest) cap = None) as Hk.
  { specialize (Hend ltac:(simpl; now rewrite Hc)). simpl in Hend.
    now rewrite Hc in Hend. }
  clear Hend Hc c. induction rest as [|d rest IH]; simpl; [exact Hk |].
  simpl in Hk. destruct (isSpace d) eqn:Hd; [| exact Hk].
  rewrite (IH Hk). now apply Hspace.
Qed.

Lemma startsWith_false (t s : string) :
  startsWith t s = false -> stripPrefix t s = None.
Proof. unfold startsWith. now destruct (stripPrefix t s). Qed.

(** A pattern that begins with the word [first], white space and the word
    [second] matches only where the text begins with these words. *)
Lemma run_opening (first second : string) (r : RegExp.t) (k : Cont)
    (s : string) (cap : Captures) :
  isEmpty second = false -> beginsWithText second = true ->
  beginsWithWords first second s = false ->
  run (Lit first >>> \s+ >>> Lit second >>> r) k s cap = None.
Proof.
  intros Hne Hword H. unfold beginsWithWords in H. cbn [run inClass].
  destruct (stripPrefix first s) as [rest |]; [| reflexivity].
  apply plus_space_none.
  - intros c s' Hc. now rewrite stripPrefix_space.
  - intros Hrest. rewrite Hrest in H. cbn [negb andb] in H.
    now rewrite (startsWith_false _ _ H).
Qed.

Lemma run_opening_create_index (k : Cont) (s : string) (cap : Captures) :
  beginsWithWords "CREATE" "INDEX" s = false ->
  beginsWithWords "CREATE" "UNIQUE" s = false ->
  run (pattern CREATE_INDEX) k s cap = None.
Proof.
  intros Hindex Hunique. unfold beginsWithWords in Hindex, Hunique.
  cbn [pattern CREATE_INDEX run inClass].
  destruct (stripPrefix "CREATE" s) as [rest |]; [| reflexivity].
  apply plus_space_none.
  - intros c s' Hc. now rewrite !stripPrefix_space.
  - intros Hrest. rewrite Hrest in Hindex, Hunique. cbn [negb andb] in *.
    now rewrite (startsWith_false _ _ Hindex), (startsWith_false _ _ Hunique).
Qed.

Lemma RULES_open (rule : Rule) (s : string) :
  In rule RULES -> opensRule s = false -> run (pattern rule) accept s None = None.
Proof.
  intros Hrule H. unfold opensRule in H.
  apply orb_false_elim in H as [H Hunique].
  apply orb_false_elim in H as [H Hindex].
  apply orb_false_elim in H as [Hdrop Halter].
  unfold RULES in Hrule.
  repeat (destruct Hrule as [<- | Hrule]); [.. | destruct Hrule];
    solve [ now apply run_opening_create_index
          | apply run_opening; (reflexivity || assumption) ].
Qed.

Lemma exec_unopened (rule : Rule) (s : string) :
  In rule RULES -> occurs opensRule s = false -> exec (pattern rule) s = None.
Proof.
  intros Hrule. induction s as [|c s IH]; cbn [occurs exec]; intros H.
  - apply orb_false_elim in H as [H _]. now rewrite (RULES_open _ _ Hrule H).
  - apply orb_false_elim in H as [H Hs].
    rewrite (RULES_open _ _ Hrule H). now apply IH.
Qed.

Lemma opensRule_space (c : ascii) (s : string) :
  isSpace c = true -> opensRule (String c s) = false.
Proof.
  intros Hc. unfold opensRule, beginsWithWords.
  now rewrite !stripPrefix_space.
Qed.

Lemma exec_skip_blank (rule : Rule) (w s : string) :
  In rule RULES -> allChars isSpace w = true ->
  exec (pattern rule) (w +:+ s) = exec (pattern rule) s.
Proof.
  intros Hrule Hw. induction w as [|c w IH]; [reflexivity |].
  simpl in Hw. apply andb_prop in Hw as [Hc Hw].
  change (String c w +:+ s) with (String c (w +:+ s)).
  rewrite exec_next; [now apply IH |].
  apply RULES_open; [exact Hrule | now apply opensRule_space].
Qed.

Lemma occurs_blank (w s : string) :
  allChars isSpace w = true ->
  occurs opensRule (w +:+ s) = occurs opensRule s.
Proof.
  intros Hw. induction w as [|c w IH]; [reflexivity |].
  simpl in Hw. apply andb_prop in Hw as [Hc Hw].
  change (String c w +:+ s) with (String c (w +:+ s)).
  cbn [occurs]. now rewrite (opensRule_space c _ Hc), IH.
Qed.

End Openings.

(** ** Letter case of the words of a statement *)

Section UpperCaseForms.
Import Text Shape Forms RegExp RegExp.Notations Wording IndexForms Number Analyzer Spec Rules.

#[local] Arguments toUpperCase : simpl never.

Lemma toUpperCase_append (a b : string) :
  toUpperCase (a +:+ b) = toUpperCase a +:+ toUpperCase b.
Proof.
  induction a as [|c a IH]; [reflexivity |].
  change (String c a +:+ b) with (String c (a +:+ b)).
  rewrite !toUpperCase_cons, IH. reflexivity.
Qed.

Lemma allChars_toUpperCase (p : ascii -> bool) (s : string) :
  (forall c, p (upperChar c) = p c) ->
  allChars p (toUpperCase s) = allChars p s.
Proof.
  intros Hp. induction s as [|c s IH]; [reflexivity |].
  rewrite toUpperCase_cons. cbn [allChars]. now rewrite Hp, IH.
Qed.

Lemma blank_toUpperCase (w : string) : blank (toUpperCase w) = blank w.
Proof.
  unfold blank.
  now rewrite isEmpty_toUpperCase, (allChars_toUpperCase _ _ isSpace_upperChar).
Qed.

Lemma beginsWithText_toUpperCase (s : string) :
  beginsWithText (toUpperCase s) = beginsWithText s.
Proof.
  destruct s as [|c s]; [reflexivity |].
  rewrite toUpperCase_cons. cbn [beginsWithText]. now rewrite isSpace_upperChar.
Qed.

Lemma startsWith_toUpperCase (t s : string) :
  startsWith t (toUpperCase s) = startsWith t s.
Proof.
  unfold startsWith. rewrite stripPrefix_toUpperCase.
  now destruct (stripPrefix t s).
Qed.

Lemma beginsWithWords_toUpperCase (first second s : string) :
  beginsWithWords first second (toUpperCase s) = beginsWithWords first second s.
Proof.
  unfold beginsWithWords. rewrite stripPrefix_toUpperCase.
  destruct (stripPrefix first s) as [rest |]; [| reflexivity].
  cbn [option_map].
  now rewrite beginsWithText_toUpperCase, trimStart_toUpperCase,
    startsWith_toUpperCase.
Qed.

Lemma opensRule_toUpperCase (s : string) :
  opensRule (toUpperCase s) = opensRule s.
Proof. unfold opensRule. now rewrite !beginsWithWords_toUpperCase. Qed.

Lemma occurs_toUpperCase (s : string) :
  occurs opensRule (toUpperCase s) = occurs opensRule s.
Proof.
  induction s as [|c s IH]; [reflexivity |].
  rewrite toUpperCase_cons. cbn [occurs]. rewrite IH.
  now rewrite <- toUpperCase_cons, opensRule_toUpperCase.
Qed.

Lemma exec_none_upper (r : RegExp.t) (s : string) :
  exec r (toUpperCase s) = None -> exec r s = None.
Proof. rewrite exec_toUpperCase. now destruct (exec r s). Qed.

End UpperCaseForms.

(** ** CREATE UNIQUE INDEX CONCURRENTLY *)

Section UniqueConcurrent.
Import Text Shape Forms RegExp RegExp.Notations Wording IndexForms Number Analyzer Spec Rules.

Lemma blank_allChars (w : string) : blank w = true -> allChars isSpace w = true.
Proof. unfold blank. intros H. now apply andb_prop in H as [_ H]. Qed.

Lemma beginsWithWords_gap (first second word w s : string) :
  toUpperCase word = toUpperCase first ->
  blank w = true -> beginsWithText s = true ->
  beginsWithWords first second (word +:+ w +:+ s) = startsWith second s.
Proof.
  intros Hword Hw Hs. unfold beginsWithWords.
  rewrite (stripPrefix_same_upper first word _ Hword).
  rewrite (trimStart_blank_text w s (blank_allChars w Hw) Hs).
  destruct (blank_inv w Hw) as (c & w' & -> & Hc & _).
  cbn [String.append beginsWithText]. now rewrite Hc.
Qed.

(** Goes through the fixed text of a statement one position at a time: at
    none of them can a pattern of the rule table begin. *)
Ltac walk Hin :=
  cbn [String.append];
  repeat first
    [ rewrite exec_next by (apply RULES_open; [exact Hin | reflexivity])
    | rewrite exec_skip_blank by (exact Hin || (apply blank_allChars; assumption)) ].

Lemma run_opt_none (r1 r : RegExp.t) (k : Cont) (s : string) (cap : Captures) :
  run r1 (run r k) s cap = None -> run r k s cap = None ->
  run (Opt r1 >>> r) k s cap = None.
Proof. intros H1 H2. cbn [run]. cbn [run] in H1. now rewrite H1. Qed.

Lemma run_notahead_seen (t : string) (r : RegExp.t) (k : Cont)
    (word s : string) (cap : Captures) :
  toUpperCase word = toUpperCase t ->
  run (NotAhead (Lit t) >>> r) k (word +:+ s) cap = None.
Proof.
  intros H. cbn [run]. now rewrite (stripPrefix_same_upper t word s H).
Qed.

Lemma exec_unique_concurrent_upper (gap1 gap2 gap3 rest : string) (rule : Rule) :
  blank gap1 = true -> blank gap2 = true -> blank gap3 = true ->
  occurs opensRule rest = false ->
  In rule RULES ->
  exec (pattern rule)
       ("CREATE" +:+ gap1 +:+ "UNIQUE" +:+ gap2 +:+ "INDEX" +:+ gap3
        +:+ "CONCURRENTLY" +:+ rest) = None.
Proof.
  intros H1 H2 H3 Hrest Hin.
  assert (run (pattern rule) accept
              ("CREATE" +:+ gap1 +:+ "UNIQUE" +:+ gap2 +:+ "INDEX" +:+ gap3
               +:+ "CONCURRENTLY" +:+ rest) None = None) as Hstart.
  { pose proof Hin as Hrule. unfold RULES in Hrule.
    destruct Hrule as [<- | [<- | [<- | [<- | [<- | [<- | [<- | [<- | []]]]]]]]];
      try (apply run_opening; reflexivity).
    - apply run_opening; [reflexivity | reflexivity |].
      now rewrite (beginsWithWords_gap "CREATE" "INDEX" "CREATE" gap1).
    - cbn [pattern CREATE_INDEX].
      rewrite (run_lit _ _ _ _ _ _ (stripPrefix_same_upper "CREATE" "CREATE" _ eq_refl)).
      rewrite run_blank by (assumption || reflexivity).
      apply run_opt_none; [| reflexivity].
      rewrite (run_lit _ _ _ _ _ _ (stripPrefix_same_upper "UNIQUE" "UNIQUE" _ eq_refl)).
      rewrite run_blank_end
        by (assumption || reflexivity
            || (intros c s' Hc; now apply run_rejectsSpace)).
      rewrite (run_lit _ _ _ _ _ _ (stripPrefix_same_upper "INDEX" "INDEX" _ eq_refl)).
      rewrite run_blank by (assumption || reflexivity).
      now apply run_notahead_seen. }
  change ("CREATE" +:+ gap1 +:+ "UNIQUE" +:+ gap2 +:+ "INDEX" +:+ gap3
          +:+ "CONCURRENTLY" +:+ rest)
    with (String "C" ("REATE" +:+ gap1 +:+ "UNIQUE" +:+ gap2 +:+ "INDEX" +:+ gap3
                      +:+ "CONCURRENTLY" +:+ rest)) in *.
  rewrite (exec_next _ _ _ Hstart).
  walk Hin.
  now apply exec_unopened.
Qed.

#[local] Arguments toUpperCase : simpl never.

Lemma exec_unique_concurrent (stmt : string) (rule : Rule) :
  createsUniqueIndexConcurrently stmt ->
  In rule RULES ->
  exec (pattern rule) stmt = None.
Proof.
  intros (create & gap1 & unique & gap2 & index & gap3 & concurrently & rest
          & -> & Hcreate & H1 & Hunique & H2 & Hindex & H3 & Hconcurrently & _
          & Hrest)
         Hin.
  apply exec_none_upper. rewrite !toUpperCase_append.
  rewrite Hcreate, Hunique, Hindex, Hconcurrently.
  apply exec_unique_concurrent_upper;
    rewrite ?blank_toUpperCase, ?occurs_toUpperCase; assumption.
Qed.

Lemma firstMatch_none (rules : list Rule) (stmt : string) :
  (forall rule, In rule rules -> exec (pattern rule) stmt = None) ->
  firstMatch rules stmt = None.
Proof.
  induction rules as [|rule rules IH]; intros H; cbn [firstMatch]; [reflexivity |].
  rewrite (H rule (or_introl eq_refl)). apply IH.
  intros r Hr. apply H. now right.
Qed.

(** C10, as the code has it. For every metadata collection, a statement
    that begins CREATE UNIQUE INDEX CONCURRENTLY (in any letter case, with
    any white space between the words) matches no rule of the table,
    provided that the text after CONCURRENTLY is ASCII and that no pattern
    of the table can begin in it: it holds no DROP TABLE, ALTER TABLE,
    CREATE INDEX or CREATE UNIQUE. A script made of such statements has a
    report without items. *)
Theorem unique_concurrent_index_is_ignored :
  forall (sql : string) (tableMeta : list TableMeta),
    (forall stmt : string,
        In stmt (statements sql) -> createsUniqueIndexConcurrently stmt) ->
    (forall (stmt : string) (rule : Rule),
        In stmt (statements sql) -> In rule RULES ->
        exec (pattern rule) stmt = None)
    /\ operations (analyze sql tableMeta) = [].
Proof.
  intros sql tableMeta Hform.
  assert (forall (stmt : string) (rule : Rule),
             In stmt (statements sql) -> In rule RULES ->
             exec (pattern rule) stmt = None) as Hnone
      by (intros stmt rule Hstmt Hrule; apply exec_unique_concurrent;
          [now apply Hform | exact Hrule]).
  split; [exact Hnone |].
  rewrite analyze_operations.
  induction (statements sql) as [|stmt stmts IH]; [reflexivity |].
  cbn [flat_map]. unfold itemsOf at 1.
  rewrite (firstMatch_none RULES stmt)
    by (intros rule Hrule; apply Hnone; [now left | exact Hrule]).
  apply IH.
  - intros s Hs. apply Hform. now right.
  - intros s rule Hs Hrule. apply Hnone; [now right | exact Hrule].
Qed.

Lemma unique_concurrent_index_is_ignored_witness :
  statements "CREATE UNIQUE INDEX CONCURRENTLY idx_email ON users (email);"
  = ["CREATE UNIQUE INDEX CONCURRENTLY idx_email ON users (email)"]
  /\ createsUniqueIndexConcurrently
       "CREATE UNIQUE INDEX CONCURRENTLY idx_email ON users (email)"
  /\ operations
       (analyze "CREATE UNIQUE INDEX CONCURRENTLY idx_email ON users (email);" [])
     = [].
Proof.
  assert (statements "CREATE UNIQUE INDEX CONCURRENTLY idx_email ON users (email);"
          = ["CREATE UNIQUE INDEX CONCURRENTLY idx_email ON users (email)"])
    as Hone by reflexivity.
  assert (createsUniqueIndexConcurrently
            "CREATE UNIQUE INDEX CONCURRENTLY idx_email ON users (email)") as Hform.
  { exists "CREATE", " ", "UNIQUE", " ", "INDEX", " ", "CONCURRENTLY",
      " idx_email ON users (email)".
    repeat split. }
  split; [exact Hone | split; [exact Hform |]].
  apply (unique_concurrent_index_is_ignored
           "CREATE UNIQUE INDEX CONCURRENTLY idx_email ON users (email);" []).
  intros stmt Hstmt. rewrite Hone in Hstmt.
  destruct Hstmt as [<- | []]. exact Hform.
Defined.

(** C10, as the claim words it, fails: the patterns are looked for
    anywhere in the statement, and the text after the table may hold the
    beginning of another statement. *)
Lemma unique_concurrent_index_followed_by_drop_table :
  "CREATE UNIQUE INDEX CONCURRENTLY i ON t (c) WHERE note = 'DROP TABLE x'"
  = "CREATE UNIQUE INDEX CONCURRENTLY " +:+ "i" +:+ " ON " +:+ "t"
    +:+ " (c) WHERE note = 'DROP TABLE x'"
  /\ map (fun item => (operation item, table item, riskLevel item))
         (operations
            (analyze
               "CREATE UNIQUE INDEX CONCURRENTLY i ON t (c) WHERE note = 'DROP TABLE x';"
               []))
     = [("DROP TABLE", "x", critical)].
Proof. split; reflexivity. Qed.

End UniqueConcurrent.

(** ** CREATE INDEX, with and without CONCURRENTLY *)

Section IndexStatements.
Import Text Shape Forms RegExp RegExp.Notations Wording IndexForms Number Analyzer Spec Rules.

#[local] Arguments toUpperCase : simpl never.

Ltac walk Hin :=
  cbn [String.append];
  repeat first
    [ rewrite exec_next by (apply RULES_open; [exact Hin | reflexivity])
    | rewrite exec_skip_blank by (exact Hin || (apply blank_allChars; assumption)) ].

Lemma stripPrefix_none_upper (t s : string) :
  stripPrefix t (toUpperCase s) = None -> stripPrefix t s = None.
Proof. rewrite stripPrefix_toUpperCase. now destruct (stripPrefix t s). Qed.

Lemma beginsWithText_keyword (k s : string) :
  isEmpty k = false -> beginsWithText (toUpperCase k) = true ->
  beginsWithText (k +:+ s) = true.
Proof.
  destruct k as [|c k]; [discriminate |]. intros _.
  rewrite toUpperCase_cons. cbn [beginsWithText String.append].
  now rewrite isSpace_upperChar.
Qed.

Lemma beginsWithText_identifier (w s : string) :
  isIdentifier w = true -> beginsWithText (w +:+ s) = true.
Proof.
  intros Hw. destruct (isIdentifier_inv w Hw) as (c & w' & -> & Hc & _).
  cbn [beginsWithText String.append]. now rewrite (isWord_not_isSpace c Hc).
Qed.

Lemma endsWord_blank (g s : string) : blank g = true -> endsWord (g +:+ s) = true.
Proof.
  intros Hg. destruct (blank_inv g Hg) as (c & g' & -> & Hc & _).
  cbn [endsWord String.append]. now rewrite (isSpace_not_isWord c Hc).
Qed.

(** *** In upper case: where no rule matches *)

Lemma exec_concurrent_upper (g1 g2 g3 body : string) (rule : Rule) :
  blank g1 = true -> blank g2 = true -> blank g3 = true ->
  occurs opensRule body = false ->
  In rule RULES ->
  rule <> CREATE_INDEX_CONCURRENTLY ->
  exec (pattern rule)
       ("CREATE" +:+ g1 +:+ "INDEX" +:+ g2 +:+ "CONCURRENTLY" +:+ g3 +:+ body)
  = None.
Proof.
  intros H1 H2 H3 Hbody Hin Hother.
  assert (run (pattern rule) accept
              ("CREATE" +:+ g1 +:+ "INDEX" +:+ g2 +:+ "CONCURRENTLY" +:+ g3
               +:+ body) None = None) as Hstart.
  { pose proof Hin as Hrule. unfold RULES in Hrule.
    destruct Hrule as [<- | [<- | [<- | [<- | [<- | [<- | [<- | [<- | []]]]]]]]];
      try (apply run_opening; reflexivity).
    - congruence.
    - cbn [pattern CREATE_INDEX].
      rewrite (run_lit _ _ _ _ _ _ (stripPrefix_same_upper "CREATE" "CREATE" _ eq_refl)).
      rewrite run_blank by (assumption || reflexivity).
      rewrite run_opt_skip by reflexivity.
      rewrite (run_lit _ _ _ _ _ _ (stripPrefix_same_upper "INDEX" "INDEX" _ eq_refl)).
      rewrite run_blank by (assumption || reflexivity).
      now apply run_notahead_seen. }
  change ("CREATE" +:+ g1 +:+ "INDEX" +:+ g2 +:+ "CONCURRENTLY" +:+ g3 +:+ body)
    with (String "C" ("REATE" +:+ g1 +:+ "INDEX" +:+ g2 +:+ "CONCURRENTLY"
                      +:+ g3 +:+ body)) in *.
  rewrite (exec_next _ _ _ Hstart).
  walk Hin.
  now apply exec_unopened.
Qed.

Lemma exec_plain_upper (g1 g2 body : string) (rule : Rule) :
  blank g1 = true -> blank g2 = true ->
  beginsWithText body = true ->
  stripPrefix "CONCURRENTLY" body = None ->
  occurs opensRule body = false ->
  In rule RULES ->
  rule <> CREATE_INDEX ->
  exec (pattern rule) ("CREATE" +:+ g1 +:+ "INDEX" +:+ g2 +:+ body) = None.
Proof.
  intros H1 H2 Htext Hnot Hbody Hin Hother.
  assert (run (pattern rule) accept
              ("CREATE" +:+ g1 +:+ "INDEX" +:+ g2 +:+ body) None = None) as Hstart.
  { pose proof Hin as Hrule. unfold RULES in Hrule.
    destruct Hrule as [<- | [<- | [<- | [<- | [<- | [<- | [<- | [<- | []]]]]]]]];
      try (apply run_opening; reflexivity).
    - cbn [pattern CREATE_INDEX_CONCURRENTLY].
      rewrite (run_lit _ _ _ _ _ _ (stripPrefix_same_upper "CREATE" "CREATE" _ eq_refl)).
      rewrite run_blank by (assumption || reflexivity).
      rewrite (run_lit _ _ _ _ _ _ (stripPrefix_same_upper "INDEX" "INDEX" _ eq_refl)).
      rewrite run_blank by (assumption || reflexivity).
      now apply run_lit_fail.
    - congruence. }
  change ("CREATE" +:+ g1 +:+ "INDEX" +:+ g2 +:+ body)
    with (String "C" ("REATE" +:+ g1 +:+ "INDEX" +:+ g2 +:+ body)) in *.
  rewrite (exec_next _ _ _ Hstart).
  walk Hin.
  now apply exec_unopened.
Qed.

(** *** The two statements of a well-formed choice of words *)

Variable w : IndexWords.
Hypothesis well_formed : wellFormed w = true.

Lemma wellFormed_inv :
  toUpperCase (create w) = "CREATE"
  /\ toUpperCase (index w) = "INDEX"
  /\ toUpperCase (concurrently w) = "CONCURRENTLY"
  /\ toUpperCase (on w) = "ON"
  /\ blank (gap1 w) = true /\ blank (gap2 w) = true /\ blank (gap3 w) = true
  /\ blank (gap4 w) = true /\ blank (gap5 w) = true
  /\ isIdentifier (indexName w) = true /\ isIdentifier (tableName w) = true
  /\ startsWith "CONCURRENTLY" (indexName w) = false
  /\ endsWord (rest w) = true
  /\ asciiOnly (rest w) = true
  /\ occurs opensRule (body w) = false.
Proof.
  pose proof well_formed as H. unfold wellFormed in H.
  repeat match type of H with
    | _ && _ = true => let H' := fresh "H" in apply andb_prop in H as [H H']
    end.
  rewrite !String.eqb_eq in *. rewrite !negb_true_iff in *.
  repeat split; assumption.
Qed.

Lemma quoteMark_inv :
  quoteMark w = "" \/ quoteMark w = String "034"%char "".
Proof.
  pose proof well_formed as H. unfold wellFormed in H.
  repeat match type of H with
    | _ && _ = true => let H' := fresh "H" in apply andb_prop in H as [H H']
    end.
  unfold quoteOrNothing in H. apply orb_prop in H as [H | H].
  - left. now destruct (quoteMark w).
  - right. now apply String.eqb_eq.
Qed.

Lemma body_shape :
  beginsWithText (body w) = true
  /\ stripPrefix "CONCURRENTLY" (body w) = None.
Proof.
  destruct wellFormed_inv
    as (_ & _ & _ & _ & _ & _ & _ & H4 & _ & Hidx & _ & Hnot & _ & _ & _).
  unfold body. split.
  - now apply beginsWithText_identifier.
  - apply stripPrefix_not_startsWith; [reflexivity | | exact Hnot].
    now apply endsWord_blank.
Qed.

Lemma exec_concurrent_text (rule : Rule) :
  In rule RULES -> rule <> CREATE_INDEX_CONCURRENTLY ->
  exec (pattern rule) (concurrentText w) = None.
Proof.
  intros Hin Hother.
  destruct wellFormed_inv
    as (Hcreate & Hindex & Hconc & _ & H1 & H2 & H3 & _ & _ & _ & _ & _ & _ & _
        & Hbody).
  apply exec_none_upper. unfold concurrentText.
  rewrite !toUpperCase_append, Hcreate, Hindex, Hconc.
  apply exec_concurrent_upper;
    rewrite ?blank_toUpperCase, ?occurs_toUpperCase; assumption.
Qed.

Lemma exec_plain_text (rule : Rule) :
  In rule RULES -> rule <> CREATE_INDEX ->
  exec (pattern rule) (plainText w) = None.
Proof.
  intros Hin Hother.
  destruct wellFormed_inv
    as (Hcreate & Hindex & _ & _ & H1 & H2 & _ & _ & _ & _ & _ & _ & _ & _ & Hbody).
  destruct body_shape as [Htext Hnot].
  apply exec_none_upper. unfold plainText.
  rewrite !toUpperCase_append, Hcreate, Hindex.
  apply exec_plain_upper;
    rewrite ?blank_toUpperCase, ?occurs_toUpperCase, ?beginsWithText_toUpperCase,
      ?stripPrefix_toUpperCase, ?Hnot;
    (assumption || reflexivity).
Qed.

Lemma run_body (r : RegExp.t) :
  r = (\w+ >>> \s+ >>> Lit "ON" >>> \s+ >>> Opt quote >>> Group \w+)%re ->
  run r accept (body w) None = Some (Some (tableName w)).
Proof.
  intros ->.
  destruct wellFormed_inv
    as (_ & _ & _ & Hon & _ & _ & _ & H4 & H5 & Hidx & Htbl & _ & Hrest & _ & _).
  unfold body.
  apply run_word; [exact Hidx | now apply endsWord_blank |].
  rewrite run_blank
    by (assumption || reflexivity
        || (apply beginsWithText_keyword;
            [now destruct (on w) | now rewrite Hon])).
  rewrite (run_lit _ _ _ _ _ _ (stripPrefix_same_upper "ON" (on w) _ Hon)).
  destruct quoteMark_inv as [-> | ->].
  - cbn [String.append].
    rewrite run_blank
      by (assumption || reflexivity || now apply beginsWithText_identifier).
    rewrite run_opt_quote_word by exact Htbl.
    now apply run_group_word.
  - cbn [String.append].
    rewrite run_blank by (assumption || reflexivity).
    apply run_opt_take. unfold quote at 1.
    rewrite (run_lit_last _ _ _ _ _ (stripPrefix_one _ _)).
    now apply run_group_word.
Qed.

Lemma exec_concurrent_rule :
  exec (pattern CREATE_INDEX_CONCURRENTLY) (concurrentText w)
  = Some (Some (tableName w)).
Proof.
  destruct wellFormed_inv
    as (Hcreate & Hindex & Hconc & _ & H1 & H2 & H3 & _ & _ & Hidx & _).
  unfold concurrentText. cbn [pattern CREATE_INDEX_CONCURRENTLY].
  apply exec_here.
  rewrite (run_lit _ _ _ _ _ _ (stripPrefix_same_upper "CREATE" (create w) _ Hcreate)).
  rewrite run_blank
    by (assumption || reflexivity
        || (apply beginsWithText_keyword;
            [now destruct (index w) | now rewrite Hindex])).
  rewrite (run_lit _ _ _ _ _ _ (stripPrefix_same_upper "INDEX" (index w) _ Hindex)).
  rewrite run_blank
    by (assumption || reflexivity
        || (apply beginsWithText_keyword;
            [now destruct (concurrently w) | now rewrite Hconc])).
  rewrite (run_lit _ _ _ _ _ _
             (stripPrefix_same_upper "CONCURRENTLY" (concurrently w) _ Hconc)).
  rewrite run_blank
    by (assumption || reflexivity || now apply beginsWithText_identifier).
  now apply run_body.
Qed.

Lemma exec_plain_rule :
  exec (pattern CREATE_INDEX) (plainText w) = Some (Some (tableName w)).
Proof.
  destruct wellFormed_inv
    as (Hcreate & Hindex & _ & _ & H1 & H2 & _ & _ & _ & Hidx & _).
  destruct body_shape as [Htext Hnot].
  unfold plainText. cbn [pattern CREATE_INDEX].
  apply exec_here.
  rewrite (run_lit _ _ _ _ _ _ (stripPrefix_same_upper "CREATE" (create w) _ Hcreate)).
  rewrite run_blank
    by (assumption || reflexivity
        || (apply beginsWithText_keyword;
            [now destruct (index w) | now rewrite Hindex])).
  rewrite run_opt_skip
    by (apply run_lit_fail, stripPrefix_none_upper;
        rewrite toUpperCase_append, Hindex; reflexivity).
  rewrite (run_lit _ _ _ _ _ _ (stripPrefix_same_upper "INDEX" (index w) _ Hindex)).
  rewrite run_blank by (assumption || reflexivity).
  rewrite run_notahead_lit by exact Hnot.
  now apply run_body.
Qed.

Lemma firstMatch_concurrent_text :
  firstMatch RULES (concurrentText w)
  = Some (CREATE_INDEX_CONCURRENTLY, Some (tableName w)).
Proof.
  unfold RULES. cbn [firstMatch].
  rewrite !exec_concurrent_text
    by ((unfold RULES; simpl; tauto) || discriminate).
  now rewrite exec_concurrent_rule.
Qed.

Lemma firstMatch_plain_text :
  firstMatch RULES (plainText w) = Some (CREATE_INDEX, Some (tableName w)).
Proof.
  unfold RULES. cbn [firstMatch].
  rewrite !exec_plain_text
    by ((unfold RULES; simpl; tauto) || discriminate).
  now rewrite exec_plain_rule.
Qed.

End IndexStatements.

Section IndexClaims.
Import Text Shape Forms RegExp RegExp.Notations Wording IndexForms Number Analyzer Spec Rules.




End IndexClaims.
